(** * web-server-node: the HTTP/1.1 protocol core

    A shallow embedding of the TypeScript sources

    - [dynamicBuffer.ts]  ([bufPush], [bufPop]),
    - [echo/promise_based_api_tcp_server.ts]  ([soInit], [soRead],
      [soWrite]) and [echo/types.ts],
    - the HTTP server module  ([cutMessage], [parseHTTPReq], [splitlines],
      [parseRequestLine], [validateHeader], [validateURI], [getField],
      [parseDec], [readerFromReq], [readerFromChunked],
      [readerFromConnLength], [readerFromMemory], [writeHTTPRes],
      [handleReq], [serveClient]),

    followed by the properties of the specification that were checked
    against it.

    Conventions.  A Node [Buffer] is a list of bytes and a JavaScript string
    a list of UTF-16 code units, both carried by [Z].  JavaScript numbers
    that hold lengths and offsets are [Z] (all values met here are integers
    far below 2^53).  A function that can throw returns a [Result]; a
    function that mutates an object and can throw returns the mutated
    object next to the [Result], because the caller still sees the
    mutation after the exception. *)

From Stdlib Require Import ZArith List String Ascii Bool Lia DecimalString.
From Stdlib Require DecimalPos.
Import ListNotations.
Local Open Scope string_scope.
Local Open Scope list_scope.
Local Open Scope Z_scope.

(* ================================================================== *)
(** * Exceptions and results *)
(* ================================================================== *)

(** The exceptions the server can meet: [HTTPError] is the class of
    [echo/types.ts]; the other three are the built-in errors raised by
    Node ([RangeError], [TypeError]) and by [throw new Error(...)]. *)
Inductive Exn : Type :=
| HTTPError (code : Z) (message : string)
| RangeError (what : string)
| TypeError (what : string)
| Error (message : string).

Inductive Result (A : Type) : Type :=
| Ok (a : A)
| Throw (e : Exn).
Arguments Ok {A} a.
Arguments Throw {A} e.

Definition rbind {A B} (r : Result A) (k : A -> Result B) : Result B :=
  match r with
  | Ok a => k a
  | Throw e => Throw e
  end.

Declare Scope result_scope.
Delimit Scope result_scope with result.
Notation "x <- r ;; k" := (rbind r (fun x => k))
  (at level 61, r at next level, right associativity) : result_scope.

(* ================================================================== *)
(** * Node primitives on Buffers and strings *)
(* ================================================================== *)

Definition Buffer := list Z.
Definition JSString := list Z.

(** [.length] of a Buffer, array or string. *)
Definition len {A} (l : list A) : Z := Z.of_nat (List.length l).

(** A string literal of the source, as code units. *)
Definition lit (s : string) : list Z :=
  map (fun c => Z.of_nat (nat_of_ascii c)) (list_ascii_of_string s).

Definition CR : Z := 13.
Definition LF : Z := 10.
Definition SP : Z := 32.
Definition COLON : Z := 58.
Definition SLASH : Z := 47.
Definition CRLF : Buffer := [CR; LF].
Definition CRLFCRLF : Buffer := [CR; LF; CR; LF].

Fixpoint list_eqb (a b : list Z) : bool :=
  match a, b with
  | [], [] => true
  | x :: a', y :: b' => (x =? y) && list_eqb a' b'
  | _, _ => false
  end.

(** [Buffer.alloc(n)]: [n] zero bytes. *)
Definition alloc (n : Z) : Buffer := repeat 0 (Z.to_nat n).

(** The bounds of [subarray] and [copyWithin]: a negative index counts
    from the end, everything is clamped to [0, length]. *)
Definition clampIndex (i n : Z) : Z :=
  if i <? 0 then Z.max (n + i) 0 else Z.min i n.

(** [b.subarray(s, e)] (and [Buffer.from] of it: a copy with the same
    contents). *)
Definition subarray (b : Buffer) (s e : Z) : Buffer :=
  let s' := clampIndex s (len b) in
  let e' := clampIndex e (len b) in
  firstn (Z.to_nat (e' - s')) (skipn (Z.to_nat s') b).

(** [source.copy(target, targetStart, 0)]: writes as many bytes of
    [source] as fit into [target] from [targetStart] on, and nothing when
    [targetStart] is at or past the end of the target.  ([targetStart] is
    never negative in this program.) *)
Definition copy (source target : Buffer) (targetStart : Z) : Buffer :=
  if (targetStart <? 0) || (len target <=? targetStart) then target
  else
    let nb := Z.min (len source) (len target - targetStart) in
    firstn (Z.to_nat targetStart) target
      ++ firstn (Z.to_nat nb) source
      ++ skipn (Z.to_nat (targetStart + nb)) target.

(** [b.copyWithin(0, start, end)]: moves [b[start, end)] (bounds clamped)
    to the front. *)
Definition copyWithin0 (b : Buffer) (s e : Z) : Buffer :=
  let from := clampIndex s (len b) in
  let final := clampIndex e (len b) in
  let count := Z.min (final - from) (len b) in
  if count <=? 0 then b
  else firstn (Z.to_nat count) (skipn (Z.to_nat from) b)
         ++ skipn (Z.to_nat count) b.

(** [b.fill(0, offset, end)].  Node validates both bounds before it
    writes: [offset] must be a non-negative integer and [end] must lie in
    [0, b.length], otherwise the call throws a [RangeError]
    ([ERR_OUT_OF_RANGE]); nothing is clamped. *)
Definition fill0 (b : Buffer) (offset e : Z) : Result Buffer :=
  if offset <? 0 then Throw (RangeError "offset")
  else if (e <? 0) || (len b <? e) then Throw (RangeError "end")
  else if e <=? offset then Ok b
  else Ok (firstn (Z.to_nat offset) b
             ++ repeat 0 (Z.to_nat (e - offset))
             ++ skipn (Z.to_nat e) b).

(** Is [pat] a prefix of [l]? *)
Fixpoint prefixb (pat l : list Z) : bool :=
  match pat, l with
  | [], _ => true
  | p :: pat', x :: l' => (p =? x) && prefixb pat' l'
  | _ :: _, [] => false
  end.

(** Position of the first occurrence of [pat] in [l]. *)
Fixpoint find_sub (pat l : list Z) : option nat :=
  if prefixb pat l then Some O
  else match l with
       | [] => None
       | _ :: l' => option_map S (find_sub pat l')
       end.

(** [b.indexOf(pat, from)] for a non-negative [from]: the first
    occurrence at or after [from], or [-1]. *)
Definition indexOf (b pat : list Z) (from : Z) : Z :=
  match find_sub pat (skipn (Z.to_nat from) b) with
  | Some i => Z.max from 0 + Z.of_nat i
  | None => -1
  end.

(** [b.includes(pat)]. *)
Definition includes (b pat : list Z) : bool :=
  match find_sub pat b with Some _ => true | None => false end.

(* ================================================================== *)
(** * dynamicBuffer.ts *)
(* ================================================================== *)

(** [DynBuf] of [echo/types.ts]; the capacity is [data.length]. *)
Record DynBuf : Type := mkDynBuf {
  data : Buffer;
  length : Z;
  begin : Z
}.

Definition capacity (buf : DynBuf) : Z := len (data buf).

(** The loop [while (cap < newLen) cap *= 2].  It ends after at most
    [newLen] doublings of a positive [cap]; [grow] gives it that many. *)
Fixpoint grow_loop (fuel : nat) (cap newLen : Z) : Z :=
  match fuel with
  | O => cap
  | S f => if cap <? newLen then grow_loop f (cap * 2) newLen else cap
  end.

Definition grow (cap newLen : Z) : Z := grow_loop (Z.to_nat newLen) cap newLen.

Definition bufPush (buf : DynBuf) (d : Buffer) : DynBuf :=
  let newLen := length buf + len d in
  let data1 :=
    if len (data buf) - begin buf <? newLen then
      let cap := grow (Z.max (len (data buf)) 32) newLen in
      let newData := alloc cap in
      copy (data buf) newData 0
    else data buf in
  let data2 := copy d data1 (length buf + begin buf) in
  mkDynBuf data2 newLen (begin buf).

(** [bufPop] updates the record field by field; when [fill] throws, the
    record keeps the fields written so far ([begin] advanced, the bytes
    moved, [length] not yet reduced), and that is the [DynBuf] returned
    with the exception. *)
Definition bufPop (buf : DynBuf) (count : Z) : Result unit * DynBuf :=
  let begin1 := begin buf + count in
  if len (data buf) <? 2 * begin1 then
    let data1 := copyWithin0 (data buf) begin1 (begin1 + length buf) in
    match fill0 data1 (length buf) (length buf + begin1) with
    | Throw e => (Throw e, mkDynBuf data1 (length buf) begin1)
    | Ok data2 => (Ok tt, mkDynBuf data2 (length buf - count) 0)
    end
  else (Ok tt, mkDynBuf (data buf) (length buf - count) begin1).

(** The empty buffer every connection starts from ([serveClient]). *)
Definition emptyBuf : DynBuf := mkDynBuf (alloc 0) 0 0.

(** The window of unconsumed bytes. *)
Definition window (buf : DynBuf) : Buffer :=
  subarray (data buf) (begin buf) (begin buf + length buf).

(* ================================================================== *)
(** * Strings: [toString], [Buffer.from(string)], [split], [parseInt] *)
(* ================================================================== *)

(** ** [buf.toString()]: UTF-8 decoding

    Bytes that are not part of a well-formed UTF-8 sequence decode to
    U+FFFD, one per maximal ill-formed prefix; a code point above U+FFFF
    becomes a surrogate pair.  Bytes below 128 decode to themselves, and
    nothing else decodes to a code unit below 128. *)

Definition REPLACEMENT : Z := 65533.

Definition codeUnits (cp : Z) : JSString :=
  if cp <? 65536 then [cp]
  else [55296 + (cp - 65536) / 1024; 56320 + (cp - 65536) mod 1024].

Inductive LeadByte : Type :=
| LeadAscii
| LeadMulti (needed : nat) (cp lower upper : Z)
| LeadInvalid.

Definition classify (b : Z) : LeadByte :=
  if (0 <=? b) && (b <=? 127) then LeadAscii
  else if (194 <=? b) && (b <=? 223) then LeadMulti 1 (b - 192) 128 191
  else if (224 <=? b) && (b <=? 239) then
    LeadMulti 2 (b - 224) (if b =? 224 then 160 else 128)
                          (if b =? 237 then 159 else 191)
  else if (240 <=? b) && (b <=? 244) then
    LeadMulti 3 (b - 240) (if b =? 240 then 144 else 128)
                          (if b =? 244 then 143 else 191)
  else LeadInvalid.

(** [needed] continuation bytes are still expected for the code point
    accumulated in [cp]; the next one must lie in [lower, upper]. *)
Fixpoint decodeFrom (bytes : Buffer) (needed : nat) (cp lower upper : Z)
  : JSString :=
  match bytes with
  | [] => match needed with O => [] | S _ => [REPLACEMENT] end
  | b :: rest =>
      let fresh :=
        match classify b with
        | LeadAscii => b :: decodeFrom rest 0 0 128 191
        | LeadMulti n c lo up => decodeFrom rest n c lo up
        | LeadInvalid => REPLACEMENT :: decodeFrom rest 0 0 128 191
        end in
      match needed with
      | O => fresh
      | S n =>
          if (lower <=? b) && (b <=? upper) then
            let cp' := cp * 64 + (b - 128) in
            match n with
            | O => codeUnits cp' ++ decodeFrom rest 0 0 128 191
            | S _ => decodeFrom rest n cp' 128 191
            end
          else REPLACEMENT :: fresh
      end
  end.

Definition toString (b : Buffer) : JSString := decodeFrom b 0 0 128 191.

(** [buf.toString("latin1")]: one code unit per byte. *)
Definition toStringLatin1 (b : Buffer) : JSString := b.

(** ** [Buffer.from(string)]: UTF-8 encoding of the code units; a
    surrogate that has no partner encodes as U+FFFD. *)

Definition isHighSurrogate (u : Z) : bool := (55296 <=? u) && (u <? 56320).
Definition isLowSurrogate (u : Z) : bool := (56320 <=? u) && (u <? 57344).

Definition encode3 (u : Z) : Buffer :=
  [224 + u / 4096; 128 + (u / 64) mod 64; 128 + u mod 64].

Definition encode4 (cp : Z) : Buffer :=
  [240 + cp / 262144; 128 + (cp / 4096) mod 64;
   128 + (cp / 64) mod 64; 128 + cp mod 64].

Fixpoint fromString (s : JSString) : Buffer :=
  match s with
  | [] => []
  | u :: rest =>
      if u <? 128 then u :: fromString rest
      else if u <? 2048 then [192 + u / 64; 128 + u mod 64] ++ fromString rest
      else if isHighSurrogate u then
        match rest with
        | lo :: rest' =>
            if isLowSurrogate lo
            then encode4 (65536 + (u - 55296) * 1024 + (lo - 56320))
                   ++ fromString rest'
            else encode3 REPLACEMENT ++ fromString rest
        | [] => encode3 REPLACEMENT
        end
      else if isLowSurrogate u then encode3 REPLACEMENT ++ fromString rest
      else encode3 u ++ fromString rest
  end.

(** ** [s.split(sep)] for a one-character separator: never empty. *)
Fixpoint split (sep : Z) (s : JSString) : list JSString :=
  match s with
  | [] => [[]]
  | c :: s' =>
      if c =? sep then [] :: split sep s'
      else match split sep s' with
           | w :: ws => (c :: w) :: ws
           | [] => [[c]]
           end
  end.

(** [s.split(sep, limit)]: the first [limit] pieces of [s.split(sep)];
    the pieces after them are dropped, not joined to the last one. *)
Definition splitLimit (sep : Z) (limit : nat) (s : JSString) : list JSString :=
  firstn limit (split sep s).

(** [s.endsWith(" ")]. *)
Definition endsWithSpace (s : JSString) : bool :=
  match rev s with
  | c :: _ => c =? SP
  | [] => false
  end.

(** [s.toLowerCase()].  The letters A-Z are lowered, and so is the Kelvin
    sign U+212A, the one character outside ASCII whose lower case lies
    inside it.  JavaScript also lowers the other capital letters outside
    ASCII, to characters outside ASCII again; they are left as they are
    here, which decides [k.toLowerCase() === key.toLowerCase()] correctly
    whenever [key] is ASCII, as the two keys of this program are. *)
Definition lowerUnit (u : Z) : Z :=
  if (65 <=? u) && (u <=? 90) then u + 32
  else if u =? 8490 then 107
  else u.

Definition toLowerCase (s : JSString) : JSString := map lowerUnit s.

(** ** [parseInt(s, 10)]

    Leading white space is skipped, one sign is read, then the longest
    run of decimal digits; whatever follows the digits is ignored.  No
    digit at all gives [NaN], here [None].  (The result is a double in
    JavaScript; it is the exact integer below 2^53.) *)

Definition isWhiteSpace (u : Z) : bool :=
  existsb (Z.eqb u)
    [9; 10; 11; 12; 13; 32; 160; 5760; 8192; 8193; 8194; 8195; 8196; 8197;
     8198; 8199; 8200; 8201; 8202; 8232; 8233; 8239; 8287; 12288; 65279].

Fixpoint trimStart (s : JSString) : JSString :=
  match s with
  | u :: s' => if isWhiteSpace u then trimStart s' else s
  | [] => []
  end.

Definition isDigit (u : Z) : bool := (48 <=? u) && (u <=? 57).

(** The digits at the front of [s], read in base 10 after [acc]. *)
Fixpoint readDigits (s : JSString) (acc : option Z) : option Z :=
  match s with
  | u :: s' =>
      if isDigit u
      then readDigits s' (Some (10 * match acc with Some a => a | None => 0 end
                                + (u - 48)))
      else acc
  | [] => acc
  end.

Definition parseInt10 (s : JSString) : option Z :=
  match trimStart s with
  | u :: s' =>
      if u =? 45 then option_map Z.opp (readDigits s' None)
      else if u =? 43 then readDigits s' None
      else readDigits (u :: s') None
  | [] => None
  end.

(** [parseInt(arg0, 10) || NaN]: zero is falsy, so it becomes [NaN] too. *)
Definition parseDec (arg0 : JSString) : option Z :=
  match parseInt10 arg0 with
  | Some n => if n =? 0 then None else Some n
  | None => None
  end.

(* ================================================================== *)
(** * The HTTP server: parsing *)
(* ================================================================== *)

(** [HTTPReq] of [echo/types.ts]. *)
Record HTTPReq : Type := mkHTTPReq {
  method : JSString;
  uri : Buffer;
  version : JSString;
  headers : list Buffer
}.

Definition kMaxHeaderLen : Z := 1024 * 8.

Definition kHttpMethods : list JSString :=
  [lit "GET"; lit "POST"; lit "PUT"; lit "DELETE"; lit "HEAD"; lit "OPTIONS";
   lit "TRACE"; lit "CONNECT"].

(** The loop of [splitlines].  Every round moves [begin] forward by two
    bytes at least, so [S (length data)] rounds are never used up. *)
Fixpoint splitlines_loop (fuel : nat) (d : Buffer) (begin : Z)
                         (lines : list Buffer) : list Buffer :=
  match fuel with
  | O => lines
  | S f =>
      if begin <? len d then
        let idx := indexOf d CRLF begin in
        if idx <? 0 then lines ++ [subarray d begin (len d)]
        else
          let lines' :=
            if idx =? 0 then lines else lines ++ [subarray d begin idx] in
          splitlines_loop f d (idx + 2) lines'
      else lines
  end.

Definition splitlines (d : Buffer) : list Buffer :=
  splitlines_loop (S (List.length d)) d 0 [].

Definition validateURI (uri : Buffer) (method : JSString) : bool :=
  if (len uri =? 0) || includes uri [SP] then false
  else if list_eqb method (lit "CONNECT") && negb (includes uri [COLON])
  then false
  else if list_eqb method (lit "OPTIONS") && negb (len uri =? 1) then false
  else true.

Definition parseRequestLine (arg0 : Buffer)
  : Result (JSString * Buffer * JSString) :=
  let elements := split SP (toString arg0) in
  if negb (len elements =? 3) then Throw (HTTPError 400 "Bad request line")
  else
    let method := nth 0 elements [] in
    if negb (existsb (list_eqb method) kHttpMethods)
    then Throw (HTTPError 405 "Method not allowed")
    else
      let uri := fromString (nth 1 elements []) in
      if negb (validateURI uri method) then Throw (HTTPError 400 "Bad URI")
      else
        (* [elements[2].split("/")[1]]: [undefined] when there is no "/" *)
        match nth_error (split SLASH (nth 2 elements [])) 1 with
        | Some version =>
            if negb (list_eqb version (lit "1.0"))
               && negb (list_eqb version (lit "1.1"))
            then Throw (HTTPError 505 "HTTP version not supported")
            else Ok (method, uri, version)
        | None => Throw (HTTPError 505 "HTTP version not supported")
        end.

Definition validateHeader (h : Buffer) : bool :=
  if (len h =? 0) || negb (includes h [COLON]) then false
  else
    let elements := splitLimit COLON 2 (toString h) in
    if negb (len elements =? 2)
       || (len (nth 0 elements []) =? 0)
       || (len (nth 1 elements []) =? 0)
       || endsWithSpace (nth 0 elements [])
    then false
    else true.

(** The [for] loop of [parseHTTPReq] over the lines between the first
    and the last: it throws at the first line that fails
    [validateHeader]. *)
Fixpoint collectHeaders (ls : list Buffer) : Result (list Buffer) :=
  match ls with
  | [] => Ok []
  | h :: ls' =>
      if negb (validateHeader h) then Throw (HTTPError 400 "Bad header")
      else (hs <- collectHeaders ls' ;; Ok (h :: hs))%result
  end.

(** The lines with index [1 .. lines.length - 2]. *)
Definition headerLines (lines : list Buffer) : list Buffer :=
  removelast (tl lines).

Definition parseHTTPReq (d : Buffer) : Result HTTPReq :=
  match splitlines d with
  | [] => Throw (TypeError "lines[0] is undefined")
  | line0 :: _ =>
      (mv <- parseRequestLine line0 ;;
       hs <- collectHeaders (headerLines (splitlines d)) ;;
       let '(m, u, v) := mv in
       Ok (mkHTTPReq m u v hs))%result
  end.

Definition cutMessage (buf : DynBuf) : Result (option HTTPReq) * DynBuf :=
  let lastIndexInclude := begin buf + length buf in
  let idx :=
    indexOf (subarray (data buf) (begin buf) lastIndexInclude) CRLFCRLF 0 in
  if idx <? 0 then
    if kMaxHeaderLen <? length buf
    then (Throw (HTTPError 413 "Header too long"), buf)
    else (Ok None, buf)
  else
    match parseHTTPReq
            (subarray (data buf) (begin buf) (idx + begin buf + 4)) with
    | Throw e => (Throw e, buf)
    | Ok msg =>
        match bufPop buf (idx + 4) with
        | (Throw e, buf') => (Throw e, buf')
        | (Ok _, buf') => (Ok (Some msg), buf')
        end
    end.

(** [getField]: [const [k, v] = h.toString().split(":")] takes the first
    two pieces of the split; [Buffer.from(v)] throws a [TypeError] when
    [v] is [undefined], that is when the line has no colon. *)
Fixpoint getField (hs : list Buffer) (key : JSString)
  : Result (option Buffer) :=
  match hs with
  | [] => Ok None
  | h :: hs' =>
      let pieces := split COLON (toString h) in
      let k := nth 0 pieces [] in
      if list_eqb (toLowerCase k) (toLowerCase key) then
        match nth_error pieces 1 with
        | Some v => Ok (Some (fromString v))
        | None => Throw (TypeError "Buffer.from(undefined)")
        end
      else getField hs' key
  end.

(* ================================================================== *)
(** * echo/promise_based_api_tcp_server.ts: the connection bridge *)
(* ================================================================== *)

(** What the socket will deliver, in order.  A task that awaits [soRead]
    is resumed by the next event; the server handles one connection
    sequentially, so the events are consumed one per read.  When the
    list is used up the peer has closed: that counts as [EvEnd]. *)
Inductive SockEvent : Type :=
| EvData (d : Buffer)
| EvEnd
| EvError (message : string).

(** [TCPConn]: the pending events of the socket, the flags [ended] and
    [err] of the source, the chunks written to the socket so far, and
    whether [socket.destroy()] has been called. *)
Record TCPConn : Type := mkTCPConn {
  events : list SockEvent;
  ended : bool;
  err : option Exn;
  sent : list Buffer;
  destroyed : bool
}.

Definition soInit (evs : list SockEvent) : TCPConn :=
  mkTCPConn evs false None [] false.

Definition soRead (c : TCPConn) : Result Buffer * TCPConn :=
  match err c with
  | Some e => (Throw e, c)
  | None =>
      if ended c then (Ok [], c)
      else
        match events c with
        | EvData d :: evs =>
            (Ok d, mkTCPConn evs (ended c) (err c) (sent c) (destroyed c))
        | EvError m :: evs =>
            (Throw (Error m),
             mkTCPConn evs (ended c) (Some (Error m)) (sent c) (destroyed c))
        | EvEnd :: evs =>
            (Ok [], mkTCPConn evs true (err c) (sent c) (destroyed c))
        | [] => (Ok [], mkTCPConn [] true (err c) (sent c) (destroyed c))
        end
  end.

(** [soWrite].  The handler of [end] in [soInit] calls [socket.end()];
    a [socket.write] after that calls back with the error
    [write after end], which rejects the promise, and the socket emits
    the same error, which the handler of [error] stores in [conn.err]:
    nothing goes out. *)
Definition soWrite (c : TCPConn) (d : Buffer) : Result unit * TCPConn :=
  match err c with
  | Some e => (Throw e, c)
  | None =>
      if ended c
      then (Throw (Error "write after end"),
            mkTCPConn (events c) (ended c) (Some (Error "write after end"))
              (sent c) (destroyed c))
      else (Ok tt,
            mkTCPConn (events c) (ended c) (err c) (sent c ++ [d])
              (destroyed c))
  end.

Definition destroy (c : TCPConn) : TCPConn :=
  mkTCPConn (events c) (ended c) (err c) (sent c) true.

(* ================================================================== *)
(** * The HTTP server: body readers *)
(* ================================================================== *)

(** The mutable state of one connection: the socket and its buffer, and
    the requests announced by the log line [got <method> request ...]
    that [serveClient] writes for each message it takes from the buffer
    (the other lines of the log are not kept). *)
Record World : Type := mkWorld {
  conn : TCPConn;
  buf : DynBuf;
  got : list HTTPReq
}.

(** A [BodyReader] is a [length] and a closure [read]; the closure is
    one of two in this program, given here with the variable it
    captures and updates: [done] for the reader over a fixed buffer,
    [bodyLen] for the reader over the connection.  ([readerFromChunked]
    returns no reader.) *)
Inductive BodyReader : Type :=
| FromMemory (arg0 : Buffer) (done : bool)
| FromConnLength (declared : Z) (bodyLen : Z).

Definition readerLength (r : BodyReader) : Z :=
  match r with
  | FromMemory arg0 _ => len arg0
  | FromConnLength declared _ => declared
  end.

Definition readerFromMemory (arg0 : Buffer) : BodyReader :=
  FromMemory arg0 false.

Definition readerFromConnLength (bodyLen : Z) : BodyReader :=
  FromConnLength bodyLen bodyLen.

Definition readerFromChunked (c : TCPConn) (b : DynBuf) : Result BodyReader :=
  Throw (Error "Function not implemented.").

(** The [read] closure of [readerFromConnLength], on the captured
    [bodyLen]: the chunk or the exception, the new [bodyLen], and the
    connection and buffer as the call leaves them. *)
Definition readConnLength (bodyLen : Z) (w : World)
  : Result Buffer * (Z * World) :=
  if bodyLen =? 0 then (Ok [], (bodyLen, w))
  else
    let '(pulled, w1) :=
      if length (buf w) =? 0 then
        match soRead (conn w) with
        | (Throw e, c') => (Throw e, mkWorld c' (buf w) (got w))
        | (Ok d, c') =>
            let w' := mkWorld c' (bufPush (buf w) d) (got w) in
            if len d =? 0
            then (Throw (HTTPError 400 "Unexpected EOF"), w')
            else (Ok tt, w')
        end
      else (Ok tt, w) in
    match pulled with
    | Throw e => (Throw e, (bodyLen, w1))
    | Ok _ =>
        let availableData := Z.min (length (buf w1)) bodyLen in
        let bodyLen' := bodyLen - availableData in
        let body :=
          subarray (data (buf w1)) (begin (buf w1))
                   (begin (buf w1) + availableData) in
        match bufPop (buf w1) availableData with
        | (Throw e, b') => (Throw e, (bodyLen', mkWorld (conn w1) b' (got w1)))
        | (Ok _, b') => (Ok body, (bodyLen', mkWorld (conn w1) b' (got w1)))
        end
    end.

(** [reader.read()]. *)
Definition read (r : BodyReader) (w : World)
  : Result Buffer * (BodyReader * World) :=
  match r with
  | FromMemory arg0 done =>
      if done then (Ok [], (r, w)) else (Ok arg0, (FromMemory arg0 true, w))
  | FromConnLength declared bodyLen =>
      let '(res, (bodyLen', w')) := readConnLength bodyLen w in
      (res, (FromConnLength declared bodyLen', w'))
  end.

Definition readerFromReq (c : TCPConn) (b : DynBuf) (req : HTTPReq)
  : Result BodyReader :=
  (contentLength <- getField (headers req) (lit "Content-Length") ;;
   bodyLen0 <-
     match contentLength with
     | Some cl =>
         match parseDec (toStringLatin1 cl) with
         | Some n => Ok n
         | None => Throw (HTTPError 400 "Bad Content-Length")
         end
     | None => Ok (-1)
     end ;;
   let bodyAllowed :=
     negb (list_eqb (method req) (lit "GET")
           || list_eqb (method req) (lit "HEAD")) in
   te <- getField (headers req) (lit "Transfer-Encoding") ;;
   let chunked :=
     match te with
     | Some v => list_eqb v (lit "chunked")
     | None => false
     end in
   if negb bodyAllowed && ((0 <? bodyLen0) || chunked)
   then Throw (HTTPError 400 "Body not allowed")
   else
     let bodyLen := if negb bodyAllowed then 0 else bodyLen0 in
     if chunked then readerFromChunked c b
     else if 0 <=? bodyLen then Ok (readerFromConnLength bodyLen)
     else Throw (Error "Not implemented"))%result.

(* ================================================================== *)
(** * The HTTP server: responses and the connection loop *)
(* ================================================================== *)

(** The body of a response is the request's own reader (the route
    [/echo] hands [reqBody] back, so both names denote one object and
    one [bodyLen]) or a reader of its own. *)
Inductive BodyRef : Type :=
| RequestBody
| Fresh (r : BodyReader).

Record HTTPRes : Type := mkHTTPRes {
  code : Z;
  resHeaders : list Buffer;
  body : BodyRef
}.

Definition kReasons : list (Z * string) :=
  [(100, "Continue"); (101, "Switching Protocols"); (200, "OK");
   (201, "Created"); (202, "Accepted");
   (203, "Non-Authoritative Information"); (204, "No Content");
   (205, "Reset Content"); (206, "Partial Content");
   (300, "Multiple Choices"); (301, "Moved Permanently"); (302, "Found");
   (303, "See Other"); (304, "Not Modified"); (305, "Use Proxy");
   (307, "Temporary Redirect"); (308, "Permanent Redirect");
   (400, "Bad Request"); (401, "Unauthorized"); (402, "Payment Required");
   (403, "Forbidden"); (404, "Not Found"); (405, "Method Not Allowed");
   (406, "Not Acceptable"); (407, "Proxy Authentication Required");
   (408, "Request Timeout"); (409, "Conflict"); (410, "Gone");
   (411, "Length Required"); (412, "Precondition Failed");
   (413, "Payload Too Large"); (414, "URI Too Long");
   (415, "Unsupported Media Type"); (416, "Range Not Satisfiable");
   (417, "Expectation Failed"); (418, "I'm a teapot");
   (421, "Misdirected Request"); (422, "Unprocessable Entity");
   (423, "Locked"); (424, "Failed Dependency"); (425, "Too Early");
   (426, "Upgrade Required"); (428, "Precondition Required");
   (429, "Too Many Requests"); (431, "Request Header Fields Too Large");
   (451, "Unavailable For Legal Reasons"); (500, "Internal Server Error");
   (501, "Not Implemented"); (502, "Bad Gateway");
   (503, "Service Unavailable"); (504, "Gateway Timeout");
   (505, "HTTP Version Not Supported"); (506, "Variant Also Negotiates");
   (507, "Insufficient Storage"); (508, "Loop Detected");
   (510, "Not Extended"); (511, "Network Authentication Required")].

Definition getReasonFromCode (c : Z) : string :=
  match find (fun p => fst p =? c) kReasons with
  | Some (_, reason) => reason
  | None => "Unknown"
  end.

(** An integer inside a template literal: all its digits.  (JavaScript
    prints a number in full below 10^21 and in exponent notation from
    there on; the lengths met here are far below.) *)
Definition decimal (n : Z) : JSString :=
  lit (NilZero.string_of_int (Z.to_int n)).

Fixpoint join (sep : JSString) (parts : list JSString) : JSString :=
  match parts with
  | [] => []
  | [p] => p
  | p :: ps => p ++ sep ++ join sep ps
  end.

Definition encodeHTTPRes (c : Z) (hs : list Buffer) : Buffer :=
  let statusLine :=
    lit "HTTP/1.1 " ++ decimal c ++ [SP] ++ lit (getReasonFromCode c)
      ++ CRLF in
  let hdrs := join CRLF (map toString hs) ++ CRLFCRLF in
  fromString statusLine ++ fromString hdrs.

(** [res.body.read()], through the reference: reading the request's
    reader updates [reqBody] itself. *)
Definition readRef (ref : BodyRef) (reqBody : BodyReader) (w : World)
  : Result Buffer * (BodyRef * BodyReader * World) :=
  match ref with
  | RequestBody =>
      let '(r, (rd, w')) := read reqBody w in (r, (RequestBody, rd, w'))
  | Fresh own =>
      let '(r, (own', w')) := read own w in (r, (Fresh own', reqBody, w'))
  end.

Definition refLength (ref : BodyRef) (reqBody : BodyReader) : Z :=
  match ref with
  | RequestBody => readerLength reqBody
  | Fresh own => readerLength own
  end.

(** The loop [while (true)] of [writeHTTPRes]; [None] when the rounds
    given by [fuel] do not reach its end. *)
Fixpoint writeBody (fuel : nat) (ref : BodyRef) (reqBody : BodyReader)
                   (w : World)
  : option (Result unit * (BodyReader * World)) :=
  match fuel with
  | O => None
  | S f =>
      match readRef ref reqBody w with
      | (Throw e, (_, rd, w')) => Some (Throw e, (rd, w'))
      | (Ok d, (ref', rd, w')) =>
          if len d =? 0 then Some (Ok tt, (rd, w'))
          else
            match soWrite (conn w') d with
            | (Throw e, c') =>
                Some (Throw e, (rd, mkWorld c' (buf w') (got w')))
            | (Ok _, c') =>
                writeBody f ref' rd (mkWorld c' (buf w') (got w'))
            end
      end
  end.

Definition writeHTTPRes (fuel : nat) (res : HTTPRes) (reqBody : BodyReader)
                        (w : World)
  : option (Result unit * (BodyReader * World)) :=
  let bodyLength := refLength (body res) reqBody in
  if bodyLength <? 0 then Some (Throw (Error "not implemented"), (reqBody, w))
  else
    let hs :=
      resHeaders res ++ [fromString (lit "Content-Length: " ++ decimal bodyLength)] in
    match soWrite (conn w) (encodeHTTPRes (code res) hs) with
    | (Throw e, c') => Some (Throw e, (reqBody, mkWorld c' (buf w) (got w)))
    | (Ok _, c') =>
        writeBody fuel (body res) reqBody (mkWorld c' (buf w) (got w))
    end.

Definition handleReq (req : HTTPReq) : HTTPRes :=
  let resp :=
    if list_eqb (toStringLatin1 (uri req)) (lit "/echo") then RequestBody
    else Fresh (readerFromMemory (fromString (lit "Hello From Nazarick" ++ [LF]))) in
  mkHTTPRes 200 [fromString (lit "Server: Nazarick")] resp.

(** The loop [while ((await reqBody.read()).length > 0) {}]. *)
Fixpoint discardBody (fuel : nat) (reqBody : BodyReader) (w : World)
  : option (Result unit * (BodyReader * World)) :=
  match fuel with
  | O => None
  | S f =>
      match read reqBody w with
      | (Throw e, st) => Some (Throw e, st)
      | (Ok d, (rd, w')) =>
          if 0 <? len d then discardBody f rd w' else Some (Ok tt, (rd, w'))
      end
  end.

(** The loop of [serveClient], over the buffer it created before the
    loop; one unit of [fuel] per round, and the same amount for each of
    the two loops inside a round. *)
Fixpoint serveLoop (fuel : nat) (w : World) : option (Result unit * World) :=
  match fuel with
  | O => None
  | S f =>
      match cutMessage (buf w) with
      | (Throw e, b') => Some (Throw e, mkWorld (conn w) b' (got w))
      | (Ok None, _) =>
          match soRead (conn w) with
          | (Throw e, c') => Some (Throw e, mkWorld c' (buf w) (got w))
          | (Ok d, c') =>
              let w' := mkWorld c' (bufPush (buf w) d) (got w) in
              if (len d =? 0) && (length (buf w') =? 0) then Some (Ok tt, w')
              else if len d =? 0
              then Some (Throw (HTTPError 400 "Unexpected EOF."), w')
              else serveLoop f w'
          end
      | (Ok (Some msg), b') =>
          let w1 := mkWorld (conn w) b' (got w ++ [msg]) in
          match readerFromReq (conn w1) (buf w1) msg with
          | Throw e => Some (Throw e, w1)
          | Ok reqBody =>
              match writeHTTPRes f (handleReq msg) reqBody w1 with
              | None => None
              | Some (Throw e, (_, w2)) => Some (Throw e, w2)
              | Some (Ok _, (reqBody', w2)) =>
                  if list_eqb (version msg) (lit "1.0") then Some (Ok tt, w2)
                  else
                    match discardBody f reqBody' w2 with
                    | None => None
                    | Some (Throw e, (_, w3)) => Some (Throw e, w3)
                    | Some (Ok _, (_, w3)) => serveLoop f w3
                    end
              end
          end
      end
  end.

Definition serveClient (fuel : nat) (c : TCPConn)
  : option (Result unit * World) :=
  serveLoop fuel (mkWorld c emptyBuf []).

(** [newConn]: an [HTTPError] out of [serveClient] is answered with an
    error response, whose own failure is swallowed; the socket is
    destroyed on every path. *)
Definition newConn (fuel : nat) (evs : list SockEvent) : option World :=
  match serveClient fuel (soInit evs) with
  | None => None
  | Some (Ok _, w) => Some (mkWorld (destroy (conn w)) (buf w) (got w))
  | Some (Throw (HTTPError c m), w) =>
      let res :=
        mkHTTPRes c []
          (Fresh (readerFromMemory (fromString (lit m ++ [LF])))) in
      match writeHTTPRes fuel res (readerFromMemory []) w with
      | None => None
      | Some (_, (_, w')) =>
          Some (mkWorld (destroy (conn w')) (buf w') (got w'))
      end
  | Some (Throw _, w) => Some (mkWorld (destroy (conn w)) (buf w) (got w))
  end.

(* ================================================================== *)
(** * Definitions used by the statements *)
(* ================================================================== *)

(** The buffers a connection can hold: the empty one, and what [bufPush]
    and a [bufPop] of at most [length] bytes that returns make of a
    buffer it can hold; [pushed] and [popped] count the bytes. *)
Inductive reachable : DynBuf -> Z -> Z -> Prop :=
| reach_empty : reachable emptyBuf 0 0
| reach_push b pushed popped d :
    reachable b pushed popped ->
    reachable (bufPush b d) (pushed + len d) popped
| reach_pop b pushed popped count b' :
    reachable b pushed popped ->
    0 <= count <= length b ->
    bufPop b count = (Ok tt, b') ->
    reachable b' pushed (popped + count).


(** The three operations that break the window invariant. *)
Definition thirtyBytes : Buffer := repeat 65 30.
Definition fiveBytes : Buffer := repeat 66 5.
Definition pushed30 : DynBuf := bufPush emptyBuf thirtyBytes.
Definition popped10 : DynBuf := snd (bufPop pushed30 10).
Definition pushed5 : DynBuf := bufPush popped10 fiveBytes.


(** The request of the spec's framing example: a complete head of 27
    bytes. *)
Definition getHostA : Buffer :=
  lit "GET / HTTP/1.1" ++ CRLF ++ lit "Host: a" ++ CRLF ++ CRLF.

(** A chunked request: the head, and the body [3 CRLF foo CRLF 0 CRLF
    CRLF]. *)
Definition chunkedHead : Buffer :=
  lit "POST /echo HTTP/1.1" ++ CRLF ++ lit "Host: a" ++ CRLF
    ++ lit "Transfer-Encoding:chunked" ++ CRLF ++ CRLF.
Definition chunkedBody : Buffer :=
  lit "3" ++ CRLF ++ lit "foo" ++ CRLF ++ lit "0" ++ CRLF ++ CRLF.

(** The same head with the usual space after the colon. *)
Definition chunkedHeadSpaced : Buffer :=
  lit "POST /echo HTTP/1.1" ++ CRLF ++ lit "Host: a" ++ CRLF
    ++ lit "Transfer-Encoding: chunked" ++ CRLF ++ CRLF.

(** A request that declares an empty body. *)
Definition postLengthZero : Buffer :=
  lit "POST /echo HTTP/1.1" ++ CRLF ++ lit "Content-Length: 0" ++ CRLF ++ CRLF.

(** An echo request whose 60 body bytes arrive with the head. *)
Definition post60Head : Buffer :=
  lit "POST /echo HTTP/1.1" ++ CRLF ++ lit "Content-Length: 60" ++ CRLF ++ CRLF.
Definition post60 : Buffer := post60Head ++ repeat 97 60.
Definition post60Req : HTTPReq :=
  mkHTTPReq (lit "POST") (lit "/echo") (lit "1.1") [lit "Content-Length: 60"].
(** The buffer once [cutMessage] has taken that head. *)
Definition post60Buf : DynBuf :=
  mkDynBuf (post60 ++ repeat 0 25) 60 43.

(** What a whole connection leaves on the wire: the chunks sent and
    whether the socket was destroyed. *)
Definition onTheWire (w : option World) : option (list Buffer * bool) :=
  option_map (fun w => (sent (conn w), destroyed (conn w))) w.

(** ** The request line and the header check as the specification words
    them, to be compared with [parseRequestLine] and [validateHeader] *)

(** [s] without the prefix [p], when it starts with [p]. *)
Definition afterPrefix (p s : list Z) : option (list Z) :=
  if prefixb p s then Some (skipn (List.length p) s) else None.

(** The request line of the specification: three tokens separated by
    single spaces, a method of the list, a URI checked on its bytes, and
    the version taken as all the text after [HTTP/]. *)
Definition specRequestLine (arg0 : Buffer)
  : Result (JSString * Buffer * JSString) :=
  match split SP arg0 with
  | [m; u; t] =>
      if negb (existsb (list_eqb m) kHttpMethods)
      then Throw (HTTPError 405 "Method not allowed")
      else if (len u =? 0) || includes u [SP]
              || (list_eqb m (lit "CONNECT") && negb (includes u [COLON]))
              || (list_eqb m (lit "OPTIONS") && negb (len u =? 1))
      then Throw (HTTPError 400 "Bad URI")
      else
        match afterPrefix (lit "HTTP/") t with
        | Some v =>
            if list_eqb v (lit "1.0") || list_eqb v (lit "1.1")
            then Ok (m, u, v)
            else Throw (HTTPError 505 "HTTP version not supported")
        | None => Throw (HTTPError 505 "HTTP version not supported")
        end
  | _ => Throw (HTTPError 400 "Bad request line")
  end.

(** [s] cut at its first [sep]: what is before it and all that is after
    it. *)
Fixpoint cutAtFirst (sep : Z) (s : list Z) : option (list Z * list Z) :=
  match s with
  | [] => None
  | c :: s' =>
      if c =? sep then Some ([], s')
      else match cutAtFirst sep s' with
           | Some (a, b) => Some (c :: a, b)
           | None => None
           end
  end.

(** The header check of the specification: the line contains a colon,
    the two parts around the first colon are not empty, and the key does
    not end in a space. *)
Definition specHeaderOk (h : Buffer) : bool :=
  match cutAtFirst COLON h with
  | Some (k, v) =>
      negb (len k =? 0) && negb (len v =? 0) && negb (endsWithSpace k)
  | None => false
  end.

(** The header check the code performs: the key is the text before the
    first colon, the value the text between the first colon and the
    second one (the end of the line when there is no second); both are
    non-empty and the key does not end in a space. *)
Definition headerFieldsOk (h : Buffer) : Prop :=
  In COLON h
  /\ exists k v rest,
       toString h = k ++ COLON :: v ++ rest
       /\ ~ In COLON k /\ ~ In COLON v
       /\ (rest = [] \/ exists r, rest = COLON :: r)
       /\ k <> [] /\ v <> [] /\ endsWithSpace k = false.

(** No CRLF inside a line. *)
Definition noCRLF (l : Buffer) : Prop := find_sub CRLF l = None.

(** Lines on the wire, each followed by CRLF. *)
Definition wire (ls : list Buffer) : Buffer :=
  List.concat (map (fun l => l ++ CRLF) ls).

(** A header block: the request line, the header lines and the blank
    line. *)
Definition block (line0 : Buffer) (hs : list Buffer) : Buffer :=
  wire (line0 :: hs ++ [[]]).

(** The URI checks of [validateURI], on the bytes of the URI. *)
Definition uriOk (m : JSString) (u : Buffer) : Prop :=
  u <> [] /\ ~ In SP u
  /\ (m = lit "CONNECT" -> In COLON u)
  /\ (m = lit "OPTIONS" -> len u = 1).

(** The text before the first colon of a header line, as [getField]
    compares it. *)
Definition keyOf (h : Buffer) : JSString :=
  match cutAtFirst COLON (toString h) with
  | Some (k, _) => k
  | None => toString h
  end.

(** The reader a response body is read through. *)
Definition current (ref : BodyRef) (reqBody : BodyReader) : BodyReader :=
  match ref with
  | RequestBody => reqBody
  | Fresh own => own
  end.

(** A bound on the non-empty chunks a reader can still produce. *)
Definition remaining (r : BodyReader) : nat :=
  match r with
  | FromMemory _ done => if done then 0%nat else 1%nat
  | FromConnLength _ bodyLen => Z.to_nat bodyLen
  end.

(** The remaining length of a reader over the connection is never
    negative. *)
Definition readerInv (r : BodyReader) : Prop :=
  match r with
  | FromMemory _ _ => True
  | FromConnLength _ bodyLen => 0 <= bodyLen
  end.

(** The bytes a reader can still give. *)
Definition bytesLeft (r : BodyReader) : Z :=
  match r with
  | FromMemory arg0 done => if done then 0 else len arg0
  | FromConnLength _ bodyLen => bodyLen
  end.

(** The connection fed with the events [evs] is in the state [w] when a
    round of the loop of [serveClient] starts: after [k] rounds the
    loop goes on from [w]. *)
Definition reaches (evs : list SockEvent) (w : World) : Prop :=
  exists k fuel0 : nat,
    forall fuel : nat, (fuel0 <= fuel)%nat ->
      serveClient (k + fuel) (soInit evs) = serveLoop fuel w.

(** The head of the response to a request whose body reader declares
    [n] bytes. *)
Definition okHead (n : Z) : Buffer :=
  encodeHTTPRes 200
    [fromString (lit "Server: Nazarick");
     fromString (lit "Content-Length: " ++ decimal n)].

(** Two HTTP/1.0 requests received in one chunk. *)
Definition twoRequests10 : Buffer :=
  lit "GET / HTTP/1.0" ++ CRLF ++ CRLF ++ lit "GET / HTTP/1.0" ++ CRLF ++ CRLF.
Definition get10 : HTTPReq := mkHTTPReq (lit "GET") (lit "/") (lit "1.0") [].

(* ================================================================== *)
(** * Definitions used by the further properties *)
(* ================================================================== *)

(** The window invariant of a [DynBuf]. *)
Definition windowInv (b : DynBuf) : Prop :=
  0 <= begin b /\ 0 <= length b /\ begin b + length b <= capacity b.

(** The connection after the chunks [ds] have been written to it. *)
Definition sending (c : TCPConn) (ds : list Buffer) : TCPConn :=
  mkTCPConn (events c) (ended c) (err c) (sent c ++ ds) (destroyed c).

(** The header line the writer adds for a body of [n] bytes. *)
Definition contentLength (n : Z) : Buffer :=
  fromString (lit "Content-Length: " ++ decimal n).

(** The response [newConn] writes for an [HTTPError]: its head and its
    body, the message followed by a line feed. *)
Definition errorBody (m : string) : Buffer := fromString (lit m ++ [LF]).
Definition errorResponse (c : Z) (m : string) : list Buffer :=
  [encodeHTTPRes c ([] ++ [contentLength (len (errorBody m))]); errorBody m].

(** ** A task using a connection *)

(** The two operations of the bridge, and a sequence of them awaited one
    after the other; a write that returns is recorded as the empty
    chunk. *)
Inductive ConnOp : Type :=
| DoRead
| DoWrite (d : Buffer).

Definition connOp (op : ConnOp) (c : TCPConn) : Result Buffer * TCPConn :=
  match op with
  | DoRead => soRead c
  | DoWrite d =>
      match soWrite c d with
      | (Ok _, c') => (Ok [], c')
      | (Throw e, c') => (Throw e, c')
      end
  end.

Fixpoint connOps (ops : list ConnOp) (c : TCPConn)
  : list (Result Buffer) * TCPConn :=
  match ops with
  | [] => ([], c)
  | op :: ops' =>
      let '(r, c1) := connOp op c in
      let '(rs, c2) := connOps ops' c1 in
      (r :: rs, c2)
  end.

(** ** The echo server of [echo/promise_based_api_tcp_server.ts] *)

(** The loop of its [serveClient]: read a chunk, stop at the empty one,
    write the chunk back. *)
Fixpoint echoLoop (fuel : nat) (c : TCPConn) : option (Result unit * TCPConn) :=
  match fuel with
  | O => None
  | S f =>
      match soRead c with
      | (Throw e, c') => Some (Throw e, c')
      | (Ok d, c') =>
          if len d =? 0 then Some (Ok tt, c')
          else
            match soWrite c' d with
            | (Throw e, c2) => Some (Throw e, c2)
            | (Ok _, c2) => echoLoop f c2
            end
      end
  end.

(** Its [newConn]: an exception is printed, and the socket is destroyed
    on every path. *)
Definition echoConn (fuel : nat) (evs : list SockEvent) : option TCPConn :=
  match echoLoop fuel (soInit evs) with
  | None => None
  | Some (_, c) => Some (destroy c)
  end.

(** ** The listener bridge of [echo/promise_based_api_tcp_server.ts] *)

(** [TCPListener]: whether the server socket listens, the callbacks of
    the accept that waits (a promise, named by a number), and the
    error kept. *)
Record TCPListener : Type := mkTCPListener {
  listening : bool;
  connectionHandler : option nat;
  lerr : option Exn
}.

Definition soListen : TCPListener := mkTCPListener false None None.

(** What the promise of [soAccept] is right after the call. *)
Inductive Accepting : Type :=
| Rejected (e : Exn)
| Waiting.

Definition soAccept (l : TCPListener) (promise : nat)
  : Accepting * TCPListener :=
  match lerr l with
  | Some e => (Rejected e, l)
  | None =>
      match connectionHandler l with
      | Some _ => (Rejected (Error "another accept is pending"), l)
      | None => (Waiting, mkTCPListener true (Some promise) (lerr l))
      end
  end.

(** The event [connection]: the server is closed, then the waiting
    promise is resolved with the socket and the callbacks are dropped.
    Without a waiting promise the handler fails after the close. *)
Definition onConnection (l : TCPListener) (socket : nat)
  : option (nat * nat) * TCPListener :=
  match connectionHandler l with
  | Some p => (Some (p, socket), mkTCPListener false None (lerr l))
  | None => (None, mkTCPListener false None (lerr l))
  end.

(** The event [error]: the error is kept and the waiting promise, if
    any, is rejected. *)
Definition onListenerError (l : TCPListener) (e : Exn)
  : option nat * TCPListener :=
  (connectionHandler l, mkTCPListener (listening l) None (Some e)).

(** Bytes below 128. *)
Definition isAscii (b : list Z) : Prop := Forall (fun x => 0 <= x < 128) b.

(** The status line of a response, without its CRLF. *)
Definition statusLine (c : Z) : Buffer :=
  lit "HTTP/1.1 " ++ decimal c ++ SP :: lit (getReasonFromCode c).

(** The body of the default route. *)
Definition greeting : Buffer := fromString (lit "Hello From Nazarick" ++ [LF]).

(** A request kept alive and three HTTP/1.0 requests received in one
    chunk, and the state of that connection when the round after the
    first response starts. *)
Definition keepAliveThen10 : Buffer :=
  lit "GET / HTTP/1.1" ++ CRLF ++ CRLF ++ twoRequests10
    ++ lit "GET / HTTP/1.0" ++ CRLF ++ CRLF.
Definition get11 : HTTPReq := mkHTTPReq (lit "GET") (lit "/") (lit "1.1") [].
Definition afterGet11 : World :=
  mkWorld (sending (soInit []) [okHead 20; greeting])
    (mkDynBuf (keepAliveThen10 ++ repeat 0 56) 54 18) [get11].

(* ================================================================== *)
(** * Properties of the dynamic buffer *)
(* ================================================================== *)

Section DynamicBuffer.

Lemma len_nonneg {A} (l : list A) : 0 <= len l.
Proof. unfold len. lia. Qed.

Lemma len_app {A} (l1 l2 : list A) : len (l1 ++ l2) = len l1 + len l2.
Proof. unfold len. rewrite length_app. lia. Qed.

Lemma len_repeat (x : Z) (n : nat) : len (repeat x n) = Z.of_nat n.
Proof. unfold len. now rewrite repeat_length. Qed.

Lemma len_firstn {A} (n : nat) (l : list A) :
  len (firstn n l) = Z.min (Z.of_nat n) (len l).
Proof. unfold len. rewrite length_firstn. lia. Qed.

Lemma len_skipn {A} (n : nat) (l : list A) :
  len (skipn n l) = Z.max 0 (len l - Z.of_nat n).
Proof. unfold len. rewrite length_skipn. lia. Qed.

Lemma bufPush_length b d : length (bufPush b d) = length b + len d.
Proof. reflexivity. Qed.

Lemma bufPush_begin b d : begin (bufPush b d) = begin b.
Proof. reflexivity. Qed.

Lemma bufPop_ok_length b count b' :
  bufPop b count = (Ok tt, b') -> length b' = length b - count.
Proof.
  unfold bufPop.
  destruct (len (data b) <? 2 * (begin b + count)).
  - destruct (fill0 _ _ _); intros H; inversion H; reflexivity.
  - intros H; inversion H; reflexivity.
Qed.

Lemma bufPop_ok_begin b count b' :
  0 <= begin b -> 0 <= count ->
  bufPop b count = (Ok tt, b') -> 0 <= begin b'.
Proof.
  unfold bufPop. intros Hb Hc.
  destruct (len (data b) <? 2 * (begin b + count)).
  - destruct (fill0 _ _ _); intros H; inversion H; simpl; lia.
  - intros H; inversion H; simpl; lia.
Qed.

(** The part of the invariant that every reachable buffer does keep:
    [begin] and [length] never go negative, [length] is the number of
    bytes pushed and not yet popped, and no more is popped than was
    pushed. *)
Lemma reachable_counts b pushed popped :
  reachable b pushed popped ->
  0 <= begin b /\ 0 <= length b /\ length b = pushed - popped
  /\ 0 <= popped <= pushed.
Proof.
  induction 1 as [| b pu po d _ IH | b pu po count b' _ IH Hc Hpop].
  - cbn. lia.
  - rewrite bufPush_length, bufPush_begin. pose proof (len_nonneg d). lia.
  - pose proof (bufPop_ok_length _ _ _ Hpop).
    assert (0 <= begin b') by (eapply bufPop_ok_begin; eauto; lia).
    lia.
Qed.

(** The doubling loop is given enough rounds: the capacity it returns
    holds [newLen] bytes. *)
Lemma grow_loop_enough fuel cap newLen :
  0 < cap -> newLen <= cap + Z.of_nat fuel -> newLen <= grow_loop fuel cap newLen.
Proof.
  revert cap. induction fuel as [| f IH]; intros cap Hc Hn; simpl.
  - lia.
  - destruct (cap <? newLen) eqn:E.
    + apply IH; lia.
    + apply Z.ltb_ge in E. exact E.
Qed.

Lemma grow_enough cap newLen : 0 < cap -> newLen <= grow cap newLen.
Proof. intros. apply grow_loop_enough; lia. Qed.

(** [copyWithin] keeps the size of the buffer. *)
Lemma len_copyWithin0 (b : Buffer) (s e : Z) :
  len (copyWithin0 b s e) = len b.
Proof.
  unfold copyWithin0.
  set (from := clampIndex s (len b)). set (final := clampIndex e (len b)).
  assert (Hfrom : 0 <= from <= len b).
  { unfold from, clampIndex. pose proof (len_nonneg b).
    destruct (s <? 0) eqn:E; [apply Z.ltb_lt in E | apply Z.ltb_ge in E]; lia. }
  assert (Hfinal : 0 <= final <= len b).
  { unfold final, clampIndex. pose proof (len_nonneg b).
    destruct (e <? 0) eqn:E; [apply Z.ltb_lt in E | apply Z.ltb_ge in E]; lia. }
  destruct (Z.min (final - from) (len b) <=? 0) eqn:E; [reflexivity |].
  apply Z.leb_gt in E.
  rewrite len_app, len_firstn, !len_skipn.
  rewrite !Z2Nat.id by lia. lia.
Qed.

(** X4.  When [bufPop] throws: exactly when it compacts and the old
    length added to the new [begin] passes the capacity. *)
Lemma bufPop_throws_iff (b : DynBuf) (count : Z) :
  0 <= length b -> 0 <= begin b + count ->
  (exists e, fst (bufPop b count) = Throw e)
  <-> capacity b < 2 * (begin b + count)
      /\ capacity b < length b + (begin b + count).
Proof.
  intros Hl Hb. unfold bufPop, capacity.
  destruct (len (data b) <? 2 * (begin b + count)) eqn:E.
  - apply Z.ltb_lt in E. unfold fill0. rewrite len_copyWithin0.
    destruct (length b <? 0) eqn:E1; [apply Z.ltb_lt in E1; lia |].
    destruct (length b + (begin b + count) <? 0) eqn:E2;
      [apply Z.ltb_lt in E2; lia |].
    cbn [orb].
    destruct (len (data b) <? length b + (begin b + count)) eqn:E3.
    + apply Z.ltb_lt in E3. cbn [fst]. split; [lia | eauto].
    + apply Z.ltb_ge in E3.
      destruct (length b + (begin b + count) <=? length b); cbn [fst];
        (split; [intros [e H]; discriminate | lia]).
  - apply Z.ltb_ge in E. cbn [fst].
    split; [intros [e H]; discriminate | lia].
Qed.

End DynamicBuffer.

(* ================================================================== *)
(** * The message framer without a terminator *)
(* ================================================================== *)

(** Without CRLFCRLF in the window, [cutMessage] leaves the buffer as it
    is: it asks for more data, or raises 413 once more than 8192 bytes
    are buffered. *)
Lemma cutMessage_no_terminator (b : DynBuf) :
  indexOf (window b) CRLFCRLF 0 < 0 ->
  cutMessage b =
    (if 8192 <? length b then Throw (HTTPError 413 "Header too long")
     else Ok None, b).
Proof.
  intros H. unfold cutMessage. fold (window b).
  apply Z.ltb_lt in H. rewrite H. change kMaxHeaderLen with 8192.
  destruct (8192 <? length b); reflexivity.
Qed.

(** With the terminator at offset [idx], a head that parses is returned
    once [bufPop (idx + 4)] has returned, and [length] is then reduced
    by exactly [idx + 4]. *)
Lemma cutMessage_found (b : DynBuf) (idx : Z) (msg : HTTPReq) (b' : DynBuf) :
  indexOf (window b) CRLFCRLF 0 = idx -> 0 <= idx ->
  parseHTTPReq (subarray (data b) (begin b) (idx + begin b + 4)) = Ok msg ->
  bufPop b (idx + 4) = (Ok tt, b') ->
  cutMessage b = (Ok (Some msg), b')
  /\ length b' = length b - (idx + 4).
Proof.
  intros Hidx H0 Hparse Hpop. unfold cutMessage. fold (window b).
  rewrite Hidx. apply Z.ltb_ge in H0. rewrite H0, Hparse, Hpop.
  split; [reflexivity |]. now apply bufPop_ok_length in Hpop.
Qed.

(** C2 (fails on the code).  Push 30 bytes, pop 10, push 5: every pop
    stays within the unconsumed length and returns, yet the buffer ends
    with [begin + length = 35] over a capacity of 32.  [bufPush] tests the
    free space behind [begin] but sizes the new allocation for
    [length + data.length] only, so nothing is allocated here and the
    copy of the 5 bytes is cut to the 2 that fit: the window holds 22 of
    the 25 unconsumed bytes. *)
Theorem bufPush_overruns_capacity :
  reachable pushed5 35 10
  /\ begin pushed5 = 10 /\ length pushed5 = 25 /\ capacity pushed5 = 32
  /\ capacity pushed5 < begin pushed5 + length pushed5
  /\ window pushed5 = repeat 65 20 ++ repeat 66 2.
Proof.
  split.
  - change 35 with (0 + len thirtyBytes + len fiveBytes).
    change 10 with (0 + 10).
    unfold pushed5. apply reach_push.
    apply reach_pop with (b := pushed30).
    + unfold pushed30. apply reach_push. apply reach_empty.
    + vm_compute. split; discriminate.
    + vm_compute. reflexivity.
  - vm_compute. repeat split; reflexivity.
Qed.

(** The same invariant is lost when [bufPop] compacts: [fill] is called
    with the end [length + begin] computed from the old [length] and the
    new [begin], which lies past the capacity whenever more than half of
    a full buffer is popped; Node rejects it, and the exception leaves
    [begin] advanced and [length] as it was. *)
Lemma bufPop_fill_out_of_range :
  bufPop (bufPush emptyBuf (repeat 65 27)) 27
  = (Throw (RangeError "end"),
     mkDynBuf (repeat 0 5 ++ repeat 65 22 ++ repeat 0 5) 27 27).
Proof. vm_compute. reflexivity. Qed.

(* ================================================================== *)
(** * Defects met on concrete requests *)
(* ================================================================== *)

(** C1 (fails on the code).  [readerFromChunked] decodes nothing: it
    throws a plain [Error] for every connection and buffer.  A request
    with [Transfer-Encoding:chunked] and the body [3 CRLF foo CRLF 0 CRLF
    CRLF] is parsed and announced, then [readerFromReq] throws that
    [Error]; it is no [HTTPError], so the connection is destroyed with
    nothing sent: no [foo], no end-of-body chunk and no 400 response.
    With a space after the colon [getField] returns [" chunked"], the
    comparison with ["chunked"] fails and the request ends in the other
    [Error] of [readerFromReq]. *)
Theorem readerFromChunked_is_a_stub :
  (forall c b, readerFromChunked c b = Throw (Error "Function not implemented."))
  /\ (exists req,
        parseHTTPReq chunkedHead = Ok req
        /\ forall c b,
             readerFromReq c b req = Throw (Error "Function not implemented."))
  /\ onTheWire (newConn 10 [EvData (chunkedHead ++ chunkedBody)])
     = Some ([], true)
  /\ (exists req,
        parseHTTPReq chunkedHeadSpaced = Ok req
        /\ forall c b, readerFromReq c b req = Throw (Error "Not implemented")).
Proof.
  split; [reflexivity |].
  split.
  { eexists. split; [vm_compute; reflexivity |].
    intros c b. vm_compute. reflexivity. }
  split; [vm_compute; reflexivity |].
  eexists. split; [vm_compute; reflexivity |].
  intros c b. vm_compute. reflexivity.
Qed.

(** C3 (fails on the code).  The buffer holds exactly the head
    [GET / HTTP/1.1 CRLF Host: a CRLF CRLF]: the terminator is found at
    offset 23 and the head parses, but [cutMessage] does not return the
    request.  [bufPop (23 + 4)] moves [begin] to 27, past half of the 32
    bytes, compacts, and calls [fill(0, 27, 54)] on 32 bytes; the
    [RangeError] leaves [length] at 27, so the 27 bytes are not popped. *)
Theorem cutMessage_complete_head_throws :
  window (bufPush emptyBuf getHostA) = getHostA
  /\ indexOf (window (bufPush emptyBuf getHostA)) CRLFCRLF 0 = 23
  /\ parseHTTPReq getHostA
     = Ok (mkHTTPReq (lit "GET") (lit "/") (lit "1.1") [lit "Host: a"])
  /\ fst (cutMessage (bufPush emptyBuf getHostA)) = Throw (RangeError "end")
  /\ length (snd (cutMessage (bufPush emptyBuf getHostA))) = 27
  /\ begin (snd (cutMessage (bufPush emptyBuf getHostA))) = 27
  /\ onTheWire (newConn 10 [EvData getHostA]) = Some ([], true).
Proof. vm_compute. repeat split; reflexivity. Qed.

(** [parseDec] against [parseInt]: a text without leading number is
    [NaN], a number other than zero is kept, and zero is [NaN] as well. *)
Lemma parseDec_cases (s : JSString) :
  (parseInt10 s = None -> parseDec s = None)
  /\ (forall n, parseInt10 s = Some n -> n <> 0 -> parseDec s = Some n)
  /\ (parseInt10 s = Some 0 -> parseDec s = None).
Proof.
  unfold parseDec. repeat split.
  - intros ->. reflexivity.
  - intros n -> Hn. apply Z.eqb_neq in Hn. now rewrite Hn.
  - intros ->. reflexivity.
Qed.

(** C6 (fails on the code).  [Content-Length: 0] is read as the number
    0, which [parseInt(arg0, 10) || NaN] turns into [NaN]: the request
    is refused with 400 [Bad Content-Length]. *)
Theorem content_length_zero_refused :
  parseInt10 (lit " 0") = Some 0
  /\ parseDec (lit " 0") = None
  /\ exists req,
       parseHTTPReq postLengthZero = Ok req
       /\ getField (headers req) (lit "Content-Length") = Ok (Some (lit " 0"))
       /\ forall c b,
            readerFromReq c b req = Throw (HTTPError 400 "Bad Content-Length").
Proof.
  split; [reflexivity |]. split; [reflexivity |].
  eexists. split; [vm_compute; reflexivity |].
  split; [vm_compute; reflexivity |].
  intros c b. vm_compute. reflexivity.
Qed.

(** C7 (fails on the code).  An echo request arrives with its 60 body
    bytes in one chunk of 103 bytes.  [cutMessage] takes the 43 bytes of
    the head and leaves the body buffered; the first [read()] of the
    reader finds 60 bytes buffered and 60 remaining, copies them, and
    calls [bufPop (60)]: [begin] becomes 103, past half of 128, and
    [fill(0, 60, 163)] throws.  The call neither returns the 60 bytes
    nor raises an [HTTPError]; the client receives the head of the
    response and no body. *)
Theorem read_throws_on_buffered_body :
  cutMessage (bufPush emptyBuf post60) = (Ok (Some post60Req), post60Buf)
  /\ (forall c, readerFromReq c post60Buf post60Req = Ok (readerFromConnLength 60))
  /\ (forall c g,
        fst (read (readerFromConnLength 60) (mkWorld c post60Buf g))
        = Throw (RangeError "end"))
  /\ onTheWire (newConn 10 [EvData post60])
     = Some ([lit "HTTP/1.1 200 OK" ++ CRLF ++ lit "Server: Nazarick" ++ CRLF
                ++ lit "Content-Length: 60" ++ CRLF ++ CRLF], true).
Proof.
  split; [vm_compute; reflexivity |].
  split; [intros c; vm_compute; reflexivity |].
  split; [intros c g; vm_compute; reflexivity |].
  vm_compute; reflexivity.
Qed.

(* ================================================================== *)
(** * Lists of code units: equality, search, [split] *)
(* ================================================================== *)

Section Strings.

Lemma list_eqb_eq (a b : list Z) : list_eqb a b = true <-> a = b.
Proof.
  revert b. induction a as [| x a IH]; destruct b as [| y b]; simpl;
    try (split; [discriminate | discriminate]); try tauto.
  rewrite andb_true_iff, Z.eqb_eq, IH. split.
  - intros [-> ->]. reflexivity.
  - intros H. inversion H. auto.
Qed.

Lemma list_eqb_refl (a : list Z) : list_eqb a a = true.
Proof. now apply list_eqb_eq. Qed.

Lemma list_eqb_neq (a b : list Z) : list_eqb a b = false <-> a <> b.
Proof.
  split.
  - intros H E. apply list_eqb_eq in E. congruence.
  - intros H. destruct (list_eqb a b) eqn:E; [| reflexivity].
    apply list_eqb_eq in E. contradiction.
Qed.

Lemma existsb_list_eqb (m : list Z) (ms : list (list Z)) :
  existsb (list_eqb m) ms = true <-> In m ms.
Proof.
  rewrite existsb_exists. split.
  - intros [x [Hin E]]. apply list_eqb_eq in E. now subst.
  - intros H. exists m. split; [assumption | apply list_eqb_refl].
Qed.

(** Searching for a single byte. *)
Lemma find_sub_single_none (c : Z) (l : list Z) :
  find_sub [c] l = None <-> ~ In c l.
Proof.
  induction l as [| x l IH]; simpl.
  - tauto.
  - destruct (c =? x) eqn:E; simpl.
    + apply Z.eqb_eq in E. split; [discriminate | intros H; exfalso; auto].
    + apply Z.eqb_neq in E. destruct (find_sub [c] l); simpl in *.
      * split; [discriminate |]. intros H. exfalso.
        assert (Hn : ~ In c l) by tauto. apply IH in Hn. discriminate.
      * split; [| reflexivity]. intros _ [H | H]; [congruence |].
        destruct IH as [IH _]. now apply IH.
Qed.

Lemma includes_single (c : Z) (l : list Z) :
  includes l [c] = true <-> In c l.
Proof.
  unfold includes. pose proof (find_sub_single_none c l) as H.
  destruct (find_sub [c] l).
  - split; [| reflexivity]. intros _.
    destruct (in_dec Z.eq_dec c l) as [Hi | Hn]; [assumption |].
    apply H in Hn. discriminate.
  - split; [discriminate |]. intros Hi. exfalso.
    destruct H as [H _]. now apply H.
Qed.

Lemma includes_single_false (c : Z) (l : list Z) :
  includes l [c] = false <-> ~ In c l.
Proof.
  rewrite <- includes_single. destruct (includes l [c]); split; intros;
    congruence.
Qed.

(** [split]. *)
Lemma split_no_sep (sep : Z) (s : list Z) :
  ~ In sep s -> split sep s = [s].
Proof.
  induction s as [| c s IH]; simpl; intros H; [reflexivity |].
  destruct (c =? sep) eqn:E.
  - apply Z.eqb_eq in E. exfalso. auto.
  - rewrite IH by tauto. reflexivity.
Qed.

Lemma split_app (sep : Z) (a b : list Z) :
  ~ In sep a -> split sep (a ++ sep :: b) = a :: split sep b.
Proof.
  induction a as [| c a IH]; simpl; intros H.
  - now rewrite Z.eqb_refl.
  - destruct (c =? sep) eqn:E.
    + apply Z.eqb_eq in E. exfalso. auto.
    + rewrite IH by tauto. reflexivity.
Qed.

Lemma split_length (sep : Z) (s : list Z) :
  List.length (split sep s) = S (count_occ Z.eq_dec s sep).
Proof.
  induction s as [| c s IH]; simpl; [reflexivity |].
  destruct (c =? sep) eqn:E.
  - apply Z.eqb_eq in E. destruct (Z.eq_dec c sep); [| contradiction].
    simpl. now rewrite IH.
  - apply Z.eqb_neq in E. destruct (Z.eq_dec c sep); [contradiction |].
    destruct (split sep s); simpl in *; [discriminate | assumption].
Qed.

(** A line made of three tokens. *)
Lemma split_three (m u t : list Z) :
  ~ In SP m -> ~ In SP u -> ~ In SP t ->
  split SP (m ++ SP :: u ++ SP :: t) = [m; u; t].
Proof.
  intros Hm Hu Ht.
  rewrite split_app by assumption.
  rewrite split_app by assumption.
  now rewrite split_no_sep.
Qed.

(** The second piece of a split: the text between the first separator
    and the next one. *)
Lemma split_second (sep : Z) (p v rest : list Z) :
  ~ In sep p -> ~ In sep v ->
  rest = [] \/ (exists r, rest = sep :: r) ->
  nth_error (split sep (p ++ sep :: v ++ rest)) 1 = Some v.
Proof.
  intros Hp Hv Hrest.
  rewrite split_app by assumption.
  destruct Hrest as [-> | [r ->]].
  - rewrite app_nil_r, split_no_sep by assumption. reflexivity.
  - rewrite split_app by assumption. reflexivity.
Qed.

Lemma split_first (sep : Z) (p rest : list Z) :
  ~ In sep p -> nth 0 (split sep (p ++ sep :: rest)) [] = p.
Proof. intros Hp. now rewrite split_app. Qed.

(** UTF-8 encoding writes a byte below 128 only for a code unit below
    128, the same one. *)
Lemma fromString_low_bytes (n : nat) :
  forall s, (List.length s <= n)%nat ->
  forall b, In b (fromString s) -> b < 128 -> In b s.
Proof.
  induction n as [| n IH]; intros s Hs b Hin Hb.
  - destruct s; [contradiction | simpl in Hs; lia].
  - destruct s as [| u rest]; [contradiction |].
    simpl in Hs. cbn [fromString] in Hin.
    assert (Hrest : In b (fromString rest) -> In b (u :: rest))
      by (intros H; right; apply IH; [lia | assumption | assumption]).
    assert (Hrep : In b (encode3 REPLACEMENT) -> False).
    { intros [<- | [<- | [<- | []]]]; cbv in Hb; discriminate. }
    destruct (u <? 128) eqn:E1.
    { destruct Hin as [-> | Hin]; [now left | auto]. }
    apply Z.ltb_ge in E1.
    destruct (u <? 2048) eqn:E2.
    { cbn [app In] in Hin. destruct Hin as [<- | [<- | Hin]]; auto;
        exfalso; Z.div_mod_to_equations; lia. }
    apply Z.ltb_ge in E2.
    destruct (isHighSurrogate u) eqn:E3.
    { destruct rest as [| lo rest'].
      - exfalso. auto.
      - destruct (isLowSurrogate lo) eqn:E4.
        + apply in_app_or in Hin. destruct Hin as [Hin | Hin].
          * exfalso. unfold isHighSurrogate in E3. unfold isLowSurrogate in E4.
            apply andb_true_iff in E3. apply andb_true_iff in E4.
            destruct E3 as [E3 _]. destruct E4 as [E4 _].
            apply Z.leb_le in E3. apply Z.leb_le in E4.
            unfold encode4 in Hin. cbn [In] in Hin.
            destruct Hin as [<- | [<- | [<- | [<- | []]]]];
              Z.div_mod_to_equations; lia.
          * right. right. apply IH; [simpl in Hs; lia | assumption | assumption].
        + apply in_app_or in Hin. destruct Hin as [Hin | Hin];
            [exfalso; auto | auto]. }
    destruct (isLowSurrogate u) eqn:E4.
    { apply in_app_or in Hin. destruct Hin as [Hin | Hin];
        [exfalso; auto | auto]. }
    apply in_app_or in Hin. destruct Hin as [Hin | Hin]; [| auto].
    exfalso. unfold encode3 in Hin. cbn [In] in Hin.
    destruct Hin as [<- | [<- | [<- | []]]]; Z.div_mod_to_equations; lia.
Qed.

Lemma fromString_no_space (u : JSString) :
  ~ In SP u -> ~ In SP (fromString u).
Proof.
  intros H Hin. apply H.
  apply (fromString_low_bytes (List.length u)); [lia | assumption |].
  reflexivity.
Qed.

Lemma fromString_nil_iff (u : JSString) : fromString u = [] <-> u = [].
Proof.
  split; [| intros ->; reflexivity].
  destruct u as [| c rest]; [reflexivity |]. cbn [fromString].
  unfold encode3, encode4.
  destruct (c <? 128); [discriminate |].
  destruct (c <? 2048); [discriminate |].
  destruct (isHighSurrogate c).
  - destruct rest as [| lo rest']; [discriminate |].
    destruct (isLowSurrogate lo); discriminate.
  - destruct (isLowSurrogate c); discriminate.
Qed.

Lemma toString_ascii (b : list Z) : isAscii b -> toString b = b.
Proof.
  unfold toString. induction 1 as [| x b Hx Hb IH]; [reflexivity |].
  cbn [decodeFrom]. unfold classify.
  assert (E : (0 <=? x) && (x <=? 127) = true).
  { apply andb_true_iff. split; apply Z.leb_le; lia. }
  rewrite E. now rewrite IH.
Qed.

Lemma fromString_ascii (b : list Z) : isAscii b -> fromString b = b.
Proof.
  induction 1 as [| x b Hx Hb IH]; [reflexivity |].
  cbn [fromString].
  assert (L : (x <? 128) = true) by (apply Z.ltb_lt; lia).
  rewrite L. now rewrite IH.
Qed.

End Strings.

(* ================================================================== *)
(** * The request line *)
(* ================================================================== *)

Section RequestLine.

Lemma len_zero_iff {A} (l : list A) : len l = 0 <-> l = [].
Proof.
  unfold len. destruct l; simpl; split; intros H; try reflexivity;
    try discriminate; lia.
Qed.

Lemma validateURI_true (m : JSString) (u : Buffer) :
  validateURI u m = true <-> uriOk m u.
Proof.
  unfold validateURI, uriOk.
  destruct (len u =? 0) eqn:E0; simpl.
  { apply Z.eqb_eq, len_zero_iff in E0. split; [discriminate | tauto]. }
  apply Z.eqb_neq in E0. rewrite len_zero_iff in E0.
  destruct (includes u [SP]) eqn:E1.
  { apply includes_single in E1. split; [discriminate | tauto]. }
  apply includes_single_false in E1.
  destruct (list_eqb m (lit "CONNECT")) eqn:E2; simpl.
  - apply list_eqb_eq in E2.
    destruct (includes u [COLON]) eqn:E3; simpl.
    + apply includes_single in E3.
      destruct (list_eqb m (lit "OPTIONS")) eqn:E4.
      * apply list_eqb_eq in E4. rewrite E2 in E4. discriminate.
      * apply list_eqb_neq in E4. simpl. split; [| reflexivity].
        intros _. repeat split; tauto.
    + apply includes_single_false in E3. split; [discriminate |].
      intros (_ & _ & H & _). exfalso. auto.
  - apply list_eqb_neq in E2.
    destruct (list_eqb m (lit "OPTIONS")) eqn:E4; simpl.
    + apply list_eqb_eq in E4.
      destruct (len u =? 1) eqn:E5; simpl.
      * apply Z.eqb_eq in E5. split; [| reflexivity].
        intros _. repeat split; tauto.
      * apply Z.eqb_neq in E5. split; [discriminate |].
        intros (_ & _ & _ & H). exfalso. auto.
    + apply list_eqb_neq in E4. split; [| reflexivity].
      intros _. repeat split; tauto.
Qed.

(** [parseRequestLine] on a line of three tokens. *)
Lemma parseRequestLine_tokens (arg0 : Buffer) (m u t : JSString) :
  toString arg0 = m ++ SP :: u ++ SP :: t ->
  ~ In SP m -> ~ In SP u -> ~ In SP t ->
  parseRequestLine arg0 =
    if negb (existsb (list_eqb m) kHttpMethods)
    then Throw (HTTPError 405 "Method not allowed")
    else if negb (validateURI (fromString u) m)
    then Throw (HTTPError 400 "Bad URI")
    else match nth_error (split SLASH t) 1 with
         | Some v =>
             if negb (list_eqb v (lit "1.0")) && negb (list_eqb v (lit "1.1"))
             then Throw (HTTPError 505 "HTTP version not supported")
             else Ok (m, fromString u, v)
         | None => Throw (HTTPError 505 "HTTP version not supported")
         end.
Proof.
  intros E Hm Hu Ht. unfold parseRequestLine.
  rewrite E, split_three by assumption. reflexivity.
Qed.

Lemma parseRequestLine_token_count (arg0 : Buffer) :
  count_occ Z.eq_dec (toString arg0) SP <> 2%nat ->
  parseRequestLine arg0 = Throw (HTTPError 400 "Bad request line").
Proof.
  intros H. unfold parseRequestLine.
  assert (E : (len (split SP (toString arg0)) =? 3) = false).
  { apply Z.eqb_neq. unfold len. rewrite split_length. lia. }
  now rewrite E.
Qed.

Lemma not_in_by_search (c : Z) (l : list Z) :
  existsb (Z.eqb c) l = false -> ~ In c l.
Proof.
  intros H Hin.
  assert (E : existsb (Z.eqb c) l = true)
    by (apply existsb_exists; exists c; split; [assumption | apply Z.eqb_refl]).
  congruence.
Qed.

End RequestLine.

(** C4 (as amended).  On a request line of ASCII bytes the token count,
    the method and the URI are checked as the claim says, in that
    order (a URI with a space in it makes a fourth token, which the
    count refuses).  The version is the text of the third token between
    its first slash and its next one (or the end): that text must be
    [1.0] or [1.1], whatever precedes the first slash, and a third
    token without a slash is refused with 505.  What is returned is the
    method, the URI and that version. *)
Theorem parseRequestLine_cases (arg0 : Buffer) :
  isAscii arg0 ->
  (count_occ Z.eq_dec arg0 SP <> 2%nat ->
   parseRequestLine arg0 = Throw (HTTPError 400 "Bad request line"))
  /\ forall m u t : Buffer,
       arg0 = m ++ SP :: u ++ SP :: t ->
       ~ In SP m -> ~ In SP u -> ~ In SP t ->
       (~ In m kHttpMethods ->
        parseRequestLine arg0 = Throw (HTTPError 405 "Method not allowed"))
       /\ (In m kHttpMethods ->
           u = []
           \/ (m = lit "CONNECT" /\ ~ In COLON u)
           \/ (m = lit "OPTIONS" /\ len u <> 1) ->
           parseRequestLine arg0 = Throw (HTTPError 400 "Bad URI"))
       /\ (In m kHttpMethods ->
           u <> [] ->
           (m = lit "CONNECT" -> In COLON u) ->
           (m = lit "OPTIONS" -> len u = 1) ->
           (~ In SLASH t ->
            parseRequestLine arg0
            = Throw (HTTPError 505 "HTTP version not supported"))
           /\ forall p v rest : JSString,
                t = p ++ SLASH :: v ++ rest ->
                ~ In SLASH p -> ~ In SLASH v ->
                rest = [] \/ (exists r, rest = SLASH :: r) ->
                (v = lit "1.0" \/ v = lit "1.1" ->
                 parseRequestLine arg0 = Ok (m, u, v))
                /\ (v <> lit "1.0" -> v <> lit "1.1" ->
                    parseRequestLine arg0
                    = Throw (HTTPError 505 "HTTP version not supported"))).
Proof.
  intros A. pose proof (toString_ascii arg0 A) as D.
  split.
  { intros H. apply parseRequestLine_token_count. now rewrite D. }
  intros m u t E Hm Hu Ht.
  assert (Au : isAscii u).
  { unfold isAscii in A. rewrite E in A.
    apply Forall_app in A. destruct A as [_ A].
    apply Forall_inv_tail in A. apply Forall_app in A. tauto. }
  assert (Fu : fromString u = u) by now apply fromString_ascii.
  rewrite (parseRequestLine_tokens arg0 m u t) by (assumption || congruence).
  rewrite Fu.
  split; [| split].
  - intros Hin.
    destruct (existsb (list_eqb m) kHttpMethods) eqn:Em; [| reflexivity].
    apply existsb_list_eqb in Em. contradiction.
  - intros Hin Hbad. apply existsb_list_eqb in Hin. rewrite Hin. cbn [negb].
    destruct (validateURI u m) eqn:Ev; [| reflexivity].
    apply validateURI_true in Ev. destruct Ev as (H1 & _ & H3 & H4).
    exfalso. destruct Hbad as [H | [[Hc H] | [Ho H]]]; auto.
  - intros Hin H1 H3 H4. apply existsb_list_eqb in Hin. rewrite Hin. cbn [negb].
    assert (Ev : validateURI u m = true).
    { apply validateURI_true. repeat split; auto. }
    rewrite Ev. cbn [negb]. split.
    + intros Hs. now rewrite split_no_sep.
    + intros p v rest -> Hp Hv Hrest.
      rewrite (split_second _ _ _ _ Hp Hv Hrest). split.
      * intros [-> | ->]; reflexivity.
      * intros N0 N1. apply list_eqb_neq in N0, N1. now rewrite N0, N1.
Qed.

(** At [GET / HTTP/1.1/x] the third token reads [HTTP/] then [1.1/x]:
    the version parsed is [1.1]. *)
Lemma parseRequestLine_cases_witness :
  parseRequestLine (lit "GET / HTTP/1.1/x") = Ok (lit "GET", lit "/", lit "1.1").
Proof.
  refine (proj1 (proj2 (proj2 (proj2 (proj2
            (parseRequestLine_cases (lit "GET / HTTP/1.1/x") _)
            (lit "GET") (lit "/") (lit "HTTP/1.1/x") _ _ _ _)) _ _ _ _)
            (lit "HTTP") (lit "1.1") (lit "/x") _ _ _ _) _).
  - apply Forall_forall. intros x Hx. cbn in Hx. lia.
  - reflexivity.
  - apply not_in_by_search. reflexivity.
  - apply not_in_by_search. reflexivity.
  - apply not_in_by_search. reflexivity.
  - simpl. tauto.
  - discriminate.
  - discriminate.
  - discriminate.
  - reflexivity.
  - apply not_in_by_search. reflexivity.
  - apply not_in_by_search. reflexivity.
  - right. exists (lit "x"). reflexivity.
  - right. reflexivity.
Defined.

(** C4 (as stated) fails at [GET / HTTP/1.1/x]: the text after [HTTP/]
    is [1.1/x], neither [1.0] nor [1.1], so the claim asks for 505; the
    code returns the request with version [1.1].  It also fails outside
    ASCII: the code decodes the line as UTF-8 and encodes the URI
    again, so the URI [/] followed by the byte 255 comes back as [/]
    followed by the three bytes of U+FFFD, where the claim returns the
    URI of the line. *)
Lemma parseRequestLine_version_counterexample :
  (afterPrefix (lit "HTTP/") (lit "HTTP/1.1/x") = Some (lit "1.1/x")
   /\ specRequestLine (lit "GET / HTTP/1.1/x")
      = Throw (HTTPError 505 "HTTP version not supported")
   /\ parseRequestLine (lit "GET / HTTP/1.1/x")
      = Ok (lit "GET", lit "/", lit "1.1"))
  /\ (specRequestLine (lit "GET /" ++ 255 :: lit " HTTP/1.1")
      = Ok (lit "GET", [SLASH; 255], lit "1.1")
      /\ parseRequestLine (lit "GET /" ++ 255 :: lit " HTTP/1.1")
         = Ok (lit "GET", [SLASH; 239; 191; 189], lit "1.1")).
Proof. vm_compute. repeat split; reflexivity. Qed.

(** C10.  On a request line whose method and URI pass, the version
    check reads the third token from its first slash on: whatever the
    prefix [p] before that slash, the token [p/1.0] or [p/1.1] is
    accepted with that version, and a token without a slash is refused
    with 505. *)
Theorem version_check_ignores_prefix (arg0 : Buffer) (m u t : JSString) :
  toString arg0 = m ++ SP :: u ++ SP :: t ->
  ~ In SP m -> ~ In SP u -> ~ In SP t ->
  In m kHttpMethods -> uriOk m (fromString u) ->
  (forall p v : JSString,
     t = p ++ SLASH :: v -> ~ In SLASH p ->
     v = lit "1.0" \/ v = lit "1.1" ->
     parseRequestLine arg0 = Ok (m, fromString u, v))
  /\ (~ In SLASH t ->
      parseRequestLine arg0
      = Throw (HTTPError 505 "HTTP version not supported")).
Proof.
  intros E Hm Hu Ht Hin Huri.
  rewrite (parseRequestLine_tokens _ _ _ _ E Hm Hu Ht).
  apply existsb_list_eqb in Hin. rewrite Hin.
  apply validateURI_true in Huri. rewrite Huri. cbn [negb]. split.
  - intros p v -> Hp Hv.
    assert (Hnv : ~ In SLASH v)
      by (destruct Hv as [-> | ->]; apply not_in_by_search; reflexivity).
    replace (p ++ SLASH :: v) with (p ++ SLASH :: v ++ [])
      by now rewrite app_nil_r.
    rewrite (split_second _ _ _ [] Hp Hnv) by now left.
    destruct Hv as [-> | ->]; reflexivity.
  - intros Hs. now rewrite split_no_sep.
Qed.

(** [GET / FOO/1.1] is accepted as version 1.1, [GET / HTTP1.1] is
    refused. *)
Lemma version_check_ignores_prefix_witness :
  parseRequestLine (lit "GET / FOO/1.1") = Ok (lit "GET", lit "/", lit "1.1").
Proof.
  refine (proj1 (version_check_ignores_prefix (lit "GET / FOO/1.1")
                   (lit "GET") (lit "/") (lit "FOO/1.1") _ _ _ _ _ _)
                (lit "FOO") (lit "1.1") _ _ _).
  - reflexivity.
  - apply not_in_by_search. reflexivity.
  - apply not_in_by_search. reflexivity.
  - apply not_in_by_search. reflexivity.
  - simpl. tauto.
  - repeat split; try discriminate. apply not_in_by_search. reflexivity.
  - reflexivity.
  - apply not_in_by_search. reflexivity.
  - right. reflexivity.
Defined.

(* ================================================================== *)
(** * Header lines *)
(* ================================================================== *)

Section HeaderLines.

(** A string that contains the separator splits at its first one. *)
Lemma first_separator (sep : Z) (s : list Z) :
  In sep s -> exists k r, s = k ++ sep :: r /\ ~ In sep k.
Proof.
  induction s as [| c s IH]; [contradiction |].
  intros Hin. destruct (Z.eq_dec c sep) as [-> | Hne].
  - exists [], s. split; [reflexivity | auto].
  - destruct Hin as [E | Hin]; [contradiction |].
    destruct (IH Hin) as (k & r & -> & Hk).
    exists (c :: k), r. split; [reflexivity |].
    intros [E | H]; [congruence | contradiction].
Qed.

Lemma splitLimit_two (k v rest : list Z) :
  ~ In COLON k -> ~ In COLON v ->
  rest = [] \/ (exists r, rest = COLON :: r) ->
  splitLimit COLON 2 (k ++ COLON :: v ++ rest) = [k; v].
Proof.
  intros Hk Hv Hrest. unfold splitLimit. rewrite split_app by assumption.
  destruct Hrest as [-> | [r ->]].
  - now rewrite app_nil_r, split_no_sep.
  - now rewrite split_app.
Qed.

Lemma validateHeader_iff (h : Buffer) :
  validateHeader h = true <-> headerFieldsOk h.
Proof.
  unfold validateHeader, headerFieldsOk. split.
  - destruct (len h =? 0) eqn:E0; [discriminate |]. simpl.
    destruct (includes h [COLON]) eqn:E1; [| discriminate]. simpl.
    apply includes_single in E1. intros H. split; [assumption |].
    destruct (in_dec Z.eq_dec COLON (toString h)) as [Hin | Hnot].
    + destruct (first_separator _ _ Hin) as (k & r & Es & Hk).
      assert (Hv : exists v rest, r = v ++ rest /\ ~ In COLON v
                     /\ (rest = [] \/ exists r', rest = COLON :: r')).
      { destruct (in_dec Z.eq_dec COLON r) as [Hr | Hr].
        - destruct (first_separator _ _ Hr) as (v & r' & -> & Hv').
          exists v, (COLON :: r'). eauto.
        - exists r, []. rewrite app_nil_r. auto. }
      destruct Hv as (v & rest & -> & Hv & Hrest).
      exists k, v, rest. rewrite Es in H.
      rewrite (splitLimit_two _ _ _ Hk Hv Hrest) in H. cbn [nth] in H.
      change (len [k; v] =? 2) with true in H. cbn [negb orb] in H.
      destruct (len k =? 0) eqn:Ek; [discriminate |].
      destruct (len v =? 0) eqn:Ev; [discriminate |].
      destruct (endsWithSpace k) eqn:Ee; [discriminate |].
      apply Z.eqb_neq in Ek, Ev. rewrite len_zero_iff in Ek, Ev.
      repeat split; assumption.
    + exfalso. unfold splitLimit in H.
      rewrite split_no_sep in H by assumption. discriminate.
  - intros (Hc & k & v & rest & Es & Hk & Hv & Hrest & Nk & Nv & Ee).
    assert (E0 : (len h =? 0) = false).
    { apply Z.eqb_neq. rewrite len_zero_iff. intros ->. contradiction. }
    apply includes_single in Hc. rewrite E0, Hc, Es.
    rewrite (splitLimit_two _ _ _ Hk Hv Hrest). cbn [nth].
    change (len [k; v] =? 2) with true. rewrite Ee.
    rewrite <- len_zero_iff in Nk, Nv. apply Z.eqb_neq in Nk, Nv.
    now rewrite Nk, Nv.
Qed.

Lemma collectHeaders_forallb (hs : list Buffer) :
  collectHeaders hs =
    if forallb validateHeader hs then Ok hs
    else Throw (HTTPError 400 "Bad header").
Proof.
  induction hs as [| h hs IH]; [reflexivity |]. simpl.
  destruct (validateHeader h); simpl; [| reflexivity].
  rewrite IH. destruct (forallb validateHeader hs); reflexivity.
Qed.

(** ** [splitlines] on a block of CRLF-terminated lines *)

Lemma wire_cons (l : Buffer) (ls : list Buffer) :
  wire (l :: ls) = l ++ CR :: LF :: wire ls.
Proof. unfold wire. simpl. now rewrite <- app_assoc. Qed.

Lemma wire_length (ls : list Buffer) :
  (2 * List.length ls <= List.length (wire ls))%nat.
Proof.
  induction ls as [| l ls IH]; [simpl; lia |].
  rewrite wire_cons, length_app. simpl. lia.
Qed.

Lemma prefixb_CRLF_false (x : Z) (l tail : list Z) :
  prefixb CRLF (x :: l) = false ->
  prefixb CRLF (x :: l ++ CR :: LF :: tail) = false.
Proof.
  unfold CRLF. cbn [prefixb]. destruct (CR =? x); [| reflexivity].
  cbn [andb]. destruct l as [| y l]; [reflexivity |].
  cbn [app prefixb]. destruct (LF =? y); [discriminate | reflexivity].
Qed.

Lemma find_sub_CRLF_app (l tail : list Z) :
  noCRLF l -> find_sub CRLF (l ++ CR :: LF :: tail) = Some (List.length l).
Proof.
  unfold noCRLF. induction l as [| x l IH]; intros H.
  - reflexivity.
  - cbn [find_sub] in H. destruct (prefixb CRLF (x :: l)) eqn:E; [discriminate |].
    destruct (find_sub CRLF l) eqn:F; [discriminate |].
    change ((x :: l) ++ CR :: LF :: tail) with (x :: l ++ CR :: LF :: tail).
    cbn [find_sub]. rewrite (prefixb_CRLF_false _ _ _ E).
    rewrite IH by reflexivity. reflexivity.
Qed.

Lemma skipn_len_app (pre x : list Z) :
  skipn (Z.to_nat (len pre)) (pre ++ x) = x.
Proof.
  unfold len. rewrite Nat2Z.id. rewrite skipn_app, skipn_all, Nat.sub_diag.
  reflexivity.
Qed.

Lemma indexOf_CRLF (pre l tail : list Z) :
  noCRLF l ->
  indexOf (pre ++ l ++ CR :: LF :: tail) CRLF (len pre) = len pre + len l.
Proof.
  intros H. unfold indexOf. rewrite skipn_len_app, find_sub_CRLF_app by assumption.
  pose proof (len_nonneg pre). unfold len in *. lia.
Qed.

Lemma subarray_middle (pre l rest : list Z) :
  subarray (pre ++ l ++ rest) (len pre) (len pre + len l) = l.
Proof.
  unfold subarray, clampIndex.
  pose proof (len_nonneg pre). pose proof (len_nonneg l).
  pose proof (len_nonneg rest).
  rewrite !len_app.
  destruct (len pre <? 0) eqn:E1; [apply Z.ltb_lt in E1; lia |].
  destruct (len pre + len l <? 0) eqn:E2; [apply Z.ltb_lt in E2; lia |].
  rewrite (Z.min_l (len pre)) by lia.
  rewrite (Z.min_l (len pre + len l)) by lia.
  rewrite skipn_len_app.
  replace (Z.to_nat (len pre + len l - len pre)) with (List.length l)
    by (unfold len; lia).
  rewrite firstn_app, firstn_all, Nat.sub_diag. simpl. apply app_nil_r.
Qed.

Lemma splitlines_loop_wire (ls : list Buffer) :
  forall (pre : Buffer) (acc : list Buffer) (fuel : nat),
    Forall noCRLF ls ->
    (pre = [] -> forall l ls', ls = l :: ls' -> l <> []) ->
    (List.length ls < fuel)%nat ->
    splitlines_loop fuel (pre ++ wire ls) (len pre) acc = acc ++ ls.
Proof.
  induction ls as [| l ls IH]; intros pre acc fuel Hall Hfirst Hfuel.
  - destruct fuel as [| f]; [simpl in Hfuel; lia |].
    cbn [splitlines_loop]. unfold wire. simpl. rewrite !app_nil_r.
    now rewrite Z.ltb_irrefl.
  - destruct fuel as [| f]; [simpl in Hfuel; lia |].
    inversion Hall as [| ? ? Hl Hls]; subst.
    rewrite wire_cons. cbn [splitlines_loop].
    pose proof (len_nonneg pre) as Hp. pose proof (len_nonneg l) as Hll.
    assert (Elt : (len pre <? len (pre ++ l ++ CR :: LF :: wire ls)) = true).
    { apply Z.ltb_lt. rewrite !len_app.
      pose proof (len_nonneg (wire ls)).
      change (len (CR :: LF :: wire ls)) with (Z.of_nat (S (S (List.length (wire ls))))).
      unfold len in *. lia. }
    rewrite Elt, (indexOf_CRLF _ _ _ Hl).
    assert (E0 : (len pre + len l <? 0) = false) by (apply Z.ltb_ge; lia).
    rewrite E0.
    assert (E1 : (len pre + len l =? 0) = false).
    { apply Z.eqb_neq. intros Hz.
      assert (len pre = 0) by lia. assert (len l = 0) by lia.
      apply len_zero_iff in H, H0. subst.
      now apply (Hfirst eq_refl [] ls). }
    rewrite E1, subarray_middle.
    replace (pre ++ l ++ CR :: LF :: wire ls)
      with ((pre ++ l ++ CRLF) ++ wire ls)
      by (unfold CRLF; now rewrite <- !app_assoc).
    replace (len pre + len l + 2) with (len (pre ++ l ++ CRLF))
      by (rewrite !len_app; change (len CRLF) with 2; lia).
    rewrite IH.
    + now rewrite <- app_assoc.
    + assumption.
    + intros Hnil. exfalso. destruct pre; destruct l; discriminate.
    + simpl in Hfuel. lia.
Qed.

Lemma splitlines_block (line0 : Buffer) (hs : list Buffer) :
  line0 <> [] -> noCRLF line0 -> Forall noCRLF hs ->
  splitlines (block line0 hs) = line0 :: hs ++ [[]].
Proof.
  intros Hne H0 Hhs. unfold splitlines, block.
  change (splitlines_loop (S (List.length (wire (line0 :: hs ++ [[]]))))
            (wire (line0 :: hs ++ [[]])) 0 [])
    with (splitlines_loop (S (List.length (wire (line0 :: hs ++ [[]]))))
            ([] ++ wire (line0 :: hs ++ [[]])) (len (@nil Z)) []).
  rewrite splitlines_loop_wire.
  - reflexivity.
  - constructor; [assumption |]. apply Forall_app. split; [assumption |].
    constructor; [reflexivity | constructor].
  - intros _ l ls' E. inversion E. now subst.
  - pose proof (wire_length (line0 :: hs ++ [[]])). simpl in *. lia.
Qed.

Lemma parseHTTPReq_block (line0 : Buffer) (hs : list Buffer) :
  line0 <> [] -> noCRLF line0 -> Forall noCRLF hs ->
  parseHTTPReq (block line0 hs) =
    match parseRequestLine line0 with
    | Throw e => Throw e
    | Ok (m, u, v) =>
        if forallb validateHeader hs then Ok (mkHTTPReq m u v hs)
        else Throw (HTTPError 400 "Bad header")
    end.
Proof.
  intros Hne H0 Hhs. unfold parseHTTPReq.
  rewrite (splitlines_block _ _ Hne H0 Hhs).
  unfold headerLines. cbn [tl]. rewrite removelast_last.
  destruct (parseRequestLine line0) as [[[m u] v] | e]; [| reflexivity].
  unfold rbind. rewrite collectHeaders_forallb.
  destruct (forallb validateHeader hs); reflexivity.
Qed.

(** The first piece of a split is the text before the first separator. *)
Lemma split_head_cut (sep : Z) (s : list Z) :
  nth 0 (split sep s) [] =
    match cutAtFirst sep s with
    | Some (k, _) => k
    | None => s
    end.
Proof.
  induction s as [| c s IH]; [reflexivity |]. simpl.
  destruct (c =? sep); [reflexivity |].
  destruct (split sep s) as [| w ws] eqn:E.
  - pose proof (split_length sep s) as L. rewrite E in L. discriminate.
  - simpl in IH. simpl. rewrite IH.
    destruct (cutAtFirst sep s) as [[a b] |]; reflexivity.
Qed.

(** The fuel of [splitlines] is enough for every buffer: the loop has
    ended before it is used up, so more of it changes nothing. *)
Lemma indexOf_from (d pat : list Z) (from : Z) :
  0 <= from -> 0 <= indexOf d pat from -> from <= indexOf d pat from.
Proof.
  unfold indexOf. destruct (find_sub pat _); lia.
Qed.

Lemma splitlines_loop_fuel (f1 : nat) :
  forall (f2 : nat) (d : Buffer) (b : Z) (acc : list Buffer),
    0 <= b ->
    len d - b < 2 * Z.of_nat f1 -> len d - b < 2 * Z.of_nat f2 ->
    splitlines_loop f1 d b acc = splitlines_loop f2 d b acc.
Proof.
  induction f1 as [| f1 IH]; intros f2 d b acc Hb H1 H2.
  - destruct f2 as [| f2]; [reflexivity |]. cbn [splitlines_loop].
    destruct (b <? len d) eqn:E; [apply Z.ltb_lt in E; lia | reflexivity].
  - destruct f2 as [| f2].
    + cbn [splitlines_loop].
      destruct (b <? len d) eqn:E; [apply Z.ltb_lt in E; lia | reflexivity].
    + cbn [splitlines_loop].
      destruct (b <? len d) eqn:E; [| reflexivity].
      destruct (indexOf d CRLF b <? 0) eqn:E2; [reflexivity |].
      apply Z.ltb_ge in E2. pose proof (indexOf_from d CRLF b Hb E2).
      apply IH; lia.
Qed.

Lemma splitlines_more_fuel (d : Buffer) (extra : nat) :
  splitlines_loop (S (List.length d) + extra) d 0 [] = splitlines d.
Proof.
  unfold splitlines. apply splitlines_loop_fuel; unfold len; lia.
Qed.

End HeaderLines.

(** C5 (as amended).  In a header block whose request line parses,
    [Bad header] is raised exactly when some header line fails this
    check: it contains a colon, the key before the first colon and the
    value between the first colon and the second (or the end of the
    line) are non-empty, and the key does not end in a space.  When all
    lines pass, they are the headers of the request, in their order. *)
Theorem parseHTTPReq_headers
    (line0 : Buffer) (hs : list Buffer) (m : JSString) (u : Buffer)
    (v : JSString) :
  line0 <> [] -> noCRLF line0 -> Forall noCRLF hs ->
  parseRequestLine line0 = Ok (m, u, v) ->
  (parseHTTPReq (block line0 hs) = Throw (HTTPError 400 "Bad header")
   <-> exists h, In h hs /\ ~ headerFieldsOk h)
  /\ ((forall h, In h hs -> headerFieldsOk h) ->
      parseHTTPReq (block line0 hs) = Ok (mkHTTPReq m u v hs)).
Proof.
  intros Hne H0 Hhs Hline.
  rewrite (parseHTTPReq_block _ _ Hne H0 Hhs), Hline.
  destruct (forallb validateHeader hs) eqn:F.
  - rewrite forallb_forall in F. split; [split |].
    + discriminate.
    + intros (h & Hin & Hbad). exfalso. apply Hbad.
      apply validateHeader_iff. now apply F.
    + reflexivity.
  - split; [split |].
    + intros _.
      assert (E : existsb (fun h => negb (validateHeader h)) hs = true).
      { clear - F. induction hs as [| h hs IH]; [discriminate |].
        simpl in *. destruct (validateHeader h); simpl in *; auto. }
      apply existsb_exists in E. destruct E as (h & Hin & Hv).
      exists h. split; [assumption |]. intros Hok.
      apply validateHeader_iff in Hok. rewrite Hok in Hv. discriminate.
    + reflexivity.
    + intros Hall. exfalso.
      assert (E : forallb validateHeader hs = true).
      { apply forallb_forall. intros h Hin.
        apply validateHeader_iff. now apply Hall. }
      congruence.
Qed.

Lemma parseHTTPReq_headers_witness :
  parseHTTPReq (block (lit "GET / HTTP/1.1") [lit "Host: a"; lit "Accept: b"])
  = Ok (mkHTTPReq (lit "GET") (lit "/") (lit "1.1")
          [lit "Host: a"; lit "Accept: b"]).
Proof.
  refine (proj2 (parseHTTPReq_headers (lit "GET / HTTP/1.1")
                   [lit "Host: a"; lit "Accept: b"]
                   (lit "GET") (lit "/") (lit "1.1") _ _ _ _) _).
  - discriminate.
  - reflexivity.
  - repeat constructor.
  - reflexivity.
  - intros h [<- | [<- | []]]; apply validateHeader_iff; reflexivity.
Defined.

(** C5 (as stated) fails at the header line [A::b]: cut at its first
    colon it gives the two non-empty parts [A] and [:b], and the key
    does not end in a space; the code takes the value between the two
    colons, finds it empty, and raises [Bad header]. *)
Lemma validateHeader_counterexample :
  cutAtFirst COLON (lit "A::b") = Some (lit "A", lit ":b")
  /\ specHeaderOk (lit "A::b") = true
  /\ validateHeader (lit "A::b") = false
  /\ parseHTTPReq (block (lit "GET / HTTP/1.1") [lit "A::b"])
     = Throw (HTTPError 400 "Bad header").
Proof. vm_compute. repeat split; reflexivity. Qed.

(** C9.  [getField] answers with the first header line whose key
    matches, case-insensitively, and when that line has a second colon
    the value returned is the text between the first colon and the
    second: what follows the second colon is dropped. *)
Theorem getField_stops_at_second_colon
    (before : list Buffer) (h : Buffer) (after : list Buffer)
    (key k mid rest : JSString) :
  (forall h', In h' before -> toLowerCase (keyOf h') <> toLowerCase key) ->
  toString h = k ++ COLON :: mid ++ COLON :: rest ->
  ~ In COLON k -> ~ In COLON mid ->
  toLowerCase k = toLowerCase key ->
  getField (before ++ h :: after) key = Ok (Some (fromString mid)).
Proof.
  intros Hbefore Es Hk Hmid Hkey.
  induction before as [| h' before IH].
  - cbn [app getField]. rewrite Es.
    rewrite (split_first _ _ _ Hk), Hkey, list_eqb_refl.
    rewrite (split_second _ _ _ (COLON :: rest) Hk Hmid) by eauto.
    reflexivity.
  - cbn [app getField]. rewrite split_head_cut. fold (keyOf h').
    assert (N : list_eqb (toLowerCase (keyOf h')) (toLowerCase key) = false).
    { apply list_eqb_neq. apply Hbefore. now left. }
    rewrite N. apply IH. intros x Hx. apply Hbefore. now right.
Qed.

(** [Host: example.com:8080] looked up as [host] gives [ example.com]. *)
Lemma getField_stops_at_second_colon_witness :
  getField ([lit "Accept: b"] ++ lit "Host: example.com:8080" :: [lit "X: y"])
           (lit "host")
  = Ok (Some (lit " example.com")).
Proof.
  refine (getField_stops_at_second_colon
            [lit "Accept: b"] (lit "Host: example.com:8080") [lit "X: y"]
            (lit "host") (lit "Host") (lit " example.com") (lit "8080")
            _ _ _ _ _).
  - intros h' [<- | []]. discriminate.
  - reflexivity.
  - apply not_in_by_search. reflexivity.
  - apply not_in_by_search. reflexivity.
  - reflexivity.
Defined.

(* ================================================================== *)
(** * The connection loop *)
(* ================================================================== *)

Section ConnectionLoop.

Lemma soRead_sent (c : TCPConn) :
  sent (snd (soRead c)) = sent c.
Proof.
  unfold soRead. destruct (err c); [reflexivity |].
  destruct (ended c); [reflexivity |].
  destruct (events c) as [| [d | | m] evs]; reflexivity.
Qed.

Lemma soWrite_ok (c : TCPConn) (d : Buffer) (c' : TCPConn) :
  soWrite c d = (Ok tt, c') -> sent c' = sent c ++ [d] /\ events c' = events c.
Proof.
  unfold soWrite. destruct (err c); [discriminate |].
  destruct (ended c); intros H; inversion H. simpl. auto.
Qed.

(** A write that is rejected sends nothing and takes no event. *)
Lemma soWrite_throw (c : TCPConn) (d : Buffer) (e : Exn) (c' : TCPConn) :
  soWrite c d = (Throw e, c') ->
  sent c' = sent c /\ events c' = events c.
Proof.
  unfold soWrite. destruct (err c).
  - intros H. inversion H. auto.
  - destruct (ended c); intros H; inversion H. simpl. auto.
Qed.

(** Searching and slicing stay within bounds. *)
Lemma prefixb_length (pat l : list Z) :
  prefixb pat l = true -> (List.length pat <= List.length l)%nat.
Proof.
  revert l. induction pat as [| p pat IH]; intros l H; simpl; [lia |].
  destruct l as [| x l]; [discriminate |]. simpl in *.
  apply andb_true_iff in H. destruct H as [_ H]. apply IH in H. lia.
Qed.

Lemma find_sub_bound (pat l : list Z) (i : nat) :
  find_sub pat l = Some i -> (i + List.length pat <= List.length l)%nat.
Proof.
  revert i. induction l as [| x l IH]; intros i H.
  - simpl in H. destruct (prefixb pat []) eqn:E; [| discriminate].
    inversion H. subst. now apply prefixb_length in E.
  - cbn [find_sub] in H. destruct (prefixb pat (x :: l)) eqn:E.
    + inversion H. subst. now apply prefixb_length in E.
    + destruct (find_sub pat l) as [j |]; [| discriminate].
      inversion H. subst. specialize (IH j eq_refl). simpl. lia.
Qed.

Lemma len_subarray (d : Buffer) (s e : Z) :
  0 <= s -> s <= e -> len (subarray d s e) <= e - s.
Proof.
  intros Hs He. unfold subarray, clampIndex.
  destruct (s <? 0) eqn:E1; [apply Z.ltb_lt in E1; lia |].
  destruct (e <? 0) eqn:E2; [apply Z.ltb_lt in E2; lia |].
  rewrite len_firstn. pose proof (len_nonneg d). lia.
Qed.

Lemma indexOf_bound (l pat : list Z) (i : Z) :
  indexOf l pat 0 = i -> 0 <= i -> i + len pat <= len l.
Proof.
  unfold indexOf. simpl. destruct (find_sub pat l) as [j |] eqn:E.
  - intros <- _. apply find_sub_bound in E. unfold len. lia.
  - intros <-. lia.
Qed.

(** A message taken from a buffer leaves a buffer of non-negative
    length. *)
Lemma cutMessage_length (b : DynBuf) (msg : HTTPReq) (b' : DynBuf) :
  0 <= begin b -> 0 <= length b ->
  cutMessage b = (Ok (Some msg), b') -> 0 <= length b'.
Proof.
  intros Hb Hl. unfold cutMessage.
  set (idx := indexOf (subarray (data b) (begin b) (begin b + length b))
                      CRLFCRLF 0).
  destruct (idx <? 0) eqn:E.
  - destruct (kMaxHeaderLen <? length b); intros H; inversion H.
  - apply Z.ltb_ge in E.
    destruct (parseHTTPReq _); [| intros H; inversion H].
    destruct (bufPop b (idx + 4)) as [[[] | e] b1] eqn:P;
      intros H; inversion H; subst.
    apply bufPop_ok_length in P. rewrite P.
    pose proof (indexOf_bound _ _ idx eq_refl E) as B.
    change (len CRLFCRLF) with 4 in B.
    pose proof (len_subarray (data b) (begin b) (begin b + length b) Hb).
    lia.
Qed.

(** One [read()] of a reader over the connection. *)
Lemma readConnLength_frame (n : Z) (w : World) :
  got (snd (snd (readConnLength n w))) = got w
  /\ sent (conn (snd (snd (readConnLength n w)))) = sent (conn w).
Proof.
  unfold readConnLength. destruct (n =? 0); [auto |].
  destruct (length (buf w) =? 0).
  - pose proof (soRead_sent (conn w)) as S.
    destruct (soRead (conn w)) as [[d | e] c']; simpl in S.
    + destruct (len d =? 0); simpl; [auto |].
      destruct (bufPop _ _) as [[[] | e] b1]; simpl; auto.
    + simpl. auto.
  - destruct (bufPop _ _) as [[[] | e] b1]; simpl; auto.
Qed.

Lemma readConnLength_zero (w : World) :
  readConnLength 0 w = (Ok [], (0, w)).
Proof. reflexivity. Qed.

Lemma readConnLength_ok (n : Z) (w : World) (d : Buffer) (n' : Z) (w' : World) :
  0 <= n -> 0 <= length (buf w) ->
  readConnLength n w = (Ok d, (n', w')) ->
  0 <= n' /\ 0 <= length (buf w') /\ (n <> 0 -> n' < n).
Proof.
  intros Hn Hl. unfold readConnLength.
  destruct (n =? 0) eqn:E0.
  { apply Z.eqb_eq in E0. intros H. inversion H. subst. lia. }
  apply Z.eqb_neq in E0.
  assert (Pop : forall b1 c1 g1,
            0 < length b1 ->
            match bufPop b1 (Z.min (length b1) n) with
            | (Throw e, b2) =>
                (Throw e, (n - Z.min (length b1) n, mkWorld c1 b2 g1))
            | (Ok _, b2) =>
                (Ok (subarray (data b1) (begin b1)
                       (begin b1 + Z.min (length b1) n)),
                 (n - Z.min (length b1) n, mkWorld c1 b2 g1))
            end = (Ok d, (n', w')) ->
            0 <= n' /\ 0 <= length (buf w') /\ (n <> 0 -> n' < n)).
  { intros b1 c1 g1 Hb1.
    destruct (bufPop b1 (Z.min (length b1) n)) as [[[] | e] b2] eqn:P;
      intros H; inversion H; subst.
    apply bufPop_ok_length in P. simpl. lia. }
  destruct (length (buf w) =? 0) eqn:E1.
  - apply Z.eqb_eq in E1.
    destruct (soRead (conn w)) as [[d0 | e] c'].
    + destruct (len d0 =? 0) eqn:E2.
      * intros H. inversion H.
      * apply Z.eqb_neq in E2. cbn [buf conn got]. apply Pop.
        rewrite bufPush_length. pose proof (len_nonneg d0). lia.
    + intros H. inversion H.
  - apply Z.eqb_neq in E1. apply Pop. lia.
Qed.

Lemma read_frame (r : BodyReader) (w : World) :
  got (snd (snd (read r w))) = got w
  /\ sent (conn (snd (snd (read r w)))) = sent (conn w).
Proof.
  destruct r as [a done | dcl n]; simpl.
  - destruct done; simpl; auto.
  - pose proof (readConnLength_frame n w) as F.
    destruct (readConnLength n w) as [res [n' w']]. simpl in *. exact F.
Qed.

Lemma read_ok (r : BodyReader) (w : World) (d : Buffer)
              (r' : BodyReader) (w' : World) :
  readerInv r -> 0 <= length (buf w) ->
  read r w = (Ok d, (r', w')) ->
  readerInv r' /\ 0 <= length (buf w')
  /\ (len d <> 0 -> (remaining r' < remaining r)%nat).
Proof.
  intros Hi Hl. destruct r as [a done | dcl n]; simpl in *.
  - destruct done; intros H; inversion H; subst; simpl.
    + repeat split; auto. intros N. exfalso. now apply N.
    + repeat split; auto.
  - destruct (readConnLength n w) as [res [n' w1]] eqn:R.
    intros H. inversion H. subst.
    destruct (Z.eq_dec n 0) as [-> | Hn0].
    + rewrite readConnLength_zero in R. inversion R. subst.
      repeat split; auto. intros N. exfalso. now apply N.
    + destruct (readConnLength_ok n w d n' w' Hi Hl R) as (A & B & C).
      simpl. repeat split; auto. intros _. specialize (C Hn0). lia.
Qed.

(** The loop that writes the body ends within [remaining + 1] rounds;
    it leaves the announced requests alone and only adds to what was
    sent. *)
Lemma writeBody_terminates (fuel : nat) :
  forall (ref : BodyRef) (rb : BodyReader) (w : World),
    (remaining (current ref rb) < fuel)%nat ->
    readerInv (current ref rb) -> 0 <= length (buf w) ->
    exists r rb' w',
      writeBody fuel ref rb w = Some (r, (rb', w'))
      /\ got w' = got w
      /\ exists chunks, sent (conn w') = sent (conn w) ++ chunks.
Proof.
  induction fuel as [| f IH]; intros ref rb w Hf Hi Hl; [lia |].
  cbn [writeBody].
  assert (Step : exists res ref' rb' w1,
            readRef ref rb w = (res, (ref', rb', w1))
            /\ got w1 = got w /\ sent (conn w1) = sent (conn w)
            /\ forall d, res = Ok d ->
                 readerInv (current ref' rb') /\ 0 <= length (buf w1)
                 /\ (len d <> 0 ->
                     (remaining (current ref' rb')
                      < remaining (current ref rb))%nat)).
  { destruct ref as [| own]; simpl in *.
    - pose proof (read_frame rb w) as F.
      destruct (read rb w) as [res [rd w1]] eqn:R. simpl in F.
      exists res, RequestBody, rd, w1. repeat split; try tauto.
      all: intros; subst; destruct (read_ok rb w _ _ _ Hi Hl R) as (A & B & C); auto.
    - pose proof (read_frame own w) as F.
      destruct (read own w) as [res [own' w1]] eqn:R. simpl in F.
      exists res, (Fresh own'), rb, w1. repeat split; try tauto.
      all: intros; subst; destruct (read_ok own w _ _ _ Hi Hl R) as (A & B & C); auto. }
  destruct Step as (res & ref' & rb' & w1 & -> & G & S & Hok).
  destruct res as [d | e].
  - destruct (Hok d eq_refl) as (A & B & C).
    destruct (len d =? 0) eqn:E.
    + exists (Ok tt), rb', w1. repeat split; auto.
      exists []. now rewrite app_nil_r.
    + apply Z.eqb_neq in E. specialize (C E).
      destruct (soWrite (conn w1) d) as [[[] | e] c'] eqn:W.
      * apply soWrite_ok in W. destruct W as [W _].
        destruct (IH ref' rb' (mkWorld c' (buf w1) (got w1)))
          as (r & rb2 & w2 & -> & G2 & chunks & S2); simpl; auto; [lia |].
        simpl in G2, S2.
        exists r, rb2, w2. repeat split; [congruence |].
        exists (d :: chunks). rewrite S2, W, S.
        now rewrite <- app_assoc.
      * apply soWrite_throw in W. destruct W as [W _].
        exists (Throw e), rb', (mkWorld c' (buf w1) (got w1)).
        repeat split; auto. exists []. simpl. rewrite W, app_nil_r. exact S.
  - exists (Throw e), rb', w1. repeat split; auto.
    exists []. now rewrite app_nil_r.
Qed.

(** What [readerFromReq] returns is a reader over the connection with a
    non-negative length. *)
Lemma readerFromReq_ok (c : TCPConn) (b : DynBuf) (req : HTTPReq)
                       (rb : BodyReader) :
  readerFromReq c b req = Ok rb ->
  exists n, 0 <= n /\ rb = readerFromConnLength n.
Proof.
  unfold readerFromReq, rbind, readerFromChunked.
  destruct (getField (headers req) (lit "Content-Length")) as [cl | e];
    [| discriminate].
  destruct (match cl with
            | Some cl0 => _
            | None => Ok (-1)
            end) as [n0 | e]; [| discriminate].
  destruct (getField (headers req) (lit "Transfer-Encoding")) as [te | e];
    [| discriminate].
  destruct (_ && _); [discriminate |].
  destruct (match te with Some v => _ | None => false end); [discriminate |].
  destruct (0 <=? _) eqn:E; [| discriminate].
  intros H. inversion H. apply Z.leb_le in E. eauto.
Qed.

(** What the reader over the connection does when [bufPop] returns:
    with nothing remaining it gives the empty chunk and touches
    nothing; with bytes buffered it leaves the socket alone; with an
    empty buffer it takes one event from the socket, and the end of the
    stream is 400 [Unexpected EOF]. *)
Lemma readConnLength_buffered (n : Z) (w : World) :
  n <> 0 -> length (buf w) <> 0 ->
  conn (snd (snd (readConnLength n w))) = conn w
  /\ forall d, fst (readConnLength n w) = Ok d ->
       d = subarray (data (buf w)) (begin (buf w))
             (begin (buf w) + Z.min (length (buf w)) n).
Proof.
  intros Hn Hl. unfold readConnLength.
  apply Z.eqb_neq in Hn, Hl. rewrite Hn, Hl.
  destruct (bufPop _ _) as [[[] | e] b1]; simpl; split; auto;
    intros d H; inversion H; reflexivity.
Qed.

Lemma readConnLength_eof (n : Z) (w : World) (c' : TCPConn) :
  n <> 0 -> length (buf w) = 0 ->
  soRead (conn w) = (Ok [], c') ->
  readConnLength n w
  = (Throw (HTTPError 400 "Unexpected EOF"),
     (n, mkWorld c' (bufPush (buf w) []) (got w))).
Proof.
  intros Hn Hl R. unfold readConnLength.
  apply Z.eqb_neq in Hn. apply Z.eqb_eq in Hl. rewrite Hn, Hl, R.
  reflexivity.
Qed.

Lemma readConnLength_chunk_length (n : Z) (w : World) (d : Buffer) :
  0 <= n -> 0 <= begin (buf w) -> 0 <= length (buf w) ->
  fst (readConnLength n w) = Ok d ->
  len d <= n
  /\ (length (buf w) <> 0 -> len d <= Z.min (length (buf w)) n).
Proof.
  intros Hn Hb Hl. unfold readConnLength.
  destruct (n =? 0) eqn:E0.
  { cbn [fst]. intros H. injection H as <-. apply Z.eqb_eq in E0. subst.
    cbn. lia. }
  destruct (length (buf w) =? 0) eqn:E1.
  - apply Z.eqb_eq in E1.
    destruct (soRead (conn w)) as [[d0 | e] c']; [| discriminate].
    destruct (len d0 =? 0); [discriminate |].
    cbn [buf conn got].
    destruct (bufPop _ _) as [[[] | e] b1]; cbn [fst]; [| discriminate].
    intros H. injection H as <-.
    split; [| lia].
    pose proof (len_nonneg d0).
    eapply Z.le_trans; [apply len_subarray |];
      rewrite ?bufPush_begin, ?bufPush_length; lia.
  - apply Z.eqb_neq in E1.
    destruct (bufPop _ _) as [[[] | e] b1]; cbn [fst]; [| discriminate].
    intros H. injection H as <-.
    split; [| intros _];
      (eapply Z.le_trans; [apply len_subarray |]; lia).
Qed.

(** [newConn] destroys the socket on every path. *)
Lemma newConn_destroys (fuel : nat) (evs : list SockEvent) (w : World) :
  newConn fuel evs = Some w -> destroyed (conn w) = true.
Proof.
  unfold newConn.
  destruct (serveClient fuel (soInit evs)) as [[[[] | e] w0] |];
    [| | discriminate].
  - intros H. inversion H. reflexivity.
  - destruct e as [c m | s | s | s];
      try (intros H; inversion H; reflexivity).
    destruct (writeHTTPRes _ _ _ _) as [[r [rb w1]] |]; [| discriminate].
    intros H. inversion H. reflexivity.
Qed.

End ConnectionLoop.

Section OneResponse.

Lemma writeHTTPRes_terminates (fuel : nat) (res : HTTPRes) (rb : BodyReader)
                              (w : World) :
  (remaining (current (body res) rb) < fuel)%nat ->
  readerInv (current (body res) rb) -> 0 <= length (buf w) ->
  exists r rb' w',
    writeHTTPRes fuel res rb w = Some (r, (rb', w'))
    /\ got w' = got w
    /\ exists chunks,
         sent (conn w') = sent (conn w) ++ chunks
         /\ (r = Ok tt ->
             exists bodyChunks,
               chunks =
                 encodeHTTPRes (code res)
                   (resHeaders res
                      ++ [fromString (lit "Content-Length: "
                                        ++ decimal (refLength (body res) rb))])
                   :: bodyChunks).
Proof.
  intros Hf Hi Hl. unfold writeHTTPRes.
  destruct (refLength (body res) rb <? 0).
  { exists (Throw (Error "not implemented")), rb, w. repeat split.
    exists []. split; [now rewrite app_nil_r | discriminate]. }
  destruct (soWrite (conn w) _) as [[[] | e] c'] eqn:W.
  - apply soWrite_ok in W. destruct W as [W _].
    destruct (writeBody_terminates fuel (body res) rb
                (mkWorld c' (buf w) (got w)) Hf Hi Hl)
      as (r & rb' & w' & E & G & chunks & S).
    simpl in G, S. exists r, rb', w'. repeat split; auto.
    eexists. split.
    + rewrite S, W, <- app_assoc. reflexivity.
    + intros _. exists chunks. reflexivity.
  - apply soWrite_throw in W. destruct W as [W _].
    exists (Throw e), rb, (mkWorld c' (buf w) (got w)).
    repeat split. exists [].
    split; [simpl; now rewrite W, app_nil_r | discriminate].
Qed.

(** A response to a request without body leaves the buffer and the
    pending events of the socket as they are. *)
Lemma writeHTTPRes_no_body (fuel : nat) (msg : HTTPReq) (w : World)
      (r : Result unit) (rb' : BodyReader) (w' : World) :
  writeHTTPRes fuel (handleReq msg) (readerFromConnLength 0) w
    = Some (r, (rb', w')) ->
  buf w' = buf w /\ events (conn w') = events (conn w).
Proof.
  unfold writeHTTPRes, handleReq.
  destruct (list_eqb (toStringLatin1 (uri msg)) (lit "/echo"));
    cbn [body refLength readerLength readerFromConnLength readerFromMemory
         code resHeaders].
  - change (0 <? 0) with false. cbn iota.
    destruct (soWrite (conn w) _) as [[[] | e] c'] eqn:W.
    + apply soWrite_ok in W. destruct W as [_ W].
      destruct fuel as [| f]; [discriminate |].
      cbn. intros H. inversion H. subst. simpl. auto.
    + apply soWrite_throw in W. destruct W as [_ W].
      intros H. inversion H. simpl. auto.
  - assert (E0 : (len (fromString (lit "Hello From Nazarick" ++ [LF])) <? 0)
                 = false) by reflexivity.
    assert (E1 : (len (fromString (lit "Hello From Nazarick" ++ [LF])) =? 0)
                 = false) by reflexivity.
    rewrite E0.
    destruct (soWrite (conn w) _) as [[[] | e] c'] eqn:W.
    + apply soWrite_ok in W. destruct W as [_ W].
      destruct fuel as [| f]; [discriminate |].
      cbn [writeBody readRef read readerFromMemory]. rewrite E1.
      cbn [conn buf got].
      destruct (soWrite c' _) as [[[] | e] c2] eqn:W2.
      * apply soWrite_ok in W2. destruct W2 as [_ W2].
        destruct f as [| f]; [discriminate |].
        cbn. intros H. inversion H. subst. simpl. split; congruence.
      * apply soWrite_throw in W2. destruct W2 as [_ W2].
        intros H. inversion H. subst. simpl. split; congruence.
    + apply soWrite_throw in W. destruct W as [_ W].
      intros H. inversion H. simpl. auto.
Qed.

(** One [read()] never gives more than the bytes that were left. *)
Lemma readConnLength_budget (n : Z) (w : World) (d : Buffer) (n' : Z)
                            (w' : World) :
  0 <= n -> 0 <= begin (buf w) -> 0 <= length (buf w) ->
  readConnLength n w = (Ok d, (n', w')) ->
  len d + n' <= n /\ 0 <= begin (buf w').
Proof.
  intros Hn Hb Hl. unfold readConnLength.
  destruct (n =? 0) eqn:E0.
  { apply Z.eqb_eq in E0. intros H. inversion H. subst. cbn. lia. }
  apply Z.eqb_neq in E0.
  assert (Pop : forall b1 c1 g1,
            0 <= begin b1 -> 0 <= length b1 ->
            match bufPop b1 (Z.min (length b1) n) with
            | (Throw e, b2) =>
                (Throw e, (n - Z.min (length b1) n, mkWorld c1 b2 g1))
            | (Ok _, b2) =>
                (Ok (subarray (data b1) (begin b1)
                       (begin b1 + Z.min (length b1) n)),
                 (n - Z.min (length b1) n, mkWorld c1 b2 g1))
            end = (Ok d, (n', w')) ->
            len d + n' <= n /\ 0 <= begin (buf w')).
  { intros b1 c1 g1 Hb1 Hl1.
    destruct (bufPop b1 (Z.min (length b1) n)) as [[[] | e] b2] eqn:P;
      intros H; inversion H; subst.
    apply bufPop_ok_begin in P; [| assumption | lia].
    cbn [buf]. split; [| exact P].
    pose proof (len_subarray (data b1) (begin b1)
                  (begin b1 + Z.min (length b1) n) Hb1).
    lia. }
  destruct (length (buf w) =? 0) eqn:E1.
  - destruct (soRead (conn w)) as [[d0 | e] c'].
    + destruct (len d0 =? 0) eqn:E2.
      * intros H. inversion H.
      * cbn [buf conn got]. apply Pop.
        -- now rewrite bufPush_begin.
        -- rewrite bufPush_length. pose proof (len_nonneg d0). lia.
    + intros H. inversion H.
  - apply Pop; assumption.
Qed.

Lemma read_budget (r : BodyReader) (w : World) (d : Buffer)
                  (r' : BodyReader) (w' : World) :
  readerInv r -> 0 <= begin (buf w) -> 0 <= length (buf w) ->
  read r w = (Ok d, (r', w')) ->
  len d + bytesLeft r' <= bytesLeft r /\ 0 <= begin (buf w').
Proof.
  intros Hi Hb Hl. destruct r as [a done | dcl n]; cbn [read readerInv] in *.
  - destruct done; intros H; inversion H; subst; cbn; split; try assumption;
      lia.
  - destruct (readConnLength n w) as [res [n1 w1]] eqn:R.
    intros H. injection H as -> <- <-. cbn [bytesLeft].
    exact (readConnLength_budget n w d n1 w1 Hi Hb Hl R).
Qed.

Lemma bytesLeft_nonneg (r : BodyReader) : readerInv r -> 0 <= bytesLeft r.
Proof.
  destruct r as [a done | dcl n]; cbn; [| auto].
  intros _. destruct done; [lia | apply len_nonneg].
Qed.

(** A body loop that returns has sent no more than the bytes its reader
    had left. *)
Lemma writeBody_budget (fuel : nat) :
  forall (ref : BodyRef) (rb : BodyReader) (w : World)
         (rb' : BodyReader) (w' : World),
    readerInv (current ref rb) ->
    0 <= begin (buf w) -> 0 <= length (buf w) ->
    writeBody fuel ref rb w = Some (Ok tt, (rb', w')) ->
    exists chunks,
      sent (conn w') = sent (conn w) ++ chunks
      /\ len (List.concat chunks) <= bytesLeft (current ref rb).
Proof.
  induction fuel as [| f IH]; intros ref rb w rb' w' Hi Hb Hl; [discriminate |].
  cbn [writeBody].
  assert (Step : exists res ref1 rb1 w1,
            readRef ref rb w = (res, (ref1, rb1, w1))
            /\ sent (conn w1) = sent (conn w)
            /\ forall d, res = Ok d ->
                 readerInv (current ref1 rb1) /\ 0 <= length (buf w1)
                 /\ 0 <= begin (buf w1)
                 /\ len d + bytesLeft (current ref1 rb1)
                    <= bytesLeft (current ref rb)).
  { destruct ref as [| own]; cbn [readRef current] in *.
    - pose proof (read_frame rb w) as F.
      destruct (read rb w) as [res [rd w1]] eqn:R. cbn in F.
      exists res, RequestBody, rd, w1. split; [reflexivity |].
      split; [tauto |]. intros d ->.
      destruct (read_ok rb w _ _ _ Hi Hl R) as (A & B & _).
      destruct (read_budget rb w _ _ _ Hi Hb Hl R) as (C & D).
      cbn [current]. tauto.
    - pose proof (read_frame own w) as F.
      destruct (read own w) as [res [own' w1]] eqn:R. cbn in F.
      exists res, (Fresh own'), rb, w1. split; [reflexivity |].
      split; [tauto |]. intros d ->.
      destruct (read_ok own w _ _ _ Hi Hl R) as (A & B & _).
      destruct (read_budget own w _ _ _ Hi Hb Hl R) as (C & D).
      cbn [current]. tauto. }
  destruct Step as (res & ref1 & rb1 & w1 & -> & S & Hok).
  destruct res as [d | e]; [| discriminate].
  destruct (Hok d eq_refl) as (A & B & C & D).
  destruct (len d =? 0) eqn:E.
  - intros H. injection H as <- <-.
    exists []. rewrite app_nil_r. split; [assumption |].
    change (len (List.concat (@nil Buffer))) with 0.
    now apply bytesLeft_nonneg.
  - destruct (soWrite (conn w1) d) as [[[] | e] c'] eqn:W; [| discriminate].
    apply soWrite_ok in W. destruct W as [W _].
    intros H.
    destruct (IH ref1 rb1 (mkWorld c' (buf w1) (got w1)) rb' w' A C B H)
      as (chunks & S2 & L2).
    cbn [conn] in S2.
    exists (d :: chunks). split.
    + rewrite S2, W, S, <- app_assoc. reflexivity.
    + cbn [List.concat]. rewrite len_app. lia.
Qed.

(** A response that [writeHTTPRes] has written in full: its head, then
    body chunks of no more bytes than the head declares. *)
Lemma writeHTTPRes_budget (fuel : nat) (res : HTTPRes) (rb : BodyReader)
                          (w : World) (rb' : BodyReader) (w' : World) :
  readerInv (current (body res) rb) ->
  bytesLeft (current (body res) rb) = refLength (body res) rb ->
  0 <= begin (buf w) -> 0 <= length (buf w) ->
  writeHTTPRes fuel res rb w = Some (Ok tt, (rb', w')) ->
  exists bodyChunks,
    sent (conn w')
    = sent (conn w)
        ++ encodeHTTPRes (code res)
             (resHeaders res
                ++ [fromString (lit "Content-Length: "
                                  ++ decimal (refLength (body res) rb))])
        :: bodyChunks
    /\ len (List.concat bodyChunks) <= refLength (body res) rb.
Proof.
  intros Hi Hbl Hb Hl. unfold writeHTTPRes.
  destruct (refLength (body res) rb <? 0); [discriminate |].
  destruct (soWrite (conn w) _) as [[[] | e] c'] eqn:W; [| discriminate].
  apply soWrite_ok in W. destruct W as [W _].
  intros H.
  destruct (writeBody_budget fuel (body res) rb
              (mkWorld c' (buf w) (got w)) rb' w' Hi Hb Hl H)
    as (chunks & S & L).
  cbn [conn] in S. exists chunks. split.
  - rewrite S, W, <- app_assoc. reflexivity.
  - now rewrite <- Hbl.
Qed.

(** The response [newConn] writes for an [HTTPError]: whatever the state
    of the socket, the call returns; it adds to what was sent at most,
    and leaves the buffer, the pending events and the announced
    requests as they are. *)
Lemma writeHTTPRes_fresh (f : nat) (c : Z) (hs : list Buffer) (a : Buffer)
                         (rb : BodyReader) (w : World) :
  exists r rb' w',
    writeHTTPRes (S (S f)) (mkHTTPRes c hs (Fresh (readerFromMemory a))) rb w
    = Some (r, (rb', w'))
    /\ buf w' = buf w /\ events (conn w') = events (conn w)
    /\ got w' = got w.
Proof.
  unfold writeHTTPRes.
  cbn [body refLength readerLength readerFromMemory code resHeaders].
  assert (E : (len a <? 0) = false)
    by (apply Z.ltb_ge; apply len_nonneg).
  rewrite E.
  destruct (soWrite (conn w) _) as [[[] | e] c'] eqn:W.
  - apply soWrite_ok in W. destruct W as [_ W].
    unfold readerFromMemory. cbn [writeBody readRef read].
    destruct (len a =? 0).
    + do 3 eexists. split; [reflexivity |]. cbn. auto.
    + cbn [conn buf got].
      destruct (soWrite c' a) as [[[] | e] c2] eqn:W2.
      * apply soWrite_ok in W2. destruct W2 as [_ W2].
        change (len (@nil Z) =? 0) with true. cbn iota.
        do 3 eexists. split; [reflexivity |]. cbn. split; [| split]; congruence.
      * apply soWrite_throw in W2. destruct W2 as [_ W2].
        do 3 eexists. split; [reflexivity |]. cbn. split; [| split]; congruence.
  - apply soWrite_throw in W. destruct W as [_ W].
    do 3 eexists. split; [reflexivity |]. cbn. auto.
Qed.

Lemma cutMessage_begin (b : DynBuf) (msg : HTTPReq) (b' : DynBuf) :
  0 <= begin b -> 0 <= length b ->
  cutMessage b = (Ok (Some msg), b') -> 0 <= begin b'.
Proof.
  intros Hb Hl. unfold cutMessage.
  set (idx := indexOf (subarray (data b) (begin b) (begin b + length b))
                      CRLFCRLF 0).
  destruct (idx <? 0) eqn:E.
  - destruct (kMaxHeaderLen <? length b); intros H; inversion H.
  - apply Z.ltb_ge in E.
    destruct (parseHTTPReq _); [| intros H; inversion H].
    destruct (bufPop b (idx + 4)) as [[[] | e] b1] eqn:P;
      intros H; inversion H; subst.
    apply bufPop_ok_begin in P; [assumption | assumption | lia].
Qed.

(** The round of the loop in which the request taken from the buffer
    has version 1.0: the loop returns in that round, from some amount
    of fuel on. *)
Lemma http10_round (w : World) (msg : HTTPReq) (b' : DynBuf) :
  cutMessage (buf w) = (Ok (Some msg), b') ->
  version msg = lit "1.0" ->
  0 <= begin (buf w) -> 0 <= length (buf w) ->
  exists fuel0 : nat,
    forall fuel : nat, (fuel0 <= fuel)%nat ->
      exists (r : Result unit) (w' : World),
        serveLoop fuel w = Some (r, w')
        /\ got w' = got w ++ [msg]
        /\ (exists chunks,
              sent (conn w') = sent (conn w) ++ chunks
              /\ (r = Ok tt ->
                  exists n bodyChunks,
                    chunks = okHead n :: bodyChunks
                    /\ len (List.concat bodyChunks) <= n))
        /\ (forall rb,
              readerFromReq (conn w) b' msg = Ok rb -> readerLength rb = 0 ->
              buf w' = b' /\ events (conn w') = events (conn w)).
Proof.
  intros Hcut Hver Hb Hl.
  pose proof (cutMessage_length _ _ _ Hb Hl Hcut) as Hl'.
  pose proof (cutMessage_begin _ _ _ Hb Hl Hcut) as Hb'.
  destruct (readerFromReq (conn w) b' msg) as [rb | e] eqn:R.
  - destruct (readerFromReq_ok _ _ _ _ R) as (n & Hn & ->).
    exists (S (S (S (Z.to_nat n)))). intros fuel Hf.
    destruct fuel as [| f]; [lia |].
    cbn [serveLoop]. rewrite Hcut. cbn [conn buf got]. rewrite R.
    assert (Hrem : (remaining (current (body (handleReq msg))
                                 (readerFromConnLength n)) < f)%nat).
    { unfold handleReq. destruct (list_eqb _ _); simpl; lia. }
    assert (Hinv : readerInv (current (body (handleReq msg))
                                (readerFromConnLength n))).
    { unfold handleReq. destruct (list_eqb _ _); simpl; auto. }
    assert (Hleft : bytesLeft (current (body (handleReq msg))
                                 (readerFromConnLength n))
                    = refLength (body (handleReq msg))
                        (readerFromConnLength n)).
    { unfold handleReq, readerFromMemory, readerFromConnLength.
      destruct (list_eqb _ _);
        cbn [body current refLength bytesLeft readerLength]; reflexivity. }
    destruct (writeHTTPRes_terminates f (handleReq msg)
                (readerFromConnLength n)
                (mkWorld (conn w) b' (got w ++ [msg])) Hrem Hinv Hl')
      as (r & rb' & w' & E & G & chunks & S & _).
    rewrite E. simpl in G, S.
    assert (Hbuf : forall rb0,
              Ok (readerFromConnLength n) = Ok rb0 -> readerLength rb0 = 0 ->
              buf w' = b' /\ events (conn w') = events (conn w)).
    { intros rb0 E0 L0. inversion E0. subst rb0. simpl in L0. subst n.
      apply writeHTTPRes_no_body in E. exact E. }
    destruct r as [[] | e].
    + rewrite Hver, list_eqb_refl.
      exists (Ok tt), w'.
      split; [reflexivity |]. split; [assumption |]. split; [| exact Hbuf].
      exists chunks. split; [assumption |]. intros _.
      destruct (writeHTTPRes_budget f (handleReq msg)
                  (readerFromConnLength n)
                  (mkWorld (conn w) b' (got w ++ [msg])) rb' w'
                  Hinv Hleft Hb' Hl' E) as (bodyChunks & S2 & L2).
      cbn [conn] in S2. rewrite S in S2. apply app_inv_head in S2.
      exists (refLength (body (handleReq msg)) (readerFromConnLength n)),
             bodyChunks.
      split; [| exact L2].
      rewrite S2. unfold okHead, handleReq. cbn [code resHeaders app].
      reflexivity.
    + exists (Throw e), w'.
      split; [reflexivity |]. split; [assumption |]. split; [| exact Hbuf].
      exists chunks. split; [assumption | discriminate].
  - exists 1%nat. intros fuel Hf. destruct fuel as [| f]; [lia |].
    cbn [serveLoop]. rewrite Hcut. cbn [conn buf got]. rewrite R.
    exists (Throw e), (mkWorld (conn w) b' (got w ++ [msg])).
    split; [reflexivity |]. split; [reflexivity |]. split.
    + exists []. split; [simpl; now rewrite app_nil_r | discriminate].
    + discriminate.
Qed.

End OneResponse.

(** C8.  The connection is in the state [w] when a round of the loop
    starts, and the request that round takes from the buffer has version
    1.0.  Then, for every amount of fuel from some bound on, the loop of
    [serveClient] returns in that round and [newConn] ends with the
    socket destroyed.  Exactly this request is announced, by the loop
    and by the whole connection: no further request is parsed or
    served.  When the round succeeds, what it has sent is the head of
    the response and body chunks of no more bytes than the head
    declares, and [newConn] does nothing more than destroy the socket.
    A request without body leaves the buffer as [cutMessage] left it and
    the socket's pending events untouched, to the end of the
    connection: bytes of a further request stay unread. *)
Theorem http10_closes_after_one_response
    (evs : list SockEvent) (w : World) (msg : HTTPReq) (b' : DynBuf) :
  reaches evs w ->
  cutMessage (buf w) = (Ok (Some msg), b') ->
  version msg = lit "1.0" ->
  0 <= begin (buf w) -> 0 <= length (buf w) ->
  exists fuel0 : nat,
    forall fuel : nat, (fuel0 <= fuel)%nat ->
      exists (r : Result unit) (w' wf : World),
        serveClient fuel (soInit evs) = Some (r, w')
        /\ newConn fuel evs = Some wf
        /\ destroyed (conn wf) = true
        /\ got w' = got w ++ [msg]
        /\ got wf = got w ++ [msg]
        /\ (exists chunks,
              sent (conn w') = sent (conn w) ++ chunks
              /\ (r = Ok tt ->
                  exists n bodyChunks,
                    chunks = okHead n :: bodyChunks
                    /\ len (List.concat bodyChunks) <= n))
        /\ (r = Ok tt -> wf = mkWorld (destroy (conn w')) (buf w') (got w'))
        /\ (forall rb,
              readerFromReq (conn w) b' msg = Ok rb -> readerLength rb = 0 ->
              buf wf = b' /\ events (conn wf) = events (conn w)).
Proof.
  intros (k & f0 & Hr) Hcut Hver Hb Hl.
  destruct (http10_round w msg b' Hcut Hver Hb Hl) as (F & HF).
  exists (k + (f0 + F) + 2)%nat. intros fuel Hfuel.
  specialize (Hr (fuel - k)%nat ltac:(lia)).
  replace (k + (fuel - k))%nat with fuel in Hr by lia.
  destruct (HF (fuel - k)%nat ltac:(lia)) as (r & w' & E & G & Hsent & Hbody).
  rewrite E in Hr. unfold newConn. rewrite Hr.
  destruct r as [[] | e].
  - exists (Ok tt), w', (mkWorld (destroy (conn w')) (buf w') (got w')).
    cbn [conn buf got destroy destroyed events].
    split; [reflexivity |]. split; [reflexivity |]. split; [reflexivity |].
    split; [exact G |]. split; [exact G |]. split; [exact Hsent |].
    split; [reflexivity |]. exact Hbody.
  - destruct e as [c m | s | s | s].
    + destruct fuel as [| [| f]]; [lia | lia |].
      destruct (writeHTTPRes_fresh f c [] (fromString (lit m ++ [LF]))
                  (readerFromMemory []) w')
        as (r2 & rb2 & w2 & E2 & B2 & Ev2 & G2).
      rewrite E2.
      exists (Throw (HTTPError c m)), w',
             (mkWorld (destroy (conn w2)) (buf w2) (got w2)).
      cbn [conn buf got destroy destroyed events].
      split; [reflexivity |]. split; [reflexivity |].
      split; [reflexivity |]. split; [assumption |].
      split; [congruence |]. split; [exact Hsent |].
      split; [discriminate |].
      intros rb Hrb Lrb. destruct (Hbody rb Hrb Lrb) as [X Y].
      split; congruence.
    + exists (Throw (RangeError s)), w',
             (mkWorld (destroy (conn w')) (buf w') (got w')).
      cbn [conn buf got destroy destroyed events].
      split; [reflexivity |]. split; [reflexivity |]. split; [reflexivity |].
      split; [exact G |]. split; [exact G |]. split; [exact Hsent |].
      split; [reflexivity |]. exact Hbody.
    + exists (Throw (TypeError s)), w',
             (mkWorld (destroy (conn w')) (buf w') (got w')).
      cbn [conn buf got destroy destroyed events].
      split; [reflexivity |]. split; [reflexivity |]. split; [reflexivity |].
      split; [exact G |]. split; [exact G |]. split; [exact Hsent |].
      split; [reflexivity |]. exact Hbody.
    + exists (Throw (Error s)), w',
             (mkWorld (destroy (conn w')) (buf w') (got w')).
      cbn [conn buf got destroy destroyed events].
      split; [reflexivity |]. split; [reflexivity |]. split; [reflexivity |].
      split; [exact G |]. split; [exact G |]. split; [exact Hsent |].
      split; [reflexivity |]. exact Hbody.
Qed.

(** The whole connection for those two requests: one response is sent
    (its head, then the greeting), the socket is destroyed, and the 18
    bytes of the second request are still in the buffer. *)
Lemma pipelined_http10_served_once :
  option_map
    (fun w => (sent (conn w), destroyed (conn w), got w,
               length (buf w), window (buf w)))
    (newConn 10 [EvData twoRequests10])
  = Some ([okHead 20; lit "Hello From Nazarick" ++ [LF]], true, [get10], 18,
          lit "GET / HTTP/1.0" ++ CRLF ++ CRLF).
Proof. vm_compute. reflexivity. Qed.

(* ================================================================== *)
(** * Further properties of the dynamic buffer *)
(* ================================================================== *)

Section BufferContents.

Lemma len_copy (s t : Buffer) (ts : Z) : len (copy s t ts) = len t.
Proof.
  unfold copy.
  destruct ((ts <? 0) || (len t <=? ts)) eqn:E; [reflexivity |].
  apply orb_false_iff in E. destruct E as [E1 E2].
  apply Z.ltb_ge in E1. apply Z.leb_gt in E2.
  pose proof (len_nonneg s).
  rewrite !len_app, !len_firstn, len_skipn.
  rewrite !Z2Nat.id by lia. lia.
Qed.

Lemma len_fill0 (b : Buffer) (o e : Z) (b' : Buffer) :
  fill0 b o e = Ok b' -> len b' = len b.
Proof.
  unfold fill0.
  destruct (o <? 0) eqn:E1; [discriminate |].
  destruct ((e <? 0) || (len b <? e)) eqn:E2; [discriminate |].
  apply Z.ltb_ge in E1. apply orb_false_iff in E2. destruct E2 as [E2 E3].
  apply Z.ltb_ge in E2, E3.
  destruct (e <=? o) eqn:E4; intros H; injection H as <-; [reflexivity |].
  apply Z.leb_gt in E4.
  rewrite !len_app, len_firstn, len_repeat, len_skipn.
  rewrite !Z2Nat.id by lia. lia.
Qed.

Lemma len_alloc (n : Z) : len (alloc n) = Z.max 0 n.
Proof. unfold alloc. rewrite len_repeat. lia. Qed.

Lemma grow_loop_shape (fuel : nat) (cap newLen : Z) :
  exists k : nat, grow_loop fuel cap newLen = cap * 2 ^ Z.of_nat k.
Proof.
  revert cap. induction fuel as [| f IH]; intros cap; cbn [grow_loop].
  - exists 0%nat. simpl. lia.
  - destruct (cap <? newLen).
    + destruct (IH (cap * 2)) as [k ->]. exists (S k).
      rewrite Nat2Z.inj_succ, Z.pow_succ_r by lia. lia.
    + exists 0%nat. simpl. lia.
Qed.

Lemma capacity_bufPop (b : DynBuf) (count : Z) :
  capacity (snd (bufPop b count)) = capacity b.
Proof.
  unfold bufPop, capacity.
  destruct (len (data b) <? 2 * (begin b + count)); [| reflexivity].
  destruct (fill0 _ _ _) as [d2 | e] eqn:F; cbn [snd data].
  - apply len_fill0 in F. now rewrite F, len_copyWithin0.
  - apply len_copyWithin0.
Qed.

End BufferContents.

(** X1.  The capacity never shrinks.  [bufPush] keeps it or replaces it
    by [max(capacity, 32)] times a power of two, and leaves it at least
    as large as the new [length] (for a [begin] that is not negative);
    [bufPop] keeps it, whether it returns or throws. *)
Theorem capacity_never_shrinks (b : DynBuf) (d : Buffer) (count : Z) :
  capacity b <= capacity (bufPush b d)
  /\ (capacity (bufPush b d) = capacity b
      \/ exists k : nat,
           capacity (bufPush b d) = Z.max (capacity b) 32 * 2 ^ Z.of_nat k)
  /\ (0 <= begin b -> length (bufPush b d) <= capacity (bufPush b d))
  /\ capacity (snd (bufPop b count)) = capacity b.
Proof.
  unfold capacity, bufPush. cbn [data length].
  rewrite len_copy.
  destruct (len (data b) - begin b <? length b + len d) eqn:E.
  - rewrite len_copy, len_alloc.
    pose proof (grow_enough (Z.max (len (data b)) 32) (length b + len d))
      as G.
    destruct (grow_loop_shape (Z.to_nat (length b + len d))
                (Z.max (len (data b)) 32) (length b + len d)) as [k Hk].
    fold (grow (Z.max (len (data b)) 32) (length b + len d)) in Hk.
    assert (P : 1 <= 2 ^ Z.of_nat k) by (apply Z.pow_le_mono_r with (b := 0); lia).
    assert (Hge : Z.max (len (data b)) 32
                  <= grow (Z.max (len (data b)) 32) (length b + len d))
      by (rewrite Hk; nia).
    split; [lia |]. split; [right; exists k; lia |].
    split; [lia | apply (capacity_bufPop b count)].
  - apply Z.ltb_ge in E.
    split; [lia |]. split; [now left |].
    split; [lia | apply (capacity_bufPop b count)].
Qed.

Lemma capacity_never_shrinks_witness :
  length (bufPush pushed30 fiveBytes) <= capacity (bufPush pushed30 fiveBytes).
Proof.
  apply (proj1 (proj2 (proj2 (capacity_never_shrinks pushed30 fiveBytes 0)))).
  vm_compute. discriminate.
Defined.

Section WindowContents.

Lemma subarray_inside (b : Buffer) (s e : Z) :
  0 <= s -> s <= e -> e <= len b ->
  subarray b s e = firstn (Z.to_nat (e - s)) (skipn (Z.to_nat s) b).
Proof.
  intros Hs He Hb. unfold subarray, clampIndex.
  destruct (s <? 0) eqn:E1; [apply Z.ltb_lt in E1; lia |].
  destruct (e <? 0) eqn:E2; [apply Z.ltb_lt in E2; lia |].
  now rewrite !Z.min_l by lia.
Qed.

Lemma window_inside (b : DynBuf) :
  windowInv b ->
  window b
  = firstn (Z.to_nat (length b)) (skipn (Z.to_nat (begin b)) (data b)).
Proof.
  intros (Hb & Hl & Hc). unfold window, capacity in *.
  rewrite subarray_inside by lia. f_equal. f_equal. lia.
Qed.

Lemma len_window (b : DynBuf) : windowInv b -> len (window b) = length b.
Proof.
  intros H. rewrite (window_inside b H). destruct H as (Hb & Hl & Hc).
  unfold capacity in Hc. rewrite len_firstn, len_skipn.
  rewrite !Z2Nat.id by lia. lia.
Qed.

(** Writing [d] at [ts] into a target with room for it. *)
Lemma copy_fits (d t : Buffer) (ts : Z) :
  0 <= ts -> ts + len d <= len t ->
  copy d t ts
  = firstn (Z.to_nat ts) t ++ d ++ skipn (Z.to_nat (ts + len d)) t.
Proof.
  intros Hts Hfit. unfold copy. pose proof (len_nonneg d) as Hd.
  destruct (ts <? 0) eqn:E1; [apply Z.ltb_lt in E1; lia |]. cbn [orb].
  destruct (len t <=? ts) eqn:E2.
  - apply Z.leb_le in E2. assert (len d = 0) by lia.
    assert (d = []) by (now apply len_zero_iff). subst d.
    replace (ts + len (@nil Z)) with ts by (cbn; lia).
    cbn [app]. now rewrite firstn_skipn.
  - apply Z.leb_gt in E2. rewrite Z.min_l by lia.
    unfold len at 1. rewrite Nat2Z.id, firstn_all. reflexivity.
Qed.

Lemma firstn_skipn_app_left (n m : nat) (a c : list Z) :
  (n + m <= List.length a)%nat ->
  firstn m (skipn n (a ++ c)) = firstn m (skipn n a).
Proof.
  intros H. rewrite skipn_app, firstn_app, length_skipn.
  replace (m - (List.length a - n))%nat with 0%nat by lia.
  replace (n - List.length a)%nat with 0%nat by lia.
  cbn [firstn skipn]. now rewrite app_nil_r.
Qed.

(** The slice that ends where [d] was written is the old slice followed
    by [d]. *)
Lemma subarray_copy (d t : Buffer) (s ts : Z) :
  0 <= s -> s <= ts -> ts + len d <= len t ->
  subarray (copy d t ts) s (ts + len d) = subarray t s ts ++ d.
Proof.
  intros Hs Hts Hfit. pose proof (len_nonneg d) as Hd.
  rewrite subarray_inside by (rewrite ?len_copy; lia).
  rewrite subarray_inside by lia.
  rewrite copy_fits by lia.
  set (a := firstn (Z.to_nat ts) t).
  assert (La : List.length a = Z.to_nat ts).
  { unfold a. rewrite length_firstn. unfold len in *. lia. }
  rewrite skipn_app, La.
  replace (Z.to_nat s - Z.to_nat ts)%nat with 0%nat by lia. cbn [skipn].
  rewrite firstn_app, length_skipn, La.
  replace (Z.to_nat (ts + len d - s) - (Z.to_nat ts - Z.to_nat s))%nat
    with (List.length d) by (unfold len; lia).
  rewrite firstn_app, firstn_all, Nat.sub_diag. cbn [firstn].
  rewrite app_nil_r. f_equal.
  rewrite firstn_all2 by (rewrite length_skipn, La; lia).
  unfold a. rewrite skipn_firstn_comm. f_equal. lia.
Qed.

End WindowContents.

Lemma bufPush_window_app (b : DynBuf) (d : Buffer) :
  windowInv b ->
  length b + len d <= capacity b - begin b \/ begin b = 0 ->
  window (bufPush b d) = window b ++ d /\ windowInv (bufPush b d).
Proof.
  intros (Hb & Hl & Hc) Hroom. pose proof (len_nonneg d) as Hd.
  unfold capacity in *. unfold window, windowInv, capacity, bufPush.
  cbn [data length begin].
  destruct (len (data b) - begin b <? length b + len d) eqn:E.
  - apply Z.ltb_lt in E. destruct Hroom as [Hroom | H0]; [lia |].
    rewrite H0 in *.
    set (cap := grow (Z.max (len (data b)) 32) (length b + len d)).
    assert (G : length b + len d <= cap) by (apply grow_enough; lia).
    assert (G2 : len (data b) <= cap).
    { destruct (grow_loop_shape (Z.to_nat (length b + len d))
                  (Z.max (len (data b)) 32) (length b + len d)) as [k Hk].
      fold (grow (Z.max (len (data b)) 32) (length b + len d)) in Hk.
      fold cap in Hk.
      assert (1 <= 2 ^ Z.of_nat k)
        by (apply Z.pow_le_mono_r with (b := 0); lia).
      nia. }
    assert (La : len (copy (data b) (alloc cap) 0) = cap)
      by (rewrite len_copy, len_alloc; lia).
    split.
    + replace (0 + (length b + len d)) with (length b + 0 + len d) by lia.
      rewrite subarray_copy by lia. f_equal.
      rewrite Z.add_0_r, Z.add_0_l.
      rewrite !subarray_inside by lia.
      rewrite copy_fits by (rewrite ?len_alloc; lia).
      cbn [Z.to_nat firstn skipn app].
      rewrite Z.sub_0_r. rewrite firstn_app.
      replace (Z.to_nat (length b) - List.length (data b))%nat with 0%nat
        by (unfold len in *; lia).
      cbn [firstn]. now rewrite app_nil_r.
    + rewrite len_copy, La. lia.
  - apply Z.ltb_ge in E. split.
    + replace (begin b + (length b + len d))
        with (length b + begin b + len d) by lia.
      rewrite subarray_copy by lia.
      now replace (length b + begin b) with (begin b + length b) by lia.
    + rewrite len_copy. lia.
Qed.

(** X2.  A push that finds room behind the window, or that finds the
    window at the start of the buffer, appends: the unconsumed bytes
    are the old ones followed by the new ones, and the window still
    lies inside the buffer. *)
Theorem bufPush_appends (b : DynBuf) (d : Buffer) :
  windowInv b ->
  length b + len d <= capacity b - begin b \/ begin b = 0 ->
  window (bufPush b d) = window b ++ d /\ windowInv (bufPush b d).
Proof.
  intros Hinv Hroom.
  apply (bufPush_window_app b d Hinv Hroom).
Qed.

Lemma bufPush_appends_witness :
  window (bufPush pushed30 [66; 66]) = window pushed30 ++ [66; 66]
  /\ windowInv (bufPush pushed30 [66; 66]).
Proof.
  apply (bufPush_appends pushed30 [66; 66]).
  - vm_compute. repeat split; discriminate.
  - left. vm_compute. discriminate.
Defined.

Section PopContents.

Lemma window_rest (b : DynBuf) (count : Z) :
  windowInv b -> 0 <= count <= length b ->
  skipn (Z.to_nat count) (window b)
  = firstn (Z.to_nat (length b - count))
      (skipn (Z.to_nat (begin b + count)) (data b)).
Proof.
  intros H Hc. rewrite (window_inside b H). destruct H as (Hb & Hl & Hcap).
  rewrite skipn_firstn_comm, skipn_skipn. f_equal; [lia |]. f_equal. lia.
Qed.

Lemma fill0_prefix (b : Buffer) (o e : Z) (b' : Buffer) (n : nat) :
  fill0 b o e = Ok b' -> Z.of_nat n <= o -> o <= len b ->
  firstn n b' = firstn n b.
Proof.
  unfold fill0. intros H Hn Ho.
  destruct (o <? 0); [discriminate |].
  destruct ((e <? 0) || (len b <? e)); [discriminate |].
  destruct (e <=? o); injection H as <-; [reflexivity |].
  rewrite firstn_app, firstn_firstn, length_firstn.
  replace (Nat.min n (Z.to_nat o)) with n by lia.
  replace (n - Nat.min (Z.to_nat o) (List.length b))%nat with 0%nat
    by (unfold len in *; lia).
  cbn [firstn]. now rewrite app_nil_r.
Qed.

Lemma copyWithin0_prefix (b : Buffer) (s e : Z) (n : nat) :
  0 <= s -> s <= len b -> Z.of_nat n <= Z.min e (len b) - s ->
  firstn n (copyWithin0 b s e) = firstn n (skipn (Z.to_nat s) b).
Proof.
  intros Hs Hsb Hn. unfold copyWithin0, clampIndex.
  pose proof (len_nonneg b) as Hb.
  destruct (s <? 0) eqn:E1; [apply Z.ltb_lt in E1; lia |].
  assert (He : 0 <= e) by lia.
  destruct (e <? 0) eqn:E2; [apply Z.ltb_lt in E2; lia |].
  rewrite (Z.min_l s) by lia.
  destruct (Z.min (Z.min e (len b) - s) (len b) <=? 0) eqn:E3.
  - apply Z.leb_le in E3. assert (n = 0%nat) by lia. subst n. reflexivity.
  - apply Z.leb_gt in E3.
    rewrite firstn_app, firstn_firstn, length_firstn, length_skipn.
    replace (Nat.min n (Z.to_nat (Z.min (Z.min e (len b) - s) (len b))))
      with n by lia.
    replace (n - Nat.min (Z.to_nat (Z.min (Z.min e (len b) - s) (len b)))
                   (List.length b - Z.to_nat s))%nat
      with 0%nat by (unfold len in *; lia).
    cbn [firstn]. now rewrite app_nil_r.
Qed.

Lemma bufPop_window_rest (b : DynBuf) (count : Z) (b' : DynBuf) :
  windowInv b -> 0 <= count <= length b ->
  bufPop b count = (Ok tt, b') ->
  window b' = skipn (Z.to_nat count) (window b) /\ windowInv b'.
Proof.
  intros Hinv Hc Hpop. rewrite (window_rest b count Hinv Hc).
  destruct Hinv as (Hb & Hl & Hcap). unfold capacity in Hcap.
  revert Hpop. unfold bufPop.
  destruct (len (data b) <? 2 * (begin b + count)) eqn:E.
  - destruct (fill0 _ _ _) as [d2 | e] eqn:F; [| discriminate].
    intros H. injection H as <-.
    pose proof (len_fill0 _ _ _ _ F) as L2. rewrite len_copyWithin0 in L2.
    unfold window, windowInv, capacity. cbn [data length begin].
    split; [| lia].
    rewrite subarray_inside by lia.
    rewrite Z.add_0_l, Z.sub_0_r. cbn [Z.to_nat skipn].
    rewrite (fill0_prefix _ _ _ _ (Z.to_nat (length b - count)) F)
      by (rewrite ?len_copyWithin0; lia).
    rewrite copyWithin0_prefix by lia. reflexivity.
  - intros H. injection H as <-.
    unfold window, windowInv, capacity. cbn [data length begin].
    split; [| lia].
    rewrite subarray_inside by lia. f_equal. lia.
Qed.

End PopContents.

(** X3.  A pop that returns consumes exactly [count] bytes from the
    front of the window, with or without compaction, and leaves the
    window inside the buffer. *)
Theorem bufPop_consumes (b : DynBuf) (count : Z) (b' : DynBuf) :
  windowInv b -> 0 <= count <= length b ->
  bufPop b count = (Ok tt, b') ->
  window b' = skipn (Z.to_nat count) (window b) /\ windowInv b'.
Proof.
  intros Hinv Hc Hpop.
  apply (bufPop_window_rest b count b' Hinv Hc Hpop).
Qed.

Lemma bufPop_consumes_witness :
  window popped10 = skipn (Z.to_nat 10) (window pushed30)
  /\ windowInv popped10.
Proof.
  apply (bufPop_consumes pushed30 10 popped10).
  - vm_compute. repeat split; discriminate.
  - vm_compute. split; discriminate.
  - vm_compute. reflexivity.
Defined.

(** At the 27 bytes of a request head, which fill the buffer of 32 past
    its half, the pop of all of them throws. *)
Lemma bufPop_throws_iff_witness :
  exists e, fst (bufPop (bufPush emptyBuf getHostA) 27) = Throw e.
Proof.
  apply (proj2 (bufPop_throws_iff (bufPush emptyBuf getHostA) 27
                  ltac:(vm_compute; discriminate)
                  ltac:(vm_compute; discriminate))).
  vm_compute. split; reflexivity.
Defined.

(* ================================================================== *)
(** * Further properties of the parser *)
(* ================================================================== *)

Section ParsedRequests.

Lemma parseRequestLine_ok (arg0 : Buffer) (m : JSString) (u : Buffer)
                          (v : JSString) :
  parseRequestLine arg0 = Ok (m, u, v) ->
  In m kHttpMethods /\ uriOk m u /\ (v = lit "1.0" \/ v = lit "1.1").
Proof.
  unfold parseRequestLine.
  destruct (len (split SP (toString arg0)) =? 3); [| discriminate].
  cbn [negb].
  set (elements := split SP (toString arg0)).
  destruct (existsb (list_eqb (nth 0 elements [])) kHttpMethods) eqn:Em;
    [| discriminate].
  cbn [negb].
  destruct (validateURI (fromString (nth 1 elements [])) (nth 0 elements []))
    eqn:Eu; [| discriminate].
  cbn [negb].
  destruct (nth_error (split SLASH (nth 2 elements [])) 1) as [ver |];
    [| discriminate].
  destruct (list_eqb ver (lit "1.0")) eqn:E0.
  - cbn [negb andb]. intros H. injection H as <- <- <-.
    apply existsb_list_eqb in Em. apply validateURI_true in Eu.
    apply list_eqb_eq in E0. auto.
  - destruct (list_eqb ver (lit "1.1")) eqn:E1; [| discriminate].
    cbn [negb andb]. intros H. injection H as <- <- <-.
    apply existsb_list_eqb in Em. apply validateURI_true in Eu.
    apply list_eqb_eq in E1. auto.
Qed.

Lemma collectHeaders_ok (ls hs : list Buffer) :
  collectHeaders ls = Ok hs -> hs = ls /\ Forall headerFieldsOk ls.
Proof.
  rewrite collectHeaders_forallb.
  destruct (forallb validateHeader ls) eqn:F; [| discriminate].
  intros H. injection H as <-. split; [reflexivity |].
  apply Forall_forall. intros h Hin. apply validateHeader_iff.
  rewrite forallb_forall in F. now apply F.
Qed.

Lemma splitlines_loop_step (f : nat) (d : Buffer) (b : Z)
                           (acc : list Buffer) :
  splitlines_loop (S f) d b acc =
    if b <? len d then
      if indexOf d CRLF b <? 0 then acc ++ [subarray d b (len d)]
      else splitlines_loop f d (indexOf d CRLF b + 2)
             (if indexOf d CRLF b =? 0 then acc
              else acc ++ [subarray d b (indexOf d CRLF b)])
    else acc.
Proof. reflexivity. Qed.

End ParsedRequests.

(** X5.  Whatever bytes [parseHTTPReq] is given, a request it returns
    has a method of the list, one of the two versions, a URI that
    passes the checks for its method, and as headers exactly the lines
    between the first and the last, in their order, each of which
    passes the header check. *)
Theorem parseHTTPReq_wellformed (d : Buffer) (req : HTTPReq) :
  parseHTTPReq d = Ok req ->
  In (method req) kHttpMethods
  /\ (version req = lit "1.0" \/ version req = lit "1.1")
  /\ uriOk (method req) (uri req)
  /\ headers req = headerLines (splitlines d)
  /\ Forall headerFieldsOk (headers req).
Proof.
  unfold parseHTTPReq. destruct (splitlines d) as [| line0 rest] eqn:S;
    [discriminate |].
  destruct (parseRequestLine line0) as [[[m u] v] | e] eqn:P;
    [| discriminate].
  cbn [rbind].
  destruct (collectHeaders (headerLines (line0 :: rest))) as [hs | e] eqn:C;
    [| discriminate].
  cbn [rbind]. intros H. injection H as <-. cbn [method version uri headers].
  apply parseRequestLine_ok in P. destruct P as (P1 & P2 & P3).
  apply collectHeaders_ok in C. destruct C as [-> C].
  repeat split; try assumption; apply P2.
Qed.

Lemma parseHTTPReq_wellformed_witness :
  In (lit "GET") kHttpMethods
  /\ (lit "1.1" = lit "1.0" \/ lit "1.1" = lit "1.1")
  /\ uriOk (lit "GET") (lit "/")
  /\ [lit "Host: a"] = headerLines (splitlines getHostA)
  /\ Forall headerFieldsOk [lit "Host: a"].
Proof.
  apply (parseHTTPReq_wellformed getHostA
           (mkHTTPReq (lit "GET") (lit "/") (lit "1.1") [lit "Host: a"])).
  vm_compute. reflexivity.
Defined.

(** X6.  [splitlines] gives back the lines of a text in which every
    line is followed by CRLF, provided no line contains CRLF and the
    first line is not empty; a CRLF in front of the text is skipped, and
    then the first line may be empty too. *)
Theorem splitlines_recovers_lines (l0 : Buffer) (ls : list Buffer) :
  Forall noCRLF (l0 :: ls) ->
  (l0 <> [] -> splitlines (wire (l0 :: ls)) = l0 :: ls)
  /\ splitlines (CRLF ++ wire (l0 :: ls)) = l0 :: ls.
Proof.
  intros Hall. split.
  - intros Hne. unfold splitlines.
    change (splitlines_loop (S (List.length (wire (l0 :: ls))))
              (wire (l0 :: ls)) 0 [])
      with (splitlines_loop (S (List.length (wire (l0 :: ls))))
              ([] ++ wire (l0 :: ls)) (len (@nil Z)) []).
    rewrite splitlines_loop_wire; [reflexivity | assumption | |].
    + intros _ l ls' E. injection E as <- _. assumption.
    + pose proof (wire_length (l0 :: ls)). simpl in *. lia.
  - unfold splitlines.
    change (List.length (CRLF ++ wire (l0 :: ls)))
      with (S (S (List.length (wire (l0 :: ls))))).
    rewrite splitlines_loop_step.
    assert (E1 : (0 <? len (CRLF ++ wire (l0 :: ls))) = true).
    { apply Z.ltb_lt. rewrite len_app.
      pose proof (len_nonneg (wire (l0 :: ls))).
      change (len CRLF) with 2. lia. }
    rewrite E1.
    assert (E2 : indexOf (CRLF ++ wire (l0 :: ls)) CRLF 0 = 0) by reflexivity.
    rewrite E2.
    change (0 <? 0) with false. change (0 =? 0) with true. cbn iota.
    change (0 + 2) with (len CRLF).
    rewrite splitlines_loop_wire; [reflexivity | assumption | |].
    + intros E. discriminate.
    + pose proof (wire_length (l0 :: ls)). simpl in *. lia.
Qed.

Lemma splitlines_recovers_lines_witness :
  splitlines (wire [lit "GET / HTTP/1.1"; lit "Host: a"; []])
  = [lit "GET / HTTP/1.1"; lit "Host: a"; []].
Proof.
  apply (proj1 (splitlines_recovers_lines (lit "GET / HTTP/1.1")
                  [lit "Host: a"; []] ltac:(repeat constructor))).
  discriminate.
Defined.

Section Framing.

Lemma bufPop_throws_range (b : DynBuf) (count : Z) (e : Exn) (b' : DynBuf) :
  bufPop b count = (Throw e, b') -> exists s, e = RangeError s.
Proof.
  unfold bufPop. destruct (len (data b) <? 2 * (begin b + count));
    [| discriminate].
  unfold fill0.
  destruct (length b <? 0); [intros H; injection H as <- _; eauto |].
  destruct (_ || _); [intros H; injection H as <- _; eauto |].
  destruct (_ <=? _); discriminate.
Qed.

Lemma indexOf_zero (l pat : list Z) :
  indexOf l pat 0
  = match find_sub pat l with Some i => Z.of_nat i | None => -1 end.
Proof. unfold indexOf. cbn [Z.to_nat skipn]. destruct (find_sub pat l); lia. Qed.

End Framing.

(** X7.  [cutMessage] changes the buffer only when it returns a request
    or when the pop throws its [RangeError]: a head refused with an
    [HTTPError], a head too long and an incomplete head all stay in the
    buffer as they were. *)
Theorem cutMessage_keeps_refused_head
    (b : DynBuf) (r : Result (option HTTPReq)) (b' : DynBuf) :
  cutMessage b = (r, b') ->
  b' = b \/ (exists msg, r = Ok (Some msg)) \/ (exists s, r = Throw (RangeError s)).
Proof.
  unfold cutMessage.
  destruct (_ <? 0).
  - destruct (kMaxHeaderLen <? length b); intros H; injection H as <- <-;
      now left.
  - destruct (parseHTTPReq _) as [msg | e].
    + destruct (bufPop b _) as [[[] | e] b1] eqn:P;
        intros H; injection H as <- <-.
      * right. left. eauto.
      * right. right. apply bufPop_throws_range in P.
        destruct P as [s ->]. eauto.
    + intros H. injection H as <- <-. now left.
Qed.

Lemma cutMessage_keeps_refused_head_witness :
  bufPush emptyBuf (lit "PATCH / HTTP/1.1" ++ CRLFCRLF)
  = bufPush emptyBuf (lit "PATCH / HTTP/1.1" ++ CRLFCRLF)
  \/ (exists msg : HTTPReq,
        @Throw (option HTTPReq) (HTTPError 405 "Method not allowed")
        = Ok (Some msg))
  \/ (exists s,
        @Throw (option HTTPReq) (HTTPError 405 "Method not allowed")
        = Throw (RangeError s)).
Proof.
  apply (cutMessage_keeps_refused_head
           (bufPush emptyBuf (lit "PATCH / HTTP/1.1" ++ CRLFCRLF))
           (Throw (HTTPError 405 "Method not allowed"))
           (bufPush emptyBuf (lit "PATCH / HTTP/1.1" ++ CRLFCRLF))).
  vm_compute. reflexivity.
Defined.

(** X8.  When [cutMessage] returns a request, the request is the parse
    of the window up to and including the first CRLFCRLF, and the
    window that is left is the rest, byte for byte: a body that follows
    the head stays buffered. *)
Theorem cutMessage_returns_head (b : DynBuf) (msg : HTTPReq) (b' : DynBuf) :
  windowInv b ->
  cutMessage b = (Ok (Some msg), b') ->
  exists idx : nat,
    find_sub CRLFCRLF (window b) = Some idx
    /\ parseHTTPReq (firstn (idx + 4) (window b)) = Ok msg
    /\ window b' = skipn (idx + 4) (window b)
    /\ windowInv b'.
Proof.
  intros Hinv. pose proof (len_window b Hinv) as Lw.
  pose proof (window_inside b Hinv) as Win.
  unfold cutMessage. fold (window b). rewrite indexOf_zero.
  destruct (find_sub CRLFCRLF (window b)) as [i |] eqn:F.
  - assert (E : (Z.of_nat i <? 0) = false) by (apply Z.ltb_ge; lia).
    rewrite E. apply find_sub_bound in F as B.
    change (List.length CRLFCRLF) with 4%nat in B.
    destruct Hinv as (Hb & Hl & Hc).
    assert (Hsub : subarray (data b) (begin b) (Z.of_nat i + begin b + 4)
                   = firstn (i + 4) (window b)).
    { unfold capacity in Hc. unfold len in Lw.
      rewrite subarray_inside by lia. rewrite Win, firstn_firstn.
      f_equal. lia. }
    rewrite Hsub.
    destruct (parseHTTPReq _) as [m |] eqn:Pm; [| discriminate].
    destruct (bufPop b (Z.of_nat i + 4)) as [[[] | e] b1] eqn:P;
      [| discriminate].
    intros H. injection H as <- <-.
    exists i. split; [reflexivity |]. split; [exact Pm |].
    assert (Hc' : 0 <= Z.of_nat i + 4 <= length b)
      by (unfold len in Lw; lia).
    destruct (bufPop_window_rest b (Z.of_nat i + 4) b1
                (conj Hb (conj Hl Hc)) Hc' P) as [W I].
    split; [| exact I].
    rewrite W. f_equal. lia.
  - change (-1 <? 0) with true. cbn iota.
    destruct (kMaxHeaderLen <? length b); discriminate.
Qed.

Lemma cutMessage_returns_head_witness :
  exists idx : nat,
    find_sub CRLFCRLF (window (bufPush emptyBuf post60)) = Some idx
    /\ parseHTTPReq (firstn (idx + 4) (window (bufPush emptyBuf post60)))
       = Ok post60Req
    /\ window post60Buf = skipn (idx + 4) (window (bufPush emptyBuf post60))
    /\ windowInv post60Buf.
Proof.
  apply (cutMessage_returns_head (bufPush emptyBuf post60) post60Req post60Buf).
  - vm_compute. repeat split; discriminate.
  - vm_compute. reflexivity.
Defined.

(* ================================================================== *)
(** * Further properties of the header lookup and of the choice of the
      body reader *)
(* ================================================================== *)

Section Lookup.

Lemma getField_cons (h : Buffer) (hs : list Buffer) (key : JSString) :
  getField (h :: hs) key =
    if list_eqb (toLowerCase (keyOf h)) (toLowerCase key) then
      match nth_error (split COLON (toString h)) 1 with
      | Some v => Ok (Some (fromString v))
      | None => Throw (TypeError "Buffer.from(undefined)")
      end
    else getField hs key.
Proof. cbn [getField]. rewrite split_head_cut. reflexivity. Qed.

Lemma headerFieldsOk_value (h : Buffer) :
  headerFieldsOk h -> exists v, nth_error (split COLON (toString h)) 1 = Some v.
Proof.
  intros (_ & k & v & rest & E & Hk & Hv & Hrest & _).
  exists v. rewrite E. now apply split_second.
Qed.

End Lookup.

(** X9.  For a key of ASCII characters, as the two keys of the program
    are: [getField] returns [null] when no header line has the key, up
    to the case of letters; a value it returns comes from a line with
    that key; and over header lines that passed the header check it
    never throws. *)
Theorem getField_total (hs : list Buffer) (key : JSString) :
  isAscii key ->
  ((forall h, In h hs -> toLowerCase (keyOf h) <> toLowerCase key) ->
   getField hs key = Ok None)
  /\ (forall v, getField hs key = Ok (Some v) ->
        exists h, In h hs /\ toLowerCase (keyOf h) = toLowerCase key)
  /\ (Forall headerFieldsOk hs -> exists r, getField hs key = Ok r).
Proof.
  intros _.
  induction hs as [| h hs (IH1 & IH2 & IH3)].
  - split; [reflexivity |]. split; [discriminate |].
    intros _. exists None. reflexivity.
  - rewrite getField_cons.
    destruct (list_eqb (toLowerCase (keyOf h)) (toLowerCase key)) eqn:E.
    + apply list_eqb_eq in E. repeat split.
      * intros H. exfalso. apply (H h); [now left | assumption].
      * intros v _. exists h. split; [now left | assumption].
      * intros H. inversion H as [| ? ? Hh _]. subst.
        destruct (headerFieldsOk_value h Hh) as [v ->]. eauto.
    + apply list_eqb_neq in E. repeat split.
      * intros H. apply IH1. intros h' Hin. apply H. now right.
      * intros v Hv. destruct (IH2 v Hv) as (h' & Hin & Hk).
        exists h'. split; [now right | assumption].
      * intros H. inversion H. subst. now apply IH3.
Qed.

Lemma getField_total_witness :
  getField [lit "Host: a"; lit "Accept: b"] (lit "Content-Length") = Ok None.
Proof.
  apply (proj1 (getField_total [lit "Host: a"; lit "Accept: b"]
                  (lit "Content-Length")
                  ltac:(apply Forall_forall; intros x Hx; cbn in Hx; lia))).
  intros h [<- | [<- | []]]; discriminate.
Defined.

(** X10.  A GET or HEAD request never gets a body: the only reader
    [readerFromReq] returns for it has length 0, and a Content-Length
    that reads as a positive number is refused with 400
    [Body not allowed]. *)
Theorem get_and_head_have_no_body (c : TCPConn) (b : DynBuf) (req : HTTPReq) :
  method req = lit "GET" \/ method req = lit "HEAD" ->
  (forall rb, readerFromReq c b req = Ok rb -> rb = readerFromConnLength 0)
  /\ (forall v n te,
        getField (headers req) (lit "Content-Length") = Ok (Some v) ->
        parseDec (toStringLatin1 v) = Some n -> 0 < n ->
        getField (headers req) (lit "Transfer-Encoding") = Ok te ->
        readerFromReq c b req = Throw (HTTPError 400 "Body not allowed")).
Proof.
  intros Hm.
  assert (Em : list_eqb (method req) (lit "GET")
               || list_eqb (method req) (lit "HEAD") = true).
  { destruct Hm as [-> | ->]; reflexivity. }
  unfold readerFromReq, rbind, readerFromChunked. rewrite Em. cbn [negb andb].
  split.
  - intros rb.
    assert (Tail : forall n0,
              match getField (headers req) (lit "Transfer-Encoding") with
              | Ok a1 =>
                  if (0 <? n0)
                     || match a1 with
                        | Some v => list_eqb v (lit "chunked")
                        | None => false
                        end
                  then Throw (HTTPError 400 "Body not allowed")
                  else
                    if match a1 with
                       | Some v => list_eqb v (lit "chunked")
                       | None => false
                       end
                    then Throw (Error "Function not implemented.")
                    else if 0 <=? 0 then Ok (readerFromConnLength 0)
                         else Throw (Error "Not implemented")
              | Throw e => Throw e
              end = Ok rb -> rb = readerFromConnLength 0).
    { intros n0.
      destruct (getField (headers req) (lit "Transfer-Encoding"))
        as [[v |] | e]; [| | discriminate].
      - destruct (list_eqb v (lit "chunked")); destruct (0 <? n0);
          cbn [orb]; try discriminate.
        intros H. now injection H as <-.
      - destruct (0 <? n0); cbn [orb]; try discriminate.
        intros H. now injection H as <-. }
    destruct (getField (headers req) (lit "Content-Length"))
      as [[cl |] | e]; [| apply Tail | discriminate].
    destruct (parseDec (toStringLatin1 cl)) as [n0 |]; [apply Tail |].
    discriminate.
  - intros v n te -> -> Hn ->.
    apply Z.ltb_lt in Hn. now rewrite Hn.
Qed.

Lemma get_and_head_have_no_body_witness :
  readerFromReq (soInit []) emptyBuf
    (mkHTTPReq (lit "GET") (lit "/") (lit "1.1") [lit "Content-Length: 5"])
  = Throw (HTTPError 400 "Body not allowed").
Proof.
  apply (proj2 (get_and_head_have_no_body (soInit []) emptyBuf
                  (mkHTTPReq (lit "GET") (lit "/") (lit "1.1")
                     [lit "Content-Length: 5"])
                  (or_introl eq_refl))
           (lit " 5") 5 None).
  - reflexivity.
  - reflexivity.
  - reflexivity.
  - reflexivity.
Defined.

(** X11.  A request whose method allows a body but which declares no
    length, or a negative one, and is not chunked, gets no reader:
    [readerFromReq] throws a plain [Error], which is no [HTTPError]. *)
Theorem undeclared_length_not_implemented
    (c : TCPConn) (b : DynBuf) (req : HTTPReq) (te : option Buffer) :
  method req <> lit "GET" -> method req <> lit "HEAD" ->
  getField (headers req) (lit "Content-Length") = Ok None
  \/ (exists v n,
        getField (headers req) (lit "Content-Length") = Ok (Some v)
        /\ parseDec (toStringLatin1 v) = Some n /\ n < 0) ->
  getField (headers req) (lit "Transfer-Encoding") = Ok te ->
  te <> Some (lit "chunked") ->
  readerFromReq c b req = Throw (Error "Not implemented").
Proof.
  intros Hg Hh Hcl Hte Hnc.
  apply list_eqb_neq in Hg, Hh.
  assert (Ec : match te with
               | Some v => list_eqb v (lit "chunked")
               | None => false
               end = false).
  { destruct te as [v |]; [| reflexivity]. apply list_eqb_neq.
    intros ->. now apply Hnc. }
  unfold readerFromReq, rbind. rewrite Hg, Hh, Hte, Ec. cbn [orb negb andb].
  destruct Hcl as [-> | (v & n & -> & -> & Hn)].
  - reflexivity.
  - destruct (0 <=? n) eqn:E; [apply Z.leb_le in E; lia | reflexivity].
Qed.

Lemma undeclared_length_not_implemented_witness :
  readerFromReq (soInit []) emptyBuf
    (mkHTTPReq (lit "POST") (lit "/echo") (lit "1.1") [lit "Host: a"])
  = Throw (Error "Not implemented").
Proof.
  apply (undeclared_length_not_implemented (soInit []) emptyBuf
           (mkHTTPReq (lit "POST") (lit "/echo") (lit "1.1") [lit "Host: a"])
           None).
  - discriminate.
  - discriminate.
  - left. reflexivity.
  - reflexivity.
  - discriminate.
Defined.

(* ================================================================== *)
(** * Further properties of the body readers and of the writer *)
(* ================================================================== *)

(** X12.  With bytes buffered and a length that remains, a [read()] that
    returns gives the first [min(length, bodyLen)] bytes of the window,
    leaves the rest of the window in the buffer, reduces [bodyLen] by
    that number and does not touch the socket. *)
Theorem read_takes_front_of_window
    (n : Z) (w : World) (d : Buffer) (n' : Z) (w' : World) :
  windowInv (buf w) -> 0 < n -> 0 < length (buf w) ->
  readConnLength n w = (Ok d, (n', w')) ->
  d = firstn (Z.to_nat (Z.min (length (buf w)) n)) (window (buf w))
  /\ window (buf w')
     = skipn (Z.to_nat (Z.min (length (buf w)) n)) (window (buf w))
  /\ n' = n - Z.min (length (buf w)) n
  /\ conn w' = conn w
  /\ windowInv (buf w').
Proof.
  intros Hinv Hn Hl. unfold readConnLength.
  assert (E0 : (n =? 0) = false) by (apply Z.eqb_neq; lia).
  assert (E1 : (length (buf w) =? 0) = false) by (apply Z.eqb_neq; lia).
  rewrite E0, E1.
  set (avail := Z.min (length (buf w)) n).
  destruct (bufPop (buf w) avail) as [[[] | e] b1] eqn:P; [| discriminate].
  intros H. injection H as <- <- <-. cbn [buf conn].
  assert (Hc : 0 <= avail <= length (buf w)) by (unfold avail; lia).
  destruct (bufPop_window_rest (buf w) avail b1 Hinv Hc P) as [W I].
  split; [| split; [exact W | split; [reflexivity | split;
    [reflexivity | exact I]]]].
  rewrite (window_inside (buf w) Hinv).
  destruct Hinv as (Hb & Hlen & Hcap). unfold capacity in Hcap.
  rewrite subarray_inside by lia. rewrite firstn_firstn.
  f_equal. lia.
Qed.

Lemma read_takes_front_of_window_witness :
  repeat 97 20
  = firstn (Z.to_nat (Z.min 60 20)) (window post60Buf)
  /\ window (mkDynBuf (post60 ++ repeat 0 25) 40 63)
     = skipn (Z.to_nat (Z.min 60 20)) (window post60Buf)
  /\ 0 = 20 - Z.min 60 20
  /\ soInit [] = soInit []
  /\ windowInv (mkDynBuf (post60 ++ repeat 0 25) 40 63).
Proof.
  apply (read_takes_front_of_window 20 (mkWorld (soInit []) post60Buf [])
           (repeat 97 20) 0
           (mkWorld (soInit []) (mkDynBuf (post60 ++ repeat 0 25) 40 63) [])).
  - vm_compute. repeat split; discriminate.
  - reflexivity.
  - reflexivity.
  - vm_compute. reflexivity.
Defined.

Section Writer.

Lemma soWrite_no_error (c : TCPConn) (d : Buffer) :
  err c = None -> ended c = false -> soWrite c d = (Ok tt, sending c [d]).
Proof. intros H E. unfold soWrite, sending. now rewrite H, E. Qed.

Lemma soWrite_after_end (c : TCPConn) (d : Buffer) :
  err c = None -> ended c = true ->
  soWrite c d
  = (Throw (Error "write after end"),
     mkTCPConn (events c) true (Some (Error "write after end")) (sent c)
       (destroyed c)).
Proof. intros H E. unfold soWrite. now rewrite H, E. Qed.

Lemma sending_sending (c : TCPConn) (a b : list Buffer) :
  sending (sending c a) b = sending c (a ++ b).
Proof. unfold sending. cbn. now rewrite app_assoc. Qed.

(** The body loop over a reader in memory that has not been read. *)
Lemma writeBody_memory (f : nat) (a : Buffer) (rb : BodyReader) (w : World) :
  err (conn w) = None -> ended (conn w) = false ->
  writeBody (S (S f)) (Fresh (readerFromMemory a)) rb w
  = Some (Ok tt,
          (rb, mkWorld (sending (conn w) match a with [] => [] | _ => [a] end)
                 (buf w) (got w))).
Proof.
  intros He Hd. destruct a as [| x a].
  - cbn. unfold sending. rewrite app_nil_r. now destruct w as [[] ? ?].
  - cbn [writeBody readRef read readerFromMemory].
    assert (E : (len (x :: a) =? 0) = false).
    { apply Z.eqb_neq. rewrite len_zero_iff. discriminate. }
    rewrite E, (soWrite_no_error _ _ He Hd). cbn [conn buf got].
    change (len (@nil Z) =? 0) with true. cbn iota. reflexivity.
Qed.

Lemma writeHTTPRes_memory_run (f : nat) (c : Z) (hs : list Buffer)
      (a : Buffer) (rb : BodyReader) (w : World) :
  err (conn w) = None -> ended (conn w) = false ->
  writeHTTPRes (S (S f)) (mkHTTPRes c hs (Fresh (readerFromMemory a))) rb w
  = Some (Ok tt,
          (rb, mkWorld
                 (sending (conn w)
                    (encodeHTTPRes c (hs ++ [contentLength (len a)])
                       :: match a with [] => [] | _ => [a] end))
                 (buf w) (got w))).
Proof.
  intros He Hd. unfold writeHTTPRes.
  cbn [body refLength readerLength readerFromMemory code resHeaders].
  assert (E : (len a <? 0) = false)
    by (apply Z.ltb_ge; apply len_nonneg).
  rewrite E, (soWrite_no_error _ _ He Hd).
  fold (readerFromMemory a).
  rewrite writeBody_memory by (cbn [conn sending err ended]; assumption).
  cbn [conn buf got]. rewrite sending_sending.
  unfold contentLength. cbn [app]. reflexivity.
Qed.

(** The same response on a socket whose stream has ended: the write of
    the head is rejected and nothing goes out. *)
Lemma writeHTTPRes_after_end (fuel : nat) (c : Z) (hs : list Buffer)
      (a : Buffer) (rb : BodyReader) (w : World) :
  err (conn w) = None -> ended (conn w) = true ->
  writeHTTPRes fuel (mkHTTPRes c hs (Fresh (readerFromMemory a))) rb w
  = Some (Throw (Error "write after end"),
          (rb, mkWorld
                 (mkTCPConn (events (conn w)) true
                    (Some (Error "write after end")) (sent (conn w))
                    (destroyed (conn w)))
                 (buf w) (got w))).
Proof.
  intros He Hd. unfold writeHTTPRes.
  cbn [body refLength readerLength readerFromMemory code resHeaders].
  assert (E : (len a <? 0) = false)
    by (apply Z.ltb_ge; apply len_nonneg).
  rewrite E, (soWrite_after_end _ _ He Hd). reflexivity.
Qed.

End Writer.

(** X13.  The body loop of the writer adds chunks to what was sent and
    never sends an empty one; it does not announce requests. *)
Theorem writeBody_sends_no_empty_chunk (fuel : nat) :
  forall (ref : BodyRef) (rb : BodyReader) (w : World)
         (r : Result unit) (rb' : BodyReader) (w' : World),
    writeBody fuel ref rb w = Some (r, (rb', w')) ->
    exists chunks,
      sent (conn w') = sent (conn w) ++ chunks
      /\ Forall (fun d => d <> []) chunks
      /\ got w' = got w.
Proof.
  induction fuel as [| f IH]; intros ref rb w r rb' w'; [discriminate |].
  cbn [writeBody].
  assert (Step : exists res ref1 rb1 w1,
            readRef ref rb w = (res, (ref1, rb1, w1))
            /\ got w1 = got w /\ sent (conn w1) = sent (conn w)).
  { destruct ref as [| own]; cbn [readRef].
    - pose proof (read_frame rb w) as F.
      destruct (read rb w) as [res [rd w1]]. cbn in F.
      exists res, RequestBody, rd, w1. tauto.
    - pose proof (read_frame own w) as F.
      destruct (read own w) as [res [own' w1]]. cbn in F.
      exists res, (Fresh own'), rb, w1. tauto. }
  destruct Step as (res & ref1 & rb1 & w1 & -> & G & S).
  destruct res as [d | e].
  - destruct (len d =? 0) eqn:E.
    + intros H. injection H as <- <- <-.
      exists []. rewrite app_nil_r. auto.
    + apply Z.eqb_neq in E. rewrite len_zero_iff in E.
      destruct (soWrite (conn w1) d) as [[[] | e] c'] eqn:W.
      * apply soWrite_ok in W. destruct W as [W _].
        intros H. apply IH in H. destruct H as (chunks & S2 & F2 & G2).
        cbn [conn got] in S2, G2.
        exists (d :: chunks). split; [| split].
        -- rewrite S2, W, S, <- app_assoc. reflexivity.
        -- now constructor.
        -- congruence.
      * apply soWrite_throw in W. destruct W as [W _].
        intros H. injection H as <- <- <-. cbn [conn got].
        exists []. rewrite app_nil_r, W. auto.
  - intros H. injection H as <- <- <-.
    exists []. rewrite app_nil_r. auto.
Qed.

Lemma writeBody_sends_no_empty_chunk_witness :
  exists chunks,
    sent (sending (soInit []) [lit "abc"]) = sent (soInit []) ++ chunks
    /\ Forall (fun d => d <> []) chunks
    /\ @nil HTTPReq = [].
Proof.
  apply (writeBody_sends_no_empty_chunk 2
           (Fresh (readerFromMemory (lit "abc"))) (readerFromMemory [])
           (mkWorld (soInit []) emptyBuf [])
           (Ok tt) (readerFromMemory [])
           (mkWorld (sending (soInit []) [lit "abc"]) emptyBuf [])).
  vm_compute. reflexivity.
Defined.



(* ================================================================== *)
(** * Further properties of the connection loop *)
(* ================================================================== *)

Section Rounds.

Lemma window_bufPush_empty (d : Buffer) :
  window (bufPush emptyBuf d) = d
  /\ windowInv (bufPush emptyBuf d)
  /\ length (bufPush emptyBuf d) = len d.
Proof.
  assert (I : windowInv emptyBuf) by (cbv; repeat split; discriminate).
  destruct (bufPush_window_app emptyBuf d I (or_intror eq_refl)) as [W I'].
  split; [exact W | split; [exact I' | reflexivity]].
Qed.

Lemma cutMessage_by_window (b : DynBuf) :
  windowInv b ->
  cutMessage b =
    match find_sub CRLFCRLF (window b) with
    | None =>
        (if 8192 <? length b then Throw (HTTPError 413 "Header too long")
         else Ok None, b)
    | Some i =>
        match parseHTTPReq (firstn (i + 4) (window b)) with
        | Throw e => (Throw e, b)
        | Ok msg =>
            match bufPop b (Z.of_nat i + 4) with
            | (Throw e, b') => (Throw e, b')
            | (Ok _, b') => (Ok (Some msg), b')
            end
        end
    end.
Proof.
  intros Hinv. pose proof (len_window b Hinv) as Lw.
  pose proof (window_inside b Hinv) as Win.
  unfold cutMessage. fold (window b). rewrite indexOf_zero.
  destruct (find_sub CRLFCRLF (window b)) as [i |] eqn:F.
  - assert (E : (Z.of_nat i <? 0) = false) by (apply Z.ltb_ge; lia).
    rewrite E. apply find_sub_bound in F as B.
    change (List.length CRLFCRLF) with 4%nat in B.
    destruct Hinv as (Hb & Hl & Hc).
    assert (Hsub : subarray (data b) (begin b) (Z.of_nat i + begin b + 4)
                   = firstn (i + 4) (window b)).
    { unfold capacity in Hc. unfold len in Lw.
      rewrite subarray_inside by lia. rewrite Win, firstn_firstn.
      f_equal. lia. }
    rewrite Hsub. reflexivity.
  - change (-1 <? 0) with true. cbn iota. change kMaxHeaderLen with 8192.
    destruct (8192 <? length b); reflexivity.
Qed.

Lemma serveLoop_throw (f : nat) (w : World) (e : Exn) (b' : DynBuf) :
  cutMessage (buf w) = (Throw e, b') ->
  serveLoop (S f) w = Some (Throw e, mkWorld (conn w) b' (got w)).
Proof. intros H. cbn [serveLoop]. now rewrite H. Qed.

Lemma serveLoop_more (f : nat) (w : World) (b' : DynBuf) (d : Buffer)
                     (c' : TCPConn) :
  cutMessage (buf w) = (Ok None, b') ->
  soRead (conn w) = (Ok d, c') -> d <> [] ->
  serveLoop (S f) w = serveLoop f (mkWorld c' (bufPush (buf w) d) (got w)).
Proof.
  intros H R Hd. cbn [serveLoop]. rewrite H, R. cbn [buf].
  assert (E : (len d =? 0) = false)
    by (apply Z.eqb_neq; now rewrite len_zero_iff).
  now rewrite E.
Qed.

Lemma serveLoop_eof (f : nat) (w : World) (b' : DynBuf) (c' : TCPConn) :
  cutMessage (buf w) = (Ok None, b') ->
  soRead (conn w) = (Ok [], c') ->
  serveLoop (S f) w
  = Some (if length (buf w) =? 0 then Ok tt
          else Throw (HTTPError 400 "Unexpected EOF."),
          mkWorld c' (bufPush (buf w) []) (got w)).
Proof.
  intros H R. cbn [serveLoop]. rewrite H, R. cbn [buf].
  rewrite bufPush_length. change (len (@nil Z)) with 0. rewrite Z.add_0_r.
  change (0 =? 0) with true. cbn [andb].
  destruct (length (buf w) =? 0); reflexivity.
Qed.

(** The first round of a connection whose first event is a chunk. *)
Lemma serveClient_first_chunk (f : nat) (d : Buffer) (evs : list SockEvent) :
  d <> [] ->
  serveClient (S f) (soInit (EvData d :: evs))
  = serveLoop f (mkWorld (mkTCPConn evs false None [] false)
                   (bufPush emptyBuf d) []).
Proof.
  intros Hd. unfold serveClient.
  apply (serveLoop_more f (mkWorld (soInit (EvData d :: evs)) emptyBuf [])
           emptyBuf d (mkTCPConn evs false None [] false));
    [reflexivity | reflexivity | exact Hd].
Qed.

Lemma errorBody_not_empty (m : string) : errorBody m <> [].
Proof.
  unfold errorBody. rewrite fromString_nil_iff.
  destruct (lit m); discriminate.
Qed.

(** [newConn] after [serveClient] has thrown an [HTTPError] on a socket
    without error. *)
Lemma newConn_error_response (f : nat) (evs : list SockEvent)
      (c : Z) (m : string) (w : World) :
  serveClient (S (S f)) (soInit evs) = Some (Throw (HTTPError c m), w) ->
  err (conn w) = None -> ended (conn w) = false ->
  onTheWire (newConn (S (S f)) evs)
  = Some (sent (conn w) ++ errorResponse c m, true).
Proof.
  intros Hs He Hd. unfold newConn. rewrite Hs.
  fold (errorBody m).
  rewrite (writeHTTPRes_memory_run f c [] (errorBody m)
             (readerFromMemory []) w He Hd).
  pose proof (errorBody_not_empty m) as Hne. unfold errorResponse.
  destruct (errorBody m) as [| x a]; [contradiction |].
  reflexivity.
Qed.

(** [newConn] after [serveClient] has thrown an [HTTPError] on a socket
    whose stream has ended: the write of the response is rejected, the
    rejection is swallowed, and nothing is added to what was sent. *)
Lemma newConn_error_after_end (fuel : nat) (evs : list SockEvent)
      (c : Z) (m : string) (w : World) :
  serveClient fuel (soInit evs) = Some (Throw (HTTPError c m), w) ->
  err (conn w) = None -> ended (conn w) = true ->
  onTheWire (newConn fuel evs) = Some (sent (conn w), true).
Proof.
  intros Hs He Hd. unfold newConn. rewrite Hs.
  rewrite (writeHTTPRes_after_end fuel c [] (fromString (lit m ++ [LF]))
             (readerFromMemory []) w He Hd).
  reflexivity.
Qed.

Lemma find_sub_some_nonempty (d : Buffer) (i : nat) :
  find_sub CRLFCRLF d = Some i -> d <> [].
Proof. intros H ->. discriminate. Qed.

End Rounds.

(** X15.  A connection whose first chunk holds a complete head that the
    parser refuses with an [HTTPError] is answered with the response of
    that error, its code in the status line and its message as the
    body, and the socket is destroyed; nothing else is sent. *)
Theorem malformed_head_is_answered
    (f : nat) (d : Buffer) (evs : list SockEvent) (i : nat)
    (c : Z) (m : string) :
  find_sub CRLFCRLF d = Some i ->
  parseHTTPReq (firstn (i + 4) d) = Throw (HTTPError c m) ->
  onTheWire (newConn (S (S f)) (EvData d :: evs))
  = Some (errorResponse c m, true).
Proof.
  intros F P.
  destruct (window_bufPush_empty d) as (W & I & L).
  apply (newConn_error_response f (EvData d :: evs) c m
           (mkWorld (mkTCPConn evs false None [] false)
              (bufPush emptyBuf d) []));
    [| reflexivity | reflexivity].
  rewrite serveClient_first_chunk by (eapply find_sub_some_nonempty; eauto).
  apply (serveLoop_throw f
           (mkWorld (mkTCPConn evs false None [] false)
              (bufPush emptyBuf d) [])
           (HTTPError c m) (bufPush emptyBuf d)).
  cbn [buf].
  rewrite (cutMessage_by_window _ I), W, F, P. reflexivity.
Qed.

Lemma malformed_head_is_answered_witness :
  onTheWire (newConn 2 [EvData (lit "PATCH / HTTP/1.1" ++ CRLFCRLF)])
  = Some (errorResponse 405 "Method not allowed", true).
Proof.
  apply (malformed_head_is_answered 0 (lit "PATCH / HTTP/1.1" ++ CRLFCRLF) []
           16 405 "Method not allowed").
  - reflexivity.
  - vm_compute. reflexivity.
Defined.

(** X16.  A first chunk without CRLFCRLF.  When it is longer than 8192
    bytes the connection is answered with 413 [Header too long].  When
    it is not and the stream ends after it, [serveClient] throws 400
    [Unexpected EOF.], but the stream has ended, so the write of that
    response is rejected and the client receives nothing.  In both
    cases the socket is destroyed. *)
Theorem incomplete_head_closes
    (f : nat) (d : Buffer) (evs : list SockEvent) :
  find_sub CRLFCRLF d = None -> d <> [] ->
  (8192 < len d ->
   onTheWire (newConn (S (S f)) (EvData d :: evs))
   = Some (errorResponse 413 "Header too long", true))
  /\ (len d <= 8192 ->
      evs = [] \/ (exists rest, evs = EvEnd :: rest) ->
      (exists w,
         serveClient (S (S f)) (soInit (EvData d :: evs))
         = Some (Throw (HTTPError 400 "Unexpected EOF."), w))
      /\ onTheWire (newConn (S (S f)) (EvData d :: evs)) = Some ([], true)).
Proof.
  intros F Hd.
  destruct (window_bufPush_empty d) as (W & I & L).
  assert (Hcut : cutMessage (bufPush emptyBuf d)
                 = (if 8192 <? len d
                    then Throw (HTTPError 413 "Header too long")
                    else Ok None, bufPush emptyBuf d)).
  { rewrite (cutMessage_by_window _ I), W, F, L. reflexivity. }
  split.
  - intros Hbig. apply Z.ltb_lt in Hbig. rewrite Hbig in Hcut.
    apply (newConn_error_response f (EvData d :: evs) 413 "Header too long"
             (mkWorld (mkTCPConn evs false None [] false)
                (bufPush emptyBuf d) []));
      [| reflexivity | reflexivity].
    rewrite serveClient_first_chunk by exact Hd.
    apply (serveLoop_throw f
             (mkWorld (mkTCPConn evs false None [] false)
                (bufPush emptyBuf d) [])
             (HTTPError 413 "Header too long") (bufPush emptyBuf d) Hcut).
  - intros Hsmall Hend.
    assert (E : (8192 <? len d) = false) by (apply Z.ltb_ge; lia).
    rewrite E in Hcut.
    assert (Hnz : (len d =? 0) = false)
      by (apply Z.eqb_neq; now rewrite len_zero_iff).
    assert (R : exists c',
              soRead (mkTCPConn evs false None [] false) = (Ok [], c')
              /\ err c' = None /\ ended c' = true /\ sent c' = []).
    { destruct Hend as [-> | [rest ->]]; eexists; cbn; eauto. }
    destruct R as (c' & R & Ec & Dc & Sc).
    assert (Sv : serveClient (S (S f)) (soInit (EvData d :: evs))
                = Some (Throw (HTTPError 400 "Unexpected EOF."),
                        mkWorld c' (bufPush (bufPush emptyBuf d) []) [])).
    { rewrite serveClient_first_chunk by exact Hd.
      rewrite (serveLoop_eof f
                 (mkWorld (mkTCPConn evs false None [] false)
                    (bufPush emptyBuf d) [])
                 (bufPush emptyBuf d) c' Hcut R).
      cbn [buf got]. now rewrite L, Hnz. }
    split; [eexists; exact Sv |].
    pose proof (newConn_error_after_end (S (S f)) (EvData d :: evs) 400
                  "Unexpected EOF."
                  (mkWorld c' (bufPush (bufPush emptyBuf d) []) [])
                  Sv Ec Dc) as N.
    cbn [conn] in N. rewrite Sc in N. exact N.
Qed.

Lemma incomplete_head_closes_witness :
  (exists w,
     serveClient 2 (soInit [EvData (lit "GET / HT"); EvEnd])
     = Some (Throw (HTTPError 400 "Unexpected EOF."), w))
  /\ onTheWire (newConn 2 [EvData (lit "GET / HT"); EvEnd]) = Some ([], true).
Proof.
  apply (proj2 (incomplete_head_closes 0 (lit "GET / HT") [EvEnd]
                  eq_refl ltac:(discriminate))).
  - vm_compute. discriminate.
  - right. exists []. reflexivity.
Defined.

(* ================================================================== *)
(** * Properties of the connection bridge, the echo server and the
      listener bridge *)
(* ================================================================== *)

Section Bridge.

Lemma connOp_after_error (op : ConnOp) (c : TCPConn) (e : Exn) :
  err c = Some e -> connOp op c = (Throw e, c).
Proof.
  intros He. destruct op as [| d]; unfold connOp, soRead, soWrite;
    now rewrite He.
Qed.

Lemma connOps_after_error (ops : list ConnOp) (c : TCPConn) (e : Exn) :
  err c = Some e ->
  connOps ops c = (repeat (Throw e) (List.length ops), c).
Proof.
  intros He. induction ops as [| op ops IH]; [reflexivity |].
  cbn [connOps]. rewrite (connOp_after_error op c e He), IH. reflexivity.
Qed.


End Bridge.

(** X17.  The error of the socket is sticky: the read that meets the
    [error] event is rejected with it, and so is every read and write
    awaited after it; nothing more is sent and no later event is
    taken. *)
Theorem socket_error_is_sticky
    (c : TCPConn) (m : string) (evs : list SockEvent) (ops : list ConnOp) :
  err c = None -> ended c = false -> events c = EvError m :: evs ->
  connOps (DoRead :: ops) c
  = (repeat (Throw (Error m)) (S (List.length ops)),
     mkTCPConn evs false (Some (Error m)) (sent c) (destroyed c)).
Proof.
  intros He Hd Hev. cbn [connOps connOp]. unfold soRead.
  rewrite He, Hd, Hev.
  rewrite (connOps_after_error ops _ (Error m)) by reflexivity.
  reflexivity.
Qed.

Lemma socket_error_is_sticky_witness :
  connOps [DoRead; DoWrite (lit "a"); DoRead]
    (soInit [EvError "reset"; EvData (lit "b")])
  = (repeat (Throw (Error "reset")) 3,
     mkTCPConn [EvData (lit "b")] false (Some (Error "reset")) [] false).
Proof.
  apply (socket_error_is_sticky (soInit [EvError "reset"; EvData (lit "b")])
           "reset" [EvData (lit "b")] [DoWrite (lit "a"); DoRead]);
    reflexivity.
Defined.



Section Echo.

Lemma echoLoop_chunks (ds : list Buffer) :
  forall (fuel : nat) (c : TCPConn) (tail : list SockEvent),
    Forall (fun d => d <> []) ds ->
    (List.length ds < fuel)%nat ->
    err c = None -> ended c = false ->
    events c = map EvData ds ++ tail ->
    (tail = [] \/ exists rest, tail = EvEnd :: rest) ->
    echoLoop fuel c
    = Some (Ok tt,
            mkTCPConn (tl tail) true None (sent c ++ ds) (destroyed c)).
Proof.
  induction ds as [| d ds IH]; intros fuel c tail Hne Hf He Hd Hev Htail.
  - destruct fuel as [| f]; [simpl in Hf; lia |].
    cbn [echoLoop]. unfold soRead. rewrite He, Hd, Hev. cbn [map app].
    rewrite app_nil_r.
    destruct Htail as [-> | [rest ->]]; reflexivity.
  - destruct fuel as [| f]; [simpl in Hf; lia |].
    inversion Hne as [| ? ? Hd0 Hds]; subst.
    cbn [echoLoop]. unfold soRead. rewrite He, Hd, Hev. cbn [map app].
    assert (E : (len d =? 0) = false)
      by (apply Z.eqb_neq; now rewrite len_zero_iff).
    rewrite E. unfold soWrite. cbn [err events ended sent destroyed].
    rewrite (IH f _ tail Hds); cbn [err ended events sent destroyed];
      try assumption; try reflexivity.
    + now rewrite <- app_assoc.
    + simpl in Hf. lia.
Qed.

End Echo.

(** X19.  The echo server sends back the chunks it receives, each as
    one chunk and in their order, until the stream ends; then the
    socket is destroyed. *)
Theorem echo_sends_chunks_back
    (fuel : nat) (ds : list Buffer) (tail : list SockEvent) :
  Forall (fun d => d <> []) ds ->
  (List.length ds < fuel)%nat ->
  tail = [] \/ (exists rest, tail = EvEnd :: rest) ->
  echoConn fuel (map EvData ds ++ tail)
  = Some (mkTCPConn (tl tail) true None ds true).
Proof.
  intros Hne Hf Htail. unfold echoConn.
  rewrite (echoLoop_chunks ds fuel (soInit (map EvData ds ++ tail)) tail);
    try assumption; reflexivity.
Qed.

Lemma echo_sends_chunks_back_witness :
  echoConn 3 (map EvData [lit "ab"; lit "c"] ++ [EvEnd])
  = Some (mkTCPConn (tl [EvEnd]) true None [lit "ab"; lit "c"] true).
Proof.
  apply (echo_sends_chunks_back 3 [lit "ab"; lit "c"] [EvEnd]).
  - repeat constructor; discriminate.
  - simpl. lia.
  - right. exists []. reflexivity.
Defined.

(** X20.  Text of bytes below 128 passes through the decoder and the
    encoder unchanged, in both orders. *)
Theorem ascii_round_trip (b : list Z) :
  isAscii b ->
  toString b = b /\ fromString b = b
  /\ fromString (toString b) = b /\ toString (fromString b) = b.
Proof.
  intros H.
  assert (D : toString b = b).
  { unfold toString. induction H as [| x b Hx Hb IH]; [reflexivity |].
    cbn [decodeFrom]. unfold classify.
    assert (E : (0 <=? x) && (x <=? 127) = true).
    { apply andb_true_iff. split; apply Z.leb_le; lia. }
    rewrite E. now rewrite IH. }
  assert (E : fromString b = b).
  { clear D. induction H as [| x b Hx Hb IH]; [reflexivity |].
    cbn [fromString].
    assert (L : (x <? 128) = true) by (apply Z.ltb_lt; lia).
    rewrite L. now rewrite IH. }
  repeat split; congruence.
Qed.

Lemma ascii_round_trip_witness :
  toString (lit "/echo") = lit "/echo"
  /\ fromString (lit "/echo") = lit "/echo"
  /\ fromString (toString (lit "/echo")) = lit "/echo"
  /\ toString (fromString (lit "/echo")) = lit "/echo".
Proof.
  apply (ascii_round_trip (lit "/echo")).
  repeat constructor; discriminate.
Defined.

(** X21.  One accept at a time.  On a listener without error and
    without waiting accept, [soAccept] starts listening and waits; a
    second [soAccept] is then rejected with
    [another accept is pending] and changes nothing; the next
    connection resolves the first accept with its socket, closes the
    server, and leaves the listener ready for a new accept. *)
Theorem one_accept_at_a_time (l : TCPListener) (p q socket : nat) :
  lerr l = None -> connectionHandler l = None ->
  let l1 := snd (soAccept l p) in
  fst (soAccept l p) = Waiting
  /\ listening l1 = true
  /\ soAccept l1 q = (Rejected (Error "another accept is pending"), l1)
  /\ onConnection l1 socket = (Some (p, socket), mkTCPListener false None None)
  /\ fst (soAccept (snd (onConnection l1 socket)) q) = Waiting.
Proof.
  intros He Hh. unfold soAccept, onConnection. rewrite He, Hh.
  cbn. repeat split; reflexivity.
Qed.

Lemma one_accept_at_a_time_witness :
  let l1 := snd (soAccept soListen 1) in
  fst (soAccept soListen 1) = Waiting
  /\ listening l1 = true
  /\ soAccept l1 2 = (Rejected (Error "another accept is pending"), l1)
  /\ onConnection l1 7 = (Some (1%nat, 7%nat), mkTCPListener false None None)
  /\ fst (soAccept (snd (onConnection l1 7)) 2) = Waiting.
Proof.
  apply (one_accept_at_a_time soListen 1 2 7); reflexivity.
Defined.

(* ================================================================== *)
(** * The Content-Length the writer prints, read back *)
(* ================================================================== *)

Section DecimalText.

Lemma lit_cons (ch : ascii) (s : string) :
  lit (String ch s) = Z.of_nat (nat_of_ascii ch) :: lit s.
Proof. reflexivity. Qed.

Lemma readDigits_digit (u : Z) (s : JSString) (acc : option Z) :
  48 <= u <= 57 ->
  readDigits (u :: s) acc
  = readDigits s (Some (10 * match acc with Some a => a | None => 0 end
                        + (u - 48))).
Proof.
  intros Hu. cbn [readDigits]. unfold isDigit.
  assert (E : (48 <=? u) && (u <=? 57) = true).
  { apply andb_true_iff. split; apply Z.leb_le; lia. }
  now rewrite E.
Qed.

(** The digits of [d] read after a positive accumulator. *)
Lemma readDigits_uint_acc (d : Decimal.uint) :
  forall acc : positive,
    readDigits (lit (NilEmpty.string_of_uint d)) (Some (Z.pos acc))
    = Some (Z.pos (Pos.of_uint_acc d acc)).
Proof.
  induction d as [| d IH | d IH | d IH | d IH | d IH | d IH | d IH | d IH
                  | d IH | d IH]; intros acc;
    cbn [NilEmpty.string_of_uint Pos.of_uint_acc];
    [reflexivity | ..];
    rewrite lit_cons, readDigits_digit by (cbv; split; discriminate);
    match goal with
    | |- context [Z.of_nat (nat_of_ascii ?ch)] =>
        let k := eval vm_compute in (Z.of_nat (nat_of_ascii ch)) in
        change (Z.of_nat (nat_of_ascii ch)) with k
    end;
    match goal with
    | |- readDigits _ (Some ?v) = Some (Z.pos (Pos.of_uint_acc _ ?a)) =>
        replace v with (Z.pos a) by lia
    end; apply IH.
Qed.

(** The digits of [d] read from the start. *)
Lemma readDigits_uint (d : Decimal.uint) :
  readDigits (lit (NilEmpty.string_of_uint d)) (Some 0)
  = Some (Z.of_N (Pos.of_uint d)).
Proof.
  induction d as [| d IH | d IH | d IH | d IH | d IH | d IH | d IH | d IH
                  | d IH | d IH];
    cbn [NilEmpty.string_of_uint Pos.of_uint];
    [reflexivity | ..];
    rewrite lit_cons, readDigits_digit by (cbv; split; discriminate);
    [exact IH | ..];
    match goal with
    | |- readDigits _ (Some ?v) = Some (Z.of_N (N.pos (Pos.of_uint_acc _ ?a))) =>
        replace v with (Z.pos a) by (cbv; reflexivity)
    end; apply readDigits_uint_acc.
Qed.

Lemma digits_of_uint (d : Decimal.uint) :
  Forall (fun u => 48 <= u <= 57) (lit (NilEmpty.string_of_uint d)).
Proof.
  induction d; cbn [NilEmpty.string_of_uint]; [constructor | ..];
    rewrite lit_cons; (constructor; [cbv; split; discriminate | assumption]).
Qed.

Lemma decimal_pos (p : positive) :
  decimal (Z.pos p) = lit (NilEmpty.string_of_uint (Pos.to_uint p)).
Proof.
  unfold decimal. cbn [Z.to_int NilZero.string_of_int].
  unfold NilZero.string_of_uint.
  pose proof (DecimalPos.Unsigned.of_to p) as H.
  destruct (Pos.to_uint p); [discriminate | reflexivity ..].
Qed.

(** [parseInt] reads back what the template literal prints, also after
    a space. *)
Lemma parseInt10_decimal (p : positive) :
  parseInt10 (SP :: decimal (Z.pos p)) = Some (Z.pos p).
Proof.
  rewrite decimal_pos.
  pose proof (readDigits_uint (Pos.to_uint p)) as R.
  pose proof (digits_of_uint (Pos.to_uint p)) as D.
  rewrite DecimalPos.Unsigned.of_to in R.
  destruct (lit (NilEmpty.string_of_uint (Pos.to_uint p))) as [| u s] eqn:L.
  - cbn in R. discriminate.
  - inversion D as [| ? ? Hu Hs]; subst.
    unfold parseInt10. cbn [trimStart]. change (isWhiteSpace SP) with true.
    cbn iota.
    assert (W : isWhiteSpace u = false).
    { unfold isWhiteSpace. apply not_true_is_false. intros H.
      apply existsb_exists in H. destruct H as (x & Hin & Hx).
      apply Z.eqb_eq in Hx. subst x. cbn [In] in Hin.
      repeat (destruct Hin as [Hin | Hin]; [lia |]). exact Hin. }
    rewrite W.
    assert (E1 : (u =? 45) = false) by (apply Z.eqb_neq; lia).
    assert (E2 : (u =? 43) = false) by (apply Z.eqb_neq; lia).
    rewrite E1, E2.
    rewrite readDigits_digit in R |- * by exact Hu.
    exact R.
Qed.

End DecimalText.

Section LengthRoundTrip.

Lemma decimal_digits (p : positive) :
  Forall (fun u => 48 <= u <= 57) (decimal (Z.pos p)).
Proof. rewrite decimal_pos. apply digits_of_uint. Qed.

Lemma digits_ascii (s : list Z) :
  Forall (fun u => 48 <= u <= 57) s -> isAscii s /\ ~ In COLON s.
Proof.
  intros H. split.
  - unfold isAscii. eapply Forall_impl; [| exact H]. cbn. intros; lia.
  - intros Hin. rewrite Forall_forall in H. apply H in Hin.
    unfold COLON in Hin. lia.
Qed.

(** The header line written for a body of [p] bytes, as [getField]
    reads it. *)
Lemma getField_contentLength (p : positive) :
  getField [contentLength (Z.pos p)] (lit "Content-Length")
  = Ok (Some (SP :: decimal (Z.pos p)))
  /\ getField [contentLength (Z.pos p)] (lit "Transfer-Encoding") = Ok None.
Proof.
  destruct (digits_ascii _ (decimal_digits p)) as [Ha Hc].
  assert (Hline : lit "Content-Length: " ++ decimal (Z.pos p)
                  = lit "Content-Length" ++ COLON :: SP :: decimal (Z.pos p))
    by reflexivity.
  assert (Aline : isAscii (lit "Content-Length: " ++ decimal (Z.pos p))).
  { apply Forall_app. split; [| exact Ha].
    repeat constructor; discriminate. }
  assert (Aval : isAscii (SP :: decimal (Z.pos p))).
  { constructor; [unfold SP; lia | exact Ha]. }
  assert (Hsplit : split COLON (toString (contentLength (Z.pos p)))
                   = [lit "Content-Length"; SP :: decimal (Z.pos p)]).
  { unfold contentLength.
    rewrite (fromString_ascii _ Aline), (toString_ascii _ Aline), Hline.
    rewrite split_app by (apply not_in_by_search; reflexivity).
    rewrite split_no_sep; [reflexivity |].
    intros [E | Hin]; [cbv in E; discriminate E | contradiction]. }
  split.
  - cbn [getField]. rewrite Hsplit. cbn [nth nth_error].
    rewrite list_eqb_refl, (fromString_ascii _ Aval). reflexivity.
  - cbn [getField]. rewrite Hsplit. cbn [nth].
    assert (N : list_eqb (toLowerCase (lit "Content-Length"))
                  (toLowerCase (lit "Transfer-Encoding")) = false)
      by reflexivity.
    now rewrite N.
Qed.

End LengthRoundTrip.

(** X22.  The writer and the reader agree on Content-Length: a request
    whose method allows a body and whose only header is the
    Content-Length line that [writeHTTPRes] prints for [n] bytes, with
    [0 < n < 2^53] (the integers a JavaScript number holds exactly, all
    printed in full), gets the reader over the connection for exactly
    [n] bytes. *)
Theorem content_length_round_trip
    (c : TCPConn) (b : DynBuf) (m : JSString) (u : Buffer) (v : JSString)
    (n : Z) :
  0 < n < 2 ^ 53 -> m <> lit "GET" -> m <> lit "HEAD" ->
  readerFromReq c b (mkHTTPReq m u v [contentLength n])
  = Ok (readerFromConnLength n).
Proof.
  intros [Hn _] Hg Hh. destruct n as [| p | p]; try lia.
  destruct (getField_contentLength p) as [G1 G2].
  apply list_eqb_neq in Hg, Hh.
  unfold readerFromReq, rbind. cbn [headers method].
  rewrite G1, G2, Hg, Hh. unfold toStringLatin1, parseDec.
  rewrite parseInt10_decimal. cbn [Z.eqb orb negb andb].
  reflexivity.
Qed.

Lemma content_length_round_trip_witness :
  readerFromReq (soInit []) emptyBuf
    (mkHTTPReq (lit "POST") (lit "/echo") (lit "1.1") [contentLength 1234])
  = Ok (readerFromConnLength 1234).
Proof.
  apply (content_length_round_trip (soInit []) emptyBuf
           (lit "POST") (lit "/echo") (lit "1.1") 1234).
  - split; reflexivity.
  - discriminate.
  - discriminate.
Defined.

(* ================================================================== *)
(** * The head of a response *)
(* ================================================================== *)

Section ResponseHead.

Lemma reason_printable (c : Z) :
  Forall (fun x => 32 <= x < 128) (lit (getReasonFromCode c)).
Proof.
  assert (T : forallb
                (fun p => forallb (fun x => (32 <=? x) && (x <? 128))
                            (lit (snd p)))
                kReasons = true) by (vm_compute; reflexivity).
  assert (B : forall s,
            forallb (fun x => (32 <=? x) && (x <? 128)) (lit s) = true ->
            Forall (fun x => 32 <= x < 128) (lit s)).
  { intros s H. apply Forall_forall. intros x Hx.
    rewrite forallb_forall in H. specialize (H x Hx).
    apply andb_true_iff in H. destruct H as [H1 H2].
    apply Z.leb_le in H1. apply Z.ltb_lt in H2. lia. }
  unfold getReasonFromCode.
  destruct (find (fun p => fst p =? c) kReasons) as [[c' reason] |] eqn:F.
  - apply find_some in F. destruct F as [Hin _].
    rewrite forallb_forall in T. apply B. exact (T _ Hin).
  - apply B. vm_compute. reflexivity.
Qed.

Lemma statusLine_printable (c : Z) :
  0 < c -> Forall (fun x => 32 <= x < 128) (statusLine c).
Proof.
  intros Hc. unfold statusLine. apply Forall_app. split.
  - apply Forall_forall. intros x Hx.
    cbn in Hx. unfold SP in *. lia.
  - apply Forall_app. split.
    + destruct c as [| p | p]; try lia.
      eapply Forall_impl; [| exact (decimal_digits p)]. cbn. intros; lia.
    + constructor; [unfold SP; lia | apply reason_printable].
Qed.

Lemma find_sub_no_CR (l : list Z) :
  Forall (fun x => 32 <= x < 128) l -> find_sub CRLF l = None.
Proof.
  induction 1 as [| x l Hx Hl IH]; [reflexivity |].
  cbn [find_sub]. rewrite IH. unfold CRLF. cbn [prefixb].
  assert (N : (CR =? x) = false) by (apply Z.eqb_neq; unfold CR; lia).
  now rewrite N.
Qed.

Lemma isAscii_app (a b : list Z) : isAscii a -> isAscii b -> isAscii (a ++ b).
Proof. intros Ha Hb. apply Forall_app. now split. Qed.

Lemma isAscii_CRLF : isAscii CRLF.
Proof. unfold CRLF, CR, LF. repeat constructor; lia. Qed.

Lemma isAscii_join (hs : list Buffer) :
  Forall isAscii hs -> isAscii (join CRLF hs).
Proof.
  induction 1 as [| h hs Hh Hhs IH]; [constructor |].
  destruct hs as [| h' hs]; [exact Hh |].
  change (join CRLF (h :: h' :: hs)) with (h ++ CRLF ++ join CRLF (h' :: hs)).
  apply isAscii_app; [exact Hh |].
  apply isAscii_app; [exact isAscii_CRLF | exact IH].
Qed.

Lemma map_toString_ascii (hs : list Buffer) :
  Forall isAscii hs -> map toString hs = hs.
Proof.
  induction 1 as [| h hs Hh Hhs IH]; [reflexivity |].
  cbn [map]. now rewrite (toString_ascii h Hh), IH.
Qed.

Lemma wire_join (hs : list Buffer) :
  hs <> [] -> wire (hs ++ [[]]) = join CRLF hs ++ CRLFCRLF.
Proof.
  induction hs as [| h hs IH]; [contradiction |]. intros _.
  destruct hs as [| h' hs].
  - cbn [app]. rewrite !wire_cons. reflexivity.
  - change ((h :: h' :: hs) ++ [[]]) with (h :: (h' :: hs) ++ [[]]).
    rewrite wire_cons, IH by discriminate.
    change (join CRLF (h :: h' :: hs)) with (h ++ CRLF ++ join CRLF (h' :: hs)).
    now rewrite <- !app_assoc.
Qed.

End ResponseHead.

(** X23.  The head of a response is a header block.  For a positive
    code and header lines of bytes below 128, at least one of them,
    [encodeHTTPRes] gives the status line [HTTP/1.1 code reason], the
    header lines and a blank line, each followed by CRLF; when no
    header line holds a CRLF, [splitlines] reads these lines back. *)
Theorem response_head_is_a_block (c : Z) (hs : list Buffer) :
  0 < c -> hs <> [] -> Forall isAscii hs ->
  encodeHTTPRes c hs = block (statusLine c) hs
  /\ (Forall noCRLF hs ->
      splitlines (encodeHTTPRes c hs) = statusLine c :: hs ++ [[]]).
Proof.
  intros Hc Hne Ha.
  pose proof (statusLine_printable c Hc) as Ps.
  assert (As : isAscii (statusLine c)).
  { unfold isAscii. eapply Forall_impl; [| exact Ps]. cbn. intros; lia. }
  assert (E : encodeHTTPRes c hs = block (statusLine c) hs).
  { unfold encodeHTTPRes, block. rewrite wire_cons, (wire_join hs Hne).
    rewrite (map_toString_ascii hs Ha).
    replace (lit "HTTP/1.1 " ++ decimal c ++ [SP]
               ++ lit (getReasonFromCode c) ++ CRLF)
      with (statusLine c ++ CRLF)
      by (unfold statusLine; now rewrite <- !app_assoc).
    rewrite (fromString_ascii (statusLine c ++ CRLF))
      by (apply isAscii_app; [exact As | exact isAscii_CRLF]).
    rewrite (fromString_ascii (join CRLF hs ++ CRLFCRLF))
      by (apply isAscii_app;
          [now apply isAscii_join
          | unfold CRLFCRLF, CR, LF; repeat constructor; lia]).
    now rewrite <- app_assoc. }
  split; [exact E |].
  intros Hn. rewrite E. apply splitlines_block; [| | exact Hn].
  - unfold statusLine. discriminate.
  - apply find_sub_no_CR. exact Ps.
Qed.

Lemma response_head_is_a_block_witness :
  encodeHTTPRes 200 [lit "Content-Length: 20"]
  = block (statusLine 200) [lit "Content-Length: 20"]
  /\ (Forall noCRLF [lit "Content-Length: 20"] ->
      splitlines (encodeHTTPRes 200 [lit "Content-Length: 20"])
      = statusLine 200 :: [lit "Content-Length: 20"] ++ [[]]).
Proof.
  apply (response_head_is_a_block 200 [lit "Content-Length: 20"]).
  - lia.
  - discriminate.
  - constructor; [| constructor].
    apply Forall_forall. intros x Hx. cbn in Hx. lia.
Defined.

Section DefaultRoute.

Lemma default_route_run (f : nat) (req : HTTPReq) (rb : BodyReader)
      (w : World) :
  toStringLatin1 (uri req) <> lit "/echo" ->
  err (conn w) = None -> ended (conn w) = false ->
  writeHTTPRes (S (S f)) (handleReq req) rb w
  = Some (Ok tt,
          (rb, mkWorld (sending (conn w) [okHead 20; greeting])
                 (buf w) (got w))).
Proof.
  intros Hu He Hd. apply list_eqb_neq in Hu.
  unfold handleReq. rewrite Hu. unfold greeting.
  set (g := fromString (lit "Hello From Nazarick" ++ [LF])).
  rewrite (writeHTTPRes_memory_run f 200 [fromString (lit "Server: Nazarick")]
             g rb w He Hd).
  assert (L : len g = 20) by (vm_compute; reflexivity).
  rewrite L.
  assert (G : match g with [] => [] | _ => [g] end = [g])
    by (vm_compute; reflexivity).
  rewrite G.
  unfold okHead, contentLength. cbn [app]. reflexivity.
Qed.

End DefaultRoute.

(** X24.  Every request whose URI is not [/echo] gets the same answer:
    on a socket without error whose stream has not ended the writer
    sends the head [HTTP/1.1 200 OK], [Server: Nazarick],
    [Content-Length: 20] and then the 20 bytes of the greeting in one
    chunk; the request's body reader and the buffer of the connection
    are not touched. *)
Theorem default_route_greets (f : nat) (req : HTTPReq) (rb : BodyReader)
      (w : World) :
  toStringLatin1 (uri req) <> lit "/echo" ->
  err (conn w) = None -> ended (conn w) = false ->
  writeHTTPRes (S (S f)) (handleReq req) rb w
  = Some (Ok tt,
          (rb, mkWorld (sending (conn w) [okHead 20; greeting])
                 (buf w) (got w))).
Proof.
  intros Hu He Hd. apply (default_route_run f req rb w Hu He Hd).
Qed.

Lemma default_route_greets_witness :
  writeHTTPRes 2 (handleReq (mkHTTPReq (lit "GET") (lit "/") (lit "1.1") []))
    (readerFromMemory []) (mkWorld (soInit []) emptyBuf [])
  = Some (Ok tt,
          (readerFromMemory [],
           mkWorld (sending (soInit []) [okHead 20; greeting])
             emptyBuf [])).
Proof.
  apply (default_route_greets 0
           (mkHTTPReq (lit "GET") (lit "/") (lit "1.1") [])
           (readerFromMemory []) (mkWorld (soInit []) emptyBuf [])).
  - unfold toStringLatin1, uri. vm_compute. discriminate.
  - reflexivity.
  - reflexivity.
Defined.

(* ================================================================== *)
(** * A connection kept alive, then closed by an HTTP/1.0 request *)
(* ================================================================== *)

Section KeepAlive.

(** A round that serves a request and keeps the connection alive. *)
Lemma serveLoop_keep_alive (f : nat) (w : World) (msg : HTTPReq) (b' : DynBuf)
      (rb rb1 rb2 : BodyReader) (w2 w3 : World) :
  cutMessage (buf w) = (Ok (Some msg), b') ->
  readerFromReq (conn w) b' msg = Ok rb ->
  writeHTTPRes f (handleReq msg) rb (mkWorld (conn w) b' (got w ++ [msg]))
  = Some (Ok tt, (rb1, w2)) ->
  version msg <> lit "1.0" ->
  discardBody f rb1 w2 = Some (Ok tt, (rb2, w3)) ->
  serveLoop (S f) w = serveLoop f w3.
Proof.
  intros C R W V D. apply list_eqb_neq in V.
  cbn [serveLoop]. rewrite C. cbn [conn buf got]. rewrite R, W, V, D.
  reflexivity.
Qed.

(** The chunk is read in the first round, the HTTP/1.1 request is
    served in the second, and the loop goes on from [afterGet11]. *)
Lemma reaches_afterGet11 : reaches [EvData keepAliveThen10] afterGet11.
Proof.
  exists 2%nat, 2%nat. intros fuel Hf.
  destruct fuel as [| [| f]]; [lia | lia |].
  unfold serveClient.
  change (2 + S (S f))%nat with (S (S (S (S f)))).
  rewrite (serveLoop_more (S (S (S f)))
             (mkWorld (soInit [EvData keepAliveThen10]) emptyBuf [])
             emptyBuf keepAliveThen10 (soInit []))
    by (reflexivity || discriminate).
  cbn [conn buf got].
  set (b1 := mkDynBuf (keepAliveThen10 ++ repeat 0 56) 54 18).
  apply (serveLoop_keep_alive (S (S f))
           (mkWorld (soInit []) (bufPush emptyBuf keepAliveThen10) [])
           get11 b1 (readerFromConnLength 0) (readerFromConnLength 0)
           (readerFromConnLength 0)
           (mkWorld (sending (soInit []) [okHead 20; greeting]) b1 [get11])
           afterGet11).
  - vm_compute. reflexivity.
  - vm_compute. reflexivity.
  - apply (default_route_run f get11 (readerFromConnLength 0)
             (mkWorld (soInit []) b1 ([] ++ [get11])));
      [vm_compute; discriminate | reflexivity | reflexivity].
  - discriminate.
  - reflexivity.
Qed.

End KeepAlive.

(** One chunk holds an HTTP/1.1 request and three HTTP/1.0 requests.
    The first is served and the connection kept; the round after it
    takes the second, whose version is 1.0: the loop returns, the
    socket is destroyed, and the two requests left stay in the
    buffer. *)
Lemma http10_closes_after_one_response_witness :
  exists fuel0 : nat,
    forall fuel : nat, (fuel0 <= fuel)%nat ->
      exists (r : Result unit) (w' wf : World),
        serveClient fuel (soInit [EvData keepAliveThen10]) = Some (r, w')
        /\ newConn fuel [EvData keepAliveThen10] = Some wf
        /\ destroyed (conn wf) = true
        /\ got w' = [get11] ++ [get10]
        /\ got wf = [get11] ++ [get10]
        /\ (exists chunks,
              sent (conn w') = [okHead 20; greeting] ++ chunks
              /\ (r = Ok tt ->
                  exists n bodyChunks,
                    chunks = okHead n :: bodyChunks
                    /\ len (List.concat bodyChunks) <= n))
        /\ (r = Ok tt -> wf = mkWorld (destroy (conn w')) (buf w') (got w'))
        /\ (forall rb,
              readerFromReq (sending (soInit []) [okHead 20; greeting])
                (mkDynBuf (keepAliveThen10 ++ repeat 0 56) 36 36) get10
              = Ok rb ->
              readerLength rb = 0 ->
              buf wf = mkDynBuf (keepAliveThen10 ++ repeat 0 56) 36 36
              /\ events (conn wf) = []).
Proof.
  apply (http10_closes_after_one_response [EvData keepAliveThen10]
           afterGet11 get10
           (mkDynBuf (keepAliveThen10 ++ repeat 0 56) 36 36)).
  - exact reaches_afterGet11.
  - vm_compute. reflexivity.
  - reflexivity.
  - vm_compute. discriminate.
  - vm_compute. discriminate.
Defined.

(** That whole connection: two responses are sent, first to the
    HTTP/1.1 request and then to the HTTP/1.0 request, the socket is
    destroyed, and the 36 bytes of the two requests left are still in
    the buffer. *)
Lemma keepalive_then_http10_closes :
  option_map
    (fun w => (sent (conn w), destroyed (conn w), got w,
               length (buf w), window (buf w)))
    (newConn 10 [EvData keepAliveThen10])
  = Some ([okHead 20; greeting; okHead 20; greeting], true, [get11; get10],
          36, twoRequests10).
Proof. vm_compute. reflexivity. Qed.
